(** * nearest-color: nearest-neighbour colour matching

    A shallow embedding of the library's latest source (version 0.4.4:
    [parseColor], [parseComponentValue], [rgbToHex], [leadingZero],
    [createColorSpec], [mapColors], [nearestColor], [nearestColor.from] and
    the matcher's [or]) and, in the module [Earlier], of the [parseColor]
    and [mapColors] of the version before it, followed by the properties
    the library's description states.

    Conventions of the embedding.
    - A JavaScript string is a [string] whose characters are code units
      below 256.
    - The fields of an RGB are numbers with an integer value, in [Z].
      The search subtracts, squares and adds them as doubles: each
      operation gives the double nearest to its exact result
      ([to_double]), which is that result below 2^53 and [Infinity] on
      overflow.  The properties of the search that depend on the
      distances are stated for channels up to 2^24 in absolute value,
      where every step is exact; this covers every colour the parser
      produces (channels up to 2547).  The one division, of
      [parseComponentValue], is taken in [Q]: its quotient is a multiple
      of 1/20, so rounding the double or the rational to the nearest
      integer gives the same result.  [Math.sqrt] is the real square
      root, which is what the double is on a perfect square.
    - An exception is an explicit outcome: [Return] or [Throw].
    - The objects are those of the documented types: an RGB, a ColorSpec,
      an array or an object of colours; besides them only what the code
      itself reaches from a string, a built-in function and
      [Object.prototype]. *)

From Stdlib Require Import ZArith List String Ascii Bool Lia.
From Stdlib Require Import QArith Qround Reals HexadecimalString.
Import ListNotations.
Local Open Scope string_scope.
Local Open Scope Z_scope.

(** ** Outcomes: a returned value or a thrown exception *)

(** The two [TypeError]s the code can run into. *)
Inductive type_error : Type :=
| NotAFunction                         (* source.match is not a function *)
| ReadOfUndefined (property : string). (* reading a property of undefined *)

Inductive error : Type :=
| InvalidColor (source : string)  (* Error('"' + source + '" is not a valid color') *)
| TypeError (why : type_error)
| RangeError.                     (* call stack exhausted *)

Inductive outcome (A : Type) : Type :=
| Return (a : A)
| Throw (e : error).

Arguments Return {A} a.
Arguments Throw {A} e.

Definition bind {A B : Type} (m : outcome A) (k : A -> outcome B) : outcome B :=
  match m with
  | Return a => k a
  | Throw e => Throw e
  end.

Notation "x <- m ;; k" := (bind m (fun x => k))
  (at level 61, m at next level, right associativity).

(** [Array.prototype.map] with a callback that may throw: elements are
    visited in index order and the first exception ends the call. *)
Fixpoint mapM {A B : Type} (f : A -> outcome B) (l : list A) : outcome (list B) :=
  match l with
  | [] => Return []
  | a :: l' => b <- f a ;; bs <- mapM f l' ;; Return (b :: bs)
  end.

(** ** Characters and strings *)

Definition code (c : ascii) : Z := Z.of_N (N_of_ascii c).

(** The class [\d], which is also [[0-9]]. *)
Definition is_digit (c : ascii) : bool := (48 <=? code c) && (code c <=? 57).

(** The class [[0-9a-f]] under the [i] flag. *)
Definition is_hex_digit (c : ascii) : bool :=
  is_digit c
  || ((97 <=? code c) && (code c <=? 102))
  || ((65 <=? code c) && (code c <=? 70)).

(** The class [\s], below 256: tab, line feed, vertical tab, form feed,
    carriage return, space and no-break space. *)
Definition is_space (c : ascii) : bool :=
  ((9 <=? code c) && (code c <=? 13)) || (code c =? 32) || (code c =? 160).

Fixpoint all_chars (p : ascii -> bool) (s : string) : bool :=
  match s with
  | EmptyString => true
  | String c s' => p c && all_chars p s'
  end.

(** [s.charAt(i)]: the empty string when [i] is out of range. *)
Definition charAt (i : nat) (s : string) : string := substring i 1 s.

(** [s.substring(i, j)] for [i <= j]. *)
Definition js_substring (i j : nat) (s : string) : string := substring i (j - i) s.

(** The value of one hexadecimal digit. *)
Definition hex_value (c : ascii) : Z :=
  if is_digit c then code c - 48
  else if 97 <=? code c then code c - 87
  else code c - 55.

Fixpoint hex_digits_value (acc : Z) (s : string) : Z :=
  match s with
  | String c s' =>
      if is_hex_digit c then hex_digits_value (16 * acc + hex_value c) s' else acc
  | EmptyString => acc
  end.

(** [parseInt(s, 16)] on a string that starts with a hexadecimal digit and
    has no [0x] prefix (the strings [parseColor] cuts out of a hex match):
    the value of the leading hexadecimal digits. *)
Definition parseInt16 (s : string) : Z := hex_digits_value 0 s.

Fixpoint digits_value (acc : Z) (s : string) : Z :=
  match s with
  | String c s' =>
      if is_digit c then digits_value (10 * acc + (code c - 48)) s' else acc
  | EmptyString => acc
  end.

(** [parseInt(s, 10)] on a string that starts with a decimal digit: the
    value of the leading decimal digits; what follows them is ignored. *)
Definition parseInt10 (s : string) : Z := digits_value 0 s.

(** [Number(s)] on a non-empty string of decimal digits: its decimal value
    (leading zeros allowed). *)
Definition Number (s : string) : Z := digits_value 0 s.

(** [Math.round]: the nearest integer, halves towards plus infinity. *)
Definition Math_round (x : Q) : Z := Qfloor (x + (1 # 2))%Q.

(** [n.toString(16)] for an integer [n]: lowercase digits, no padding, a
    minus sign for a negative number. *)
Definition toString16 (n : Z) : string := NilZero.string_of_int (Z.to_hex_int n).

(** ** Values *)

(** What stands where the source expects an [RGB]: an object with three
    numeric fields, or [Object.prototype] itself, which has none of
    [r], [g], [b]. *)
Inductive RGB : Type :=
| Rgb (r g b : Z)
| ObjectPrototype.

(** The values [parseColor] can be called with: a string or an object (its
    documented parameter), or a built-in function (see
    [OBJECT_PROTOTYPE]). *)
Inductive jsval : Type :=
| VString (s : string)
| VObject (o : RGB)
| VFunction.

(** [nearestColor.STANDARD_COLORS]: its own properties, in order. *)
Definition STANDARD_COLORS : list (string * string) :=
  [ ("aqua", "#0ff"); ("black", "#000"); ("blue", "#00f"); ("fuchsia", "#f0f");
    ("gray", "#808080"); ("green", "#008000"); ("lime", "#0f0");
    ("maroon", "#800000"); ("navy", "#000080"); ("olive", "#808000");
    ("orange", "#ffa500"); ("purple", "#800080"); ("red", "#f00");
    ("silver", "#c0c0c0"); ("teal", "#008080"); ("white", "#fff");
    ("yellow", "#ff0") ].

(** [STANDARD_COLORS] is written as an object literal, so its prototype is
    [Object.prototype], and both [key in STANDARD_COLORS] and
    [STANDARD_COLORS[key]] also see the properties inherited from it: the
    built-in methods, and the accessor [__proto__], which yields
    [Object.prototype]. *)
Definition OBJECT_PROTOTYPE : list (string * jsval) :=
  [ ("constructor", VFunction); ("hasOwnProperty", VFunction);
    ("isPrototypeOf", VFunction); ("propertyIsEnumerable", VFunction);
    ("toLocaleString", VFunction); ("toString", VFunction);
    ("valueOf", VFunction);
    ("__defineGetter__", VFunction); ("__defineSetter__", VFunction);
    ("__lookupGetter__", VFunction); ("__lookupSetter__", VFunction);
    ("__proto__", VObject ObjectPrototype) ].

Fixpoint assoc {A : Type} (key : string) (props : list (string * A)) : option A :=
  match props with
  | [] => None
  | (k, v) :: props' => if String.eqb key k then Some v else assoc key props'
  end.

(** [source in STANDARD_COLORS] and [STANDARD_COLORS[source]] in one:
    [None] when the [in] test is false. *)
Definition STANDARD_COLORS_get (key : string) : option jsval :=
  match assoc key STANDARD_COLORS with
  | Some hex => Some (VString hex)
  | None => assoc key OBJECT_PROTOTYPE
  end.

(** ** The two regular expressions of parseColor *)

(** [/^#?((?:[0-9a-f]{3}){1,2})$/i]: the result is capture group 1.  A
    [#] is not a hexadecimal digit, so a leading one can only be matched by
    [#?]. *)
Definition hexMatch (s : string) : option string :=
  let body := match s with
              | String c s' => if Ascii.eqb c "#" then s' else s
              | EmptyString => s
              end in
  if all_chars is_hex_digit body
     && ((length body =? 3)%nat || (length body =? 6)%nat)
  then Some body else None.

(** A literal character of the pattern; under the [i] flag a letter
    matches in either case. *)
Definition expect (c : ascii) (s : string) : option string :=
  match s with
  | String c' s' => if Ascii.eqb c' c then Some s' else None
  | EmptyString => None
  end.

Definition expect_ci (lower upper : ascii) (s : string) : option string :=
  match s with
  | String c' s' => if Ascii.eqb c' lower || Ascii.eqb c' upper then Some s' else None
  | EmptyString => None
  end.

(** [\s*] *)
Fixpoint skip_spaces (s : string) : string :=
  match s with
  | String c s' => if is_space c then skip_spaces s' else s
  | EmptyString => s
  end.

(** At most [n] leading digits of [s], and what follows them. *)
Fixpoint take_digits (n : nat) (s : string) : string * string :=
  match n, s with
  | S n', String c s' =>
      if is_digit c
      then let (d, rest) := take_digits n' s' in (String c d, rest)
      else (EmptyString, s)
  | _, _ => (EmptyString, s)
  end.

(** [(\d{1,3}%?)]: the captured text and what follows it. *)
Definition component (s : string) : option (string * string) :=
  let (d, rest) := take_digits 3 s in
  match d with
  | EmptyString => None
  | _ =>
      match rest with
      | String c rest' => if Ascii.eqb c "%" then Some (d ++ "%", rest') else Some (d, rest)
      | EmptyString => Some (d, rest)
      end
  end.

Definition obind {A B : Type} (m : option A) (k : A -> option B) : option B :=
  match m with
  | Some a => k a
  | None => None
  end.

Notation "x <-? m ;; k" := (obind m (fun x => k))
  (at level 61, m at next level, right associativity).

(** [/^rgb\(\s*(\d{1,3}%?),\s*(\d{1,3}%?),\s*(\d{1,3}%?)\s*\)$/i]: the
    result is the three capture groups.  Every piece of the pattern is
    followed by one that starts with a character the piece cannot match,
    so the longest match of each piece is the only one to try. *)
Definition rgbMatch (s : string) : option (string * string * string) :=
  s <-? expect_ci "r" "R" s ;;
  s <-? expect_ci "g" "G" s ;;
  s <-? expect_ci "b" "B" s ;;
  s <-? expect "(" s ;;
  c1 <-? component (skip_spaces s) ;;
  s <-? expect "," (snd c1) ;;
  c2 <-? component (skip_spaces s) ;;
  s <-? expect "," (snd c2) ;;
  c3 <-? component (skip_spaces s) ;;
  s <-? expect ")" (skip_spaces (snd c3)) ;;
  match s with
  | EmptyString => Some (fst c1, fst c2, fst c3)
  | _ => None
  end.

(** ** parseComponentValue, parseColor *)

Definition parseComponentValue (string : string) : Z :=
  if String.eqb (charAt (length string - 1) string) "%"
  then Math_round (inject_Z (parseInt10 string) * 255 / 100)%Q
  else Number string.

(** [parseColor] calls itself on the table's value when its argument is
    a property name of [STANDARD_COLORS]; [depth] bounds the nesting of
    such calls, as the call stack does ([parseColor_depth_enough] shows
    that one nested call is all that ever happens). *)
Fixpoint parseColor_depth (depth : nat) (source : jsval) : outcome RGB :=
  match source with
  | VObject o => Return o
  | VFunction =>
      (* typeof is 'function'; the function's text is no property name of
         the table; a function has no match method *)
      Throw (TypeError NotAFunction)
  | VString s =>
      match STANDARD_COLORS_get s with
      | Some v =>
          match depth with
          | O => Throw RangeError
          | S depth' => parseColor_depth depth' v
          end
      | None =>
          match hexMatch s with
          | Some hexMatch =>
              let '(h0, h1, h2) :=
                if (length hexMatch =? 3)%nat
                then (charAt 0 hexMatch ++ charAt 0 hexMatch,
                      charAt 1 hexMatch ++ charAt 1 hexMatch,
                      charAt 2 hexMatch ++ charAt 2 hexMatch)
                else (js_substring 0 2 hexMatch,
                      js_substring 2 4 hexMatch,
                      js_substring 4 6 hexMatch) in
              Return (Rgb (parseInt16 h0) (parseInt16 h1) (parseInt16 h2))
          | None =>
              match rgbMatch s with
              | Some (c1, c2, c3) =>
                  Return (Rgb (parseComponentValue c1)
                              (parseComponentValue c2)
                              (parseComponentValue c3))
              | None => Throw (InvalidColor s)
              end
          end
      end
  end.

Definition parseColor (source : jsval) : outcome RGB := parseColor_depth 1 source.

(** ** rgbToHex, leadingZero *)

Definition leadingZero (value : string) : string :=
  if (length value =? 1)%nat then "0" ++ value else value.

(** [Object.prototype] has no [r]: [rgb.r.toString] is a read of
    [toString] on undefined. *)
Definition rgbToHex (rgb : RGB) : outcome string :=
  match rgb with
  | Rgb r g b =>
      Return ("#" ++ leadingZero (toString16 r)
                  ++ leadingZero (toString16 g) ++ leadingZero (toString16 b))
  | ObjectPrototype => Throw (TypeError (ReadOfUndefined "toString"))
  end.

(** ** createColorSpec, mapColors *)

Record ColorSpec : Type := mkColorSpec {
  name : option string;
  source : string;
  rgb : RGB
}.

(** The elements of an array of colours and the values of an object of
    colours: a string, an [RGB], or a [ColorSpec] built before. *)
Inductive input : Type :=
| IString (s : string)
| IRgb (o : RGB)
| ISpec (c : ColorSpec).

(** [if (name)]: an absent name and the empty string are both falsy. *)
Definition truthy (name : option string) : option string :=
  match name with
  | Some EmptyString => None
  | _ => name
  end.

(** The branch of [createColorSpec] for a string input. *)
Definition createColorSpec_string (s : string) (name : option string)
  : outcome ColorSpec :=
  rgb <- parseColor (VString s) ;;
  Return {| name := truthy name; source := s; rgb := rgb |}.

(** An object input with a truthy [source] is a [ColorSpec]: the function
    calls itself on that source (a string) and that spec's name.  An
    object with a falsy [source] is taken for an [RGB]; a [ColorSpec]
    has no [r], so [rgbToHex] throws on it. *)
Definition createColorSpec (input : input) (name : option string)
  : outcome ColorSpec :=
  match input with
  | IString s => createColorSpec_string s name
  | ISpec (mkColorSpec input_name input_source _) =>
      match input_source with
      | EmptyString => Throw (TypeError (ReadOfUndefined "toString"))
      | _ => createColorSpec_string input_source input_name
      end
  | IRgb o =>
      hex <- rgbToHex o ;;
      Return {| name := truthy name; source := hex; rgb := o |}
  end.

(** The argument of [mapColors]: an array, or an object given by its
    properties in the order of [Object.keys]. *)
Inductive colors : Type :=
| Array (elements : list input)
| Object (props : list (string * input)).

Definition mapColors (colors : colors) : outcome (list ColorSpec) :=
  match colors with
  | Array elements => mapM (fun color => createColorSpec color None) elements
  | Object props =>
      mapM (fun prop => createColorSpec (snd prop) (Some (fst prop))) props
  end.

(** [nearestColor.DEFAULT_COLORS = mapColors(['#f00', ...])] *)
Definition DEFAULT_COLORS : list ColorSpec :=
  Eval vm_compute in
  match mapColors (Array (map IString
          ["#f00"; "#f80"; "#ff0"; "#0f0"; "#00f"; "#008"; "#808"])) with
  | Return l => l
  | Throw _ => []
  end.

(** ** nearestColor *)

(** The double nearest to an integer.  Below 2^53 in absolute value it is
    the integer itself.  From there on the doubles are the multiples of
    the unit in the last place, [ulp], which leaves 53 significant bits:
    the nearest multiple is taken, the one with an even quotient on a
    tie.  [None] is an overflow: the result is one of the infinities. *)
Definition to_double (z : Z) : option Z :=
  let a := Z.abs z in
  if a <? 2 ^ 53 then Some z
  else
    let ulp := 2 ^ (Z.log2 a - 52) in
    let q := a / ulp in
    let r := a mod ulp in
    let q' := if (ulp <? 2 * r) || ((2 * r =? ulp) && Z.odd q) then q + 1 else q in
    if 2 ^ 1024 <=? q' * ulp then None else Some (Z.sgn z * (q' * ulp)).

(** A distance as the loop computes it: NaN, a number with an integer
    value, or [Infinity]. *)
Inductive number : Type :=
| NaN
| Num (z : Z)
| Infinity.

(** [Math.pow(x - y, 2)] on two channels: the difference is rounded, and
    so is its square, the result of [Math.pow] being taken for the double
    nearest to the square, as that of a multiplication is; the square of
    either infinity is [Infinity]. *)
Definition Math_pow_2 (x y : Z) : number :=
  match to_double (x - y) with
  | None => Infinity
  | Some difference =>
      match to_double (difference * difference) with
      | None => Infinity
      | Some square => Num square
      end
  end.

(** [+] on two squares: NaN if either is; [Infinity] if either is (a
    square is never the negative infinity), or if the sum overflows. *)
Definition plus (x y : number) : number :=
  match x, y with
  | NaN, _ | _, NaN => NaN
  | Infinity, _ | _, Infinity => Infinity
  | Num a, Num b =>
      match to_double (a + b) with
      | None => Infinity
      | Some sum => Num sum
      end
  end.

(** The sum of the three squared differences, added from left to right;
    NaN as soon as a field is undefined. *)
Definition distanceSq (needle rgb : RGB) : number :=
  match needle, rgb with
  | Rgb nr ng nb, Rgb r g b =>
      plus (plus (Math_pow_2 nr r) (Math_pow_2 ng g)) (Math_pow_2 nb b)
  | _, _ => NaN
  end.

(** One turn of the loop.  The variables [minDistanceSq] and [value] are
    assigned together: the state is [None] while they are [Infinity] and
    undefined, and [Some (minDistanceSq, value)] afterwards.  NaN is less
    than nothing; [Infinity] is less than neither [Infinity] nor a
    number; a number is less than [Infinity]. *)
Definition scan_step (needle : RGB) (st : option (Z * ColorSpec)) (color : ColorSpec)
  : option (Z * ColorSpec) :=
  match distanceSq needle (rgb color) with
  | NaN | Infinity => st
  | Num d =>
      match st with
      | None => Some (d, color)
      | Some (minDistanceSq, _) => if d <? minDistanceSq then Some (d, color) else st
      end
  end.

Definition scan (needle : RGB) (colors : list ColorSpec) : option (Z * ColorSpec) :=
  fold_left (scan_step needle) colors None.

(** What [nearestColor] returns: the source alone, or a [ColorMatch]. *)
Inductive MatchResult : Type :=
| Bare (value : string)
| Match (name value : string) (rgb : RGB) (distance : R).

(** The end of [nearestColor], once [value] is defined. *)
Definition result (value : ColorSpec) (minDistanceSq : Z) : MatchResult :=
  match truthy (name value) with
  | Some n => Match n (source value) (rgb value) (sqrt (IZR minDistanceSq))
  | None => Bare (source value)
  end.

(** [colors] is [None] when the second argument is omitted.  An array is
    truthy even when empty, so only an omitted argument is replaced by the
    default.  On a string or an object [parseColor] returns an object,
    which is truthy, or throws: the test [!needle] holds of a null needle
    only, which the parameter's type [RGB|string] leaves out.  After a
    loop that selected nothing [value] is undefined and [value.name]
    throws. *)
Definition nearestColor (needle : jsval) (colors : option (list ColorSpec))
  : outcome MatchResult :=
  needle <- parseColor needle ;;
  let colors := match colors with Some l => l | None => DEFAULT_COLORS end in
  match scan needle colors with
  | Some (minDistanceSq, value) => Return (result value minDistanceSq)
  | None => Throw (TypeError (ReadOfUndefined "name"))
  end.

(** ** nearestColor.from and the matcher's or *)

(** A matcher is a closure over the array [colors]. *)
Record matcher : Type := mkMatcher { captured : list ColorSpec }.

Definition from (availableColors : colors) : outcome matcher :=
  colors <- mapColors availableColors ;;
  Return {| captured := colors |}.

(** Calling the matcher. *)
Definition call (m : matcher) (hex : jsval) : outcome MatchResult :=
  nearestColor hex (Some (captured m)).

(** [matcher.from = from]: the receiver plays no part. *)
Definition matcher_from (m : matcher) (availableColors : colors) : outcome matcher :=
  from availableColors.

Definition or (m : matcher) (alternateColors : colors) : outcome matcher :=
  alternate <- mapColors alternateColors ;;
  let extendedColors := (captured m ++ alternate)%list in
  from (Array (map ISpec extendedColors)).

(** ** The version before createColorSpec *)

(** [src/nearestColor.js]: the [parseColor] and the [mapColors] that the
    latest version replaced.  This [parseColor] takes a string, wants the
    [#] of a hex string, and returns null, here [None], where the latest
    one throws; this [mapColors] returns an element of an array that has
    an rgb as it is. *)
Module Earlier.

(** [/^#((?:[0-9a-f]{3}){1,2})$/i] *)
Definition hexMatch (s : string) : option string :=
  match s with
  | String c body =>
      if Ascii.eqb c "#" && all_chars is_hex_digit body
         && ((length body =? 3)%nat || (length body =? 6)%nat)
      then Some body else None
  | EmptyString => None
  end.

(** There is no [typeof] test: an object or a function is no property
    name of the table and has no [match] method. *)
Fixpoint parseColor_depth (depth : nat) (source : jsval) : outcome (option RGB) :=
  match source with
  | VObject _ | VFunction => Throw (TypeError NotAFunction)
  | VString s =>
      match STANDARD_COLORS_get s with
      | Some v =>
          match depth with
          | O => Throw RangeError
          | S depth' => parseColor_depth depth' v
          end
      | None =>
          match hexMatch s with
          | Some hexMatch =>
              let '(h0, h1, h2) :=
                if (length hexMatch =? 3)%nat
                then (charAt 0 hexMatch ++ charAt 0 hexMatch,
                      charAt 1 hexMatch ++ charAt 1 hexMatch,
                      charAt 2 hexMatch ++ charAt 2 hexMatch)
                else (js_substring 0 2 hexMatch,
                      js_substring 2 4 hexMatch,
                      js_substring 4 6 hexMatch) in
              Return (Some (Rgb (parseInt16 h0) (parseInt16 h1) (parseInt16 h2)))
          | None =>
              match rgbMatch s with
              | Some (c1, c2, c3) =>
                  Return (Some (Rgb (parseComponentValue c1)
                                    (parseComponentValue c2)
                                    (parseComponentValue c3)))
              | None => Return None
              end
          end
      end
  end.

Definition parseColor (source : jsval) : outcome (option RGB) :=
  parseColor_depth 1 source.

(** An entry's rgb is null when its source did not parse. *)
Record ColorSpec : Type := mkColorSpec {
  name : option string;
  source : string;
  rgb : option RGB
}.

Inductive element : Type :=
| EString (s : string)
| ESpec (c : ColorSpec).

(** The array branch of [mapColors].  [color.rgb] is undefined on a
    string and falsy when null; an element with a null rgb is handed to
    [parseColor] as if it were a string, and [parseColor] throws on an
    object. *)
Definition mapColors_array (colors : list element) : outcome (list ColorSpec) :=
  mapM (fun color =>
          match color with
          | ESpec c =>
              match rgb c with
              | Some _ => Return c
              | None => Throw (TypeError NotAFunction)
              end
          | EString s =>
              parsed <- parseColor (VString s) ;;
              Return {| name := None; source := s; rgb := parsed |}
          end) colors.

(** The argument of [mapColors]: an array, or an object mapping names to
    strings, given by its properties in the order of the [for]-[in]
    loop. *)
Inductive colors : Type :=
| Array (elements : list element)
| Object (props : list (string * string)).

(** The object branch stores the name whatever it is, and the rgb
    [parseColor] returns, null included. *)
Definition mapColors (colors : colors) : outcome (list ColorSpec) :=
  match colors with
  | Array elements => mapColors_array elements
  | Object props =>
      mapM (fun prop =>
              parsed <- parseColor (VString (snd prop)) ;;
              Return {| name := Some (fst prop); source := snd prop; rgb := parsed |})
           props
  end.

Definition DEFAULT_COLORS : list ColorSpec :=
  Eval vm_compute in
  match mapColors (Array (map EString
          ["#f00"; "#f80"; "#ff0"; "#0f0"; "#00f"; "#008"; "#808"])) with
  | Return l => l
  | Throw _ => []
  end.

(** What this [nearestColor] returns: the source alone, or a name and a
    value. *)
Inductive MatchResult : Type :=
| Bare (value : string)
| NameValue (name value : string).

(** One turn of the loop.  A null needle or a null rgb makes the read of
    its [r] throw.  The distances compared are square roots; the square
    root is increasing, strictly on the sums of squares of the channels
    that strings parse to, so the squares are compared here. *)
Definition loop_step (needle : option RGB)
    (st : outcome (option (Z * ColorSpec))) (color : ColorSpec)
  : outcome (option (Z * ColorSpec)) :=
  st <- st ;;
  match needle, rgb color with
  | Some needle, Some rgb =>
      match distanceSq needle rgb with
      | NaN | Infinity => Return st
      | Num d =>
          match st with
          | None => Return (Some (d, color))
          | Some (minDistanceSq, _) =>
              if d <? minDistanceSq then Return (Some (d, color)) else Return st
          end
      end
  | _, _ => Throw (TypeError (ReadOfUndefined "r"))
  end.

Definition nearestColor (hex : jsval) (colors : option (list ColorSpec))
  : outcome MatchResult :=
  needle <- parseColor hex ;;
  let colors := match colors with Some l => l | None => DEFAULT_COLORS end in
  st <- fold_left (loop_step needle) colors (Return None) ;;
  match st with
  | Some (_, value) =>
      match truthy (name value) with
      | Some n => Return (NameValue n (source value))
      | None => Return (Bare (source value))
      end
  | None => Throw (TypeError (ReadOfUndefined "name"))
  end.

(** A matcher is a closure over the array [colors]; its [from] is
    [from]. *)
Record matcher : Type := mkMatcher { captured : list ColorSpec }.

Definition from (availableColors : colors) : outcome matcher :=
  colors <- mapColors availableColors ;;
  Return {| captured := colors |}.

Definition call (m : matcher) (hex : jsval) : outcome MatchResult :=
  nearestColor hex (Some (captured m)).

End Earlier.

(** ** Notions used to state the properties *)

(** An object with the three fields of an [RGB]. *)
Definition is_triple (o : RGB) : bool :=
  match o with
  | Rgb _ _ _ => true
  | ObjectPrototype => false
  end.

(** A channel of at most 2^24 in absolute value.  On such channels the
    arithmetic of the search is exact: a difference is at most 2^25 in
    absolute value, its square at most 2^50, a sum of three at most
    3 * 2^50, below 2^53. *)
Definition exact_channel (z : Z) : bool := (- 2 ^ 24 <=? z) && (z <=? 2 ^ 24).

(** An object whose channels, if it has them, are such. *)
Definition exact_channels (o : RGB) : bool :=
  match o with
  | Rgb r g b => exact_channel r && exact_channel g && exact_channel b
  | ObjectPrototype => true
  end.

(** A digit of a lowercase hexadecimal numeral. *)
Definition is_lower_hex_digit (c : ascii) : bool :=
  is_digit c || ((97 <=? code c) && (code c <=? 102)).

(** The integers from 0 to 255. *)
Definition channel_values : list Z := map Z.of_nat (seq 0 256).

(** What is to be checked of one channel [n]: [n.toString(16)], once
    through [leadingZero], is two lowercase hexadecimal digits that
    [parseInt(_, 16)] reads back as [n]. *)
Definition channel_roundtrip (n : Z) : bool :=
  match leadingZero (toString16 n) with
  | String x (String y EmptyString) =>
      is_lower_hex_digit x && is_lower_hex_digit y
      && is_hex_digit x && is_hex_digit y
      && (parseInt16 (String x (String y EmptyString)) =? n)
  | _ => false
  end.

(** The first character of [s] satisfies [p]. *)
Definition head_is (p : ascii -> bool) (s : string) : bool :=
  match s with
  | String c _ => p c
  | EmptyString => false
  end.

(** One to three decimal digits. *)
Definition digits_ok (d : string) : bool :=
  all_chars is_digit d && (1 <=? length d)%nat && (length d <=? 3)%nat.

(** The integer a decimal numeral denotes: each digit weighs ten to the
    number of digits after it. *)
Fixpoint decimal_value (d : string) : Z :=
  match d with
  | EmptyString => 0
  | String c d' => (code c - 48) * 10 ^ Z.of_nat (length d') + decimal_value d'
  end.

(** A component of an rgb string as its description has it: digits,
    followed by a percent sign or not. *)
Record component_text : Type := mkComponent { digits : string; percent : bool }.

Definition component_string (c : component_text) : string :=
  digits c ++ (if percent c then "%" else "").

(** [v * 255 / 100] rounded to the nearest integer, halves upwards, for a
    percentage [v]; the digits' own value otherwise. *)
Definition component_value (c : component_text) : Z :=
  if percent c
  then (255 * decimal_value (digits c) + 50) / 100
  else decimal_value (digits c).

(** [rgb(c1,c2,c3)] with white space [w0] ... [w3] where the pattern
    allows it: after the parenthesis, after each comma and before the
    closing parenthesis. *)
Definition rgb_string (w0 : string) (c1 : component_text) (w1 : string)
    (c2 : component_text) (w2 : string) (c3 : component_text) (w3 : string) : string :=
  "rgb(" ++ w0 ++ component_string c1 ++ "," ++ w1 ++ component_string c2
         ++ "," ++ w2 ++ component_string c3 ++ w3 ++ ")".

(** The invariant of a palette entry: a non-empty source that parses to
    the entry's rgb, and a name that is not the empty string. *)
Definition consistent (c : ColorSpec) : Prop :=
  source c <> EmptyString
  /\ truthy (name c) = name c
  /\ parseColor (VString (source c)) = Return (rgb c).

(** An [RGB] given as input has its three channels from 0 to 255. *)
Definition input_in_range (i : input) : bool :=
  match i with
  | IRgb (Rgb r g b) =>
      (0 <=? r) && (r <=? 255) && (0 <=? g) && (g <=? 255) && (0 <=? b) && (b <=? 255)
  | _ => true
  end.

Definition colors_in_range (colors : colors) : bool :=
  match colors with
  | Array elements => forallb input_in_range elements
  | Object props => forallb (fun prop => input_in_range (snd prop)) props
  end.

(** The hex grammar: an optional [#], then three or six hexadecimal
    digits. *)
Definition hex_form (s : string) : Prop :=
  exists (hash : bool) (body : string),
    s = (if hash then "#" else "") ++ body
    /\ all_chars is_hex_digit body = true
    /\ (length body = 3 \/ length body = 6)%nat.

(** The rgb grammar, with components [c1], [c2], [c3]: the letters r, g,
    b in either case, and white space where the pattern has [\s*]. *)
Definition rgb_form (s : string) (c1 c2 c3 : component_text) : Prop :=
  exists (p1 p2 p3 : ascii) (w0 w1 w2 w3 : string),
    (p1 = "r" \/ p1 = "R")%char /\ (p2 = "g" \/ p2 = "G")%char
    /\ (p3 = "b" \/ p3 = "B")%char
    /\ all_chars is_space w0 = true /\ all_chars is_space w1 = true
    /\ all_chars is_space w2 = true /\ all_chars is_space w3 = true
    /\ digits_ok (digits c1) = true /\ digits_ok (digits c2) = true
    /\ digits_ok (digits c3) = true
    /\ s = String p1 (String p2 (String p3
             ("(" ++ w0 ++ component_string c1 ++ "," ++ w1 ++ component_string c2
                  ++ "," ++ w2 ++ component_string c3 ++ w3 ++ ")"))).

(** One of the seventeen names of [STANDARD_COLORS], in that spelling. *)
Definition standard_name (s : string) : Prop :=
  exists hex : string, assoc s STANDARD_COLORS = Some hex.

(** A property name [STANDARD_COLORS] inherits. *)
Definition inherited_name (s : string) : Prop :=
  exists v : jsval, assoc s OBJECT_PROTOTYPE = Some v.

(** The strings of the three supported grammars. *)
Definition supported (s : string) : Prop :=
  standard_name s \/ hex_form s \/ exists c1 c2 c3, rgb_form s c1 c2 c3.

(** ** Notions used to state the further properties *)

(** A letter in lower case, and in upper case. *)
Definition to_lower (c : ascii) : ascii :=
  if (65 <=? code c) && (code c <=? 90)
  then ascii_of_N (N_of_ascii c + 32) else c.

Definition to_upper (c : ascii) : ascii :=
  if (97 <=? code c) && (code c <=? 122)
  then ascii_of_N (N_of_ascii c - 32) else c.

Fixpoint map_chars (f : ascii -> ascii) (s : string) : string :=
  match s with
  | EmptyString => EmptyString
  | String c s' => String (f c) (map_chars f s')
  end.

(** An array element or an object value that is a string or an [RGB],
    not a [ColorSpec]. *)
Definition is_raw (i : input) : bool :=
  match i with
  | ISpec _ => false
  | _ => true
  end.

(** What the earlier version returns for what the latest returns: the
    rgb and the distance are left out. *)
Definition forget (r : MatchResult) : Earlier.MatchResult :=
  match r with
  | Bare value => Earlier.Bare value
  | Match name value _ _ => Earlier.NameValue name value
  end.

(** An entry of the earlier version beside one of the latest: the same
    name (an empty one counting as none) and source, and the same rgb,
    not null. *)
Definition same_entry (e : Earlier.ColorSpec) (c : ColorSpec) : Prop :=
  truthy (Earlier.name e) = truthy (name c) /\ Earlier.source e = source c
  /\ Earlier.rgb e = Some (rgb c).

(** The states of the two search loops side by side: nothing selected in
    either, or entries that are the same at the same distance. *)
Definition same_state (se : option (Z * Earlier.ColorSpec)) (s : option (Z * ColorSpec))
  : Prop :=
  match se, s with
  | None, None => True
  | Some (de, e), Some (d, c) => de = d /\ same_entry e c
  | _, _ => False
  end.

(** The better of two states of the search loop, the first one on a
    tie. *)
Definition better (a b : option (Z * ColorSpec)) : option (Z * ColorSpec) :=
  match a, b with
  | Some (da, _), Some (db, _) => if db <? da then b else a
  | Some _, None => a
  | None, _ => b
  end.

(** * Properties *)

(** ** Generalities *)

Lemma bind_Return {A B : Type} (m : outcome A) (k : A -> outcome B) (b : B) :
  bind m k = Return b -> exists a, m = Return a /\ k a = Return b.
Proof.
  destruct m as [a | e]; simpl; intros H.
  - exists a; split; [reflexivity | exact H].
  - discriminate H.
Qed.

Lemma mapM_app {A B : Type} (f : A -> outcome B) (l1 l2 : list A) :
  mapM f (l1 ++ l2) = (b1 <- mapM f l1 ;; b2 <- mapM f l2 ;; Return (b1 ++ b2)%list).
Proof.
  induction l1 as [| a l1 IH]; simpl.
  - destruct (mapM f l2); reflexivity.
  - destruct (f a) as [b | e]; simpl; [| reflexivity].
    rewrite IH. destruct (mapM f l1) as [b1 | e]; simpl; [| reflexivity].
    destruct (mapM f l2); reflexivity.
Qed.

(** A value found in [STANDARD_COLORS] is parsed without a further
    nested call. *)
Lemma STANDARD_COLORS_get_flat (s : string) (v : jsval) :
  STANDARD_COLORS_get s = Some v ->
  forall n, parseColor_depth n v = parseColor_depth 0 v.
Proof.
  unfold STANDARD_COLORS_get, STANDARD_COLORS, OBJECT_PROTOTYPE, assoc.
  repeat match goal with
         | |- context [String.eqb s ?k] => destruct (String.eqb s k)
         end;
    intros H; inversion H; subst v; intros [| n]; reflexivity.
Qed.

(** One nested call is enough: a deeper call stack changes nothing, and
    the stack is never exhausted. *)
Lemma parseColor_depth_enough (n : nat) (source : jsval) :
  parseColor_depth (S n) source = parseColor source
  /\ parseColor source <> Throw RangeError.
Proof.
  unfold parseColor. destruct source as [s | o |]; simpl; try (split; [reflexivity | discriminate]).
  destruct (STANDARD_COLORS_get s) as [v |] eqn:Hget.
  - rewrite (STANDARD_COLORS_get_flat s v Hget n).
    split; [reflexivity |].
    revert Hget.
    unfold STANDARD_COLORS_get, STANDARD_COLORS, OBJECT_PROTOTYPE, assoc.
    repeat match goal with
           | |- context [String.eqb s ?k] => destruct (String.eqb s k)
           end;
      intros H; inversion H; subst v; vm_compute; discriminate.
  - split; [reflexivity |].
    destruct (hexMatch s) as [m |].
    + destruct (length m =? 3)%nat; discriminate.
    + destruct (rgbMatch s) as [[[c1 c2] c3] |]; discriminate.
Qed.

(** ** The arithmetic of the search *)
(** Below 2^53 nothing is rounded. *)
Lemma to_double_exact (z : Z) : Z.abs z < 9007199254740992 -> to_double z = Some z.
Proof.
  intros H. unfold to_double. change (2 ^ 53) with 9007199254740992.
  destruct (Z.ltb_spec (Z.abs z) 9007199254740992) as [_ | Hge]; [reflexivity | lia].
Qed.

(** Rounding keeps the sign, and rounds to zero nothing but zero. *)
Lemma to_double_sign (z d : Z) :
  to_double z = Some d ->
  (0 < z -> 0 < d) /\ (z < 0 -> d < 0) /\ (z = 0 -> d = 0).
Proof.
  unfold to_double. change (2 ^ 53) with 9007199254740992.
  destruct (Z.ltb_spec (Z.abs z) 9007199254740992) as [_ | Hge].
  - intros H. inversion H. subst d. lia.
  - set (a := Z.abs z) in *. set (ulp := 2 ^ (Z.log2 a - 52)).
    set (q := a / ulp). set (r := a mod ulp).
    set (q' := if (ulp <? 2 * r) || ((2 * r =? ulp) && Z.odd q) then q + 1 else q).
    assert (Hlog : 53 <= Z.log2 a).
    { change 53 with (Z.log2 9007199254740992). apply Z.log2_le_mono. exact Hge. }
    assert (Hulp : 0 < ulp) by (apply Z.pow_pos_nonneg; lia).
    assert (Hle : ulp <= a).
    { apply Z.le_trans with (2 ^ Z.log2 a).
      - apply Z.pow_le_mono_r; lia.
      - apply Z.log2_spec. lia. }
    assert (Hq : 1 <= q).
    { apply Z.div_le_lower_bound; [exact Hulp | lia]. }
    assert (Hq' : 1 <= q').
    { unfold q'. destruct ((ulp <? 2 * r) || ((2 * r =? ulp) && Z.odd q)); lia. }
    assert (Hm : 0 < q' * ulp) by (apply Z.mul_pos_pos; lia).
    destruct (2 ^ 1024 <=? q' * ulp); [discriminate |].
    intros H. inversion H. subst d. clear H.
    split; [| split].
    + intros Hz. rewrite (Z.sgn_pos z Hz). lia.
    + intros Hz. rewrite (Z.sgn_neg z Hz). lia.
    + intros Hz. subst z. unfold a in Hge. cbn in Hge. lia.
Qed.

(** A squared difference, when it is a number, is not negative, and is
    zero for equal channels only. *)
Lemma Math_pow_2_sign (x y s : Z) :
  Math_pow_2 x y = Num s -> 0 <= s /\ (x <> y -> 0 < s).
Proof.
  unfold Math_pow_2.
  destruct (to_double (x - y)) as [difference |] eqn:Hd; [| discriminate].
  destruct (to_double (difference * difference)) as [square |] eqn:Hs; [| discriminate].
  intros H. inversion H. subst s. clear H.
  destruct (to_double_sign _ _ Hd) as (Hpos & Hneg & _).
  destruct (to_double_sign _ _ Hs) as (Hspos & _ & Hszero).
  split.
  - destruct (Z.eq_dec (difference * difference) 0) as [H0 | H0]; [lia |].
    assert (0 < difference * difference) by nia. lia.
  - intros Hxy. apply Hspos.
    assert (difference <> 0) by (destruct (Z.lt_total (x - y) 0) as [H | [H | H]]; lia).
    nia.
Qed.

Lemma Math_pow_2_same (x : Z) : Math_pow_2 x x = Num 0.
Proof. unfold Math_pow_2. rewrite Z.sub_diag. reflexivity. Qed.

(** A sum of numbers that are not negative, when it is a number, is not
    negative, and positive if a summand is. *)
Lemma plus_sign (x y : number) (s : Z) :
  plus x y = Num s ->
  exists a b, x = Num a /\ y = Num b
              /\ (0 <= a -> 0 <= b -> 0 <= s /\ (0 < a \/ 0 < b -> 0 < s)).
Proof.
  destruct x as [| a |], y as [| b |]; cbn [plus]; try discriminate.
  destruct (to_double (a + b)) as [sum |] eqn:Hsum; [| discriminate].
  intros H. inversion H. subst s. clear H. exists a, b.
  split; [reflexivity |]. split; [reflexivity |]. intros Ha Hb.
  destruct (to_double_sign _ _ Hsum) as (Hpos & _ & Hzero).
  split.
  - destruct (Z.eq_dec (a + b) 0) as [H0 | H0]; [lia |].
    assert (0 < sum) by (apply Hpos; lia). lia.
  - intros H. apply Hpos. lia.
Qed.

(** A distance, when it is a number, is not negative, and zero for equal
    triples only. *)
Lemma distanceSq_sign (qr qg qb r g b d : Z) :
  distanceSq (Rgb qr qg qb) (Rgb r g b) = Num d ->
  0 <= d /\ (Rgb r g b <> Rgb qr qg qb -> 0 < d).
Proof.
  cbn [distanceSq]. intros H.
  apply plus_sign in H. destruct H as (s12 & s3 & H12 & H3 & Hsum).
  apply plus_sign in H12. destruct H12 as (s1 & s2 & H1 & H2 & Hsum12).
  apply Math_pow_2_sign in H1. apply Math_pow_2_sign in H2. apply Math_pow_2_sign in H3.
  destruct H1 as [P1 Q1], H2 as [P2 Q2], H3 as [P3 Q3].
  destruct (Hsum12 P1 P2) as [P12 Q12]. destruct (Hsum P12 P3) as [P Q].
  split; [exact P |]. intros Hne. apply Q.
  destruct (Z.eq_dec qr r) as [Er | Er]; [| left; apply Q12; left; apply Q1; exact Er].
  destruct (Z.eq_dec qg g) as [Eg | Eg]; [| left; apply Q12; right; apply Q2; exact Eg].
  destruct (Z.eq_dec qb b) as [Eb | Eb]; [| right; apply Q3; exact Eb].
  contradiction Hne. congruence.
Qed.

Lemma distanceSq_same (r g b : Z) : distanceSq (Rgb r g b) (Rgb r g b) = Num 0.
Proof. cbn [distanceSq]. rewrite !Math_pow_2_same. reflexivity. Qed.

Lemma distanceSq_nonneg (needle o : RGB) (d : Z) :
  distanceSq needle o = Num d -> 0 <= d.
Proof.
  destruct needle as [qr qg qb |], o as [r g b |]; try discriminate.
  intros H. exact (proj1 (distanceSq_sign _ _ _ _ _ _ _ H)).
Qed.

Lemma exact_channel_spec (z : Z) :
  exact_channel z = true <-> - 16777216 <= z <= 16777216.
Proof.
  unfold exact_channel. change (2 ^ 24) with 16777216.
  rewrite andb_true_iff, !Z.leb_le. reflexivity.
Qed.

Lemma Math_pow_2_exact (x y : Z) :
  exact_channel x = true -> exact_channel y = true ->
  Math_pow_2 x y = Num ((x - y) ^ 2) /\ 0 <= (x - y) ^ 2 <= 1125899906842624.
Proof.
  rewrite !exact_channel_spec. intros Hx Hy. rewrite Z.pow_2_r.
  assert (Hb : 0 <= (x - y) * (x - y) <= 1125899906842624).
  { split; [apply Z.square_nonneg |].
    rewrite <- Z.abs_square. change 1125899906842624 with (33554432 * 33554432).
    apply Z.mul_le_mono_nonneg; lia. }
  split; [| exact Hb].
  unfold Math_pow_2. rewrite to_double_exact by lia.
  rewrite to_double_exact by lia. reflexivity.
Qed.

(** On channels of at most 2^24 in absolute value the distance is the sum
    of the three squared differences. *)
Lemma distanceSq_exact (qr qg qb r g b : Z) :
  exact_channels (Rgb qr qg qb) = true -> exact_channels (Rgb r g b) = true ->
  distanceSq (Rgb qr qg qb) (Rgb r g b)
  = Num ((qr - r) ^ 2 + (qg - g) ^ 2 + (qb - b) ^ 2).
Proof.
  cbn [exact_channels]. rewrite !andb_true_iff.
  intros [[Hqr Hqg] Hqb] [[Hr Hg] Hb]. cbn [distanceSq].
  destruct (Math_pow_2_exact qr r Hqr Hr) as [-> B1].
  destruct (Math_pow_2_exact qg g Hqg Hg) as [-> B2].
  destruct (Math_pow_2_exact qb b Hqb Hb) as [-> B3].
  cbn [plus]. rewrite to_double_exact by lia. cbn [plus].
  rewrite to_double_exact by lia. reflexivity.
Qed.

(** A distance is a number or not. *)
Lemma number_cases (x : number) : (exists d, x = Num d) \/ (forall d, x <> Num d).
Proof.
  destruct x as [| d |]; [right; discriminate | left; exists d; reflexivity
                          | right; discriminate].
Qed.

(** ** The search loop *)

Lemma scan_snoc (needle : RGB) (colors : list ColorSpec) (color : ColorSpec) :
  scan needle (colors ++ [color]) = scan_step needle (scan needle colors) color.
Proof. unfold scan. rewrite fold_left_app. reflexivity. Qed.

Lemma nth_error_snoc {A : Type} (l : list A) (x c : A) (j : nat) :
  nth_error (l ++ [x]) j = Some c ->
  ((j < List.length l)%nat /\ nth_error l j = Some c) \/ (j = List.length l /\ c = x).
Proof.
  intros H. destruct (Nat.lt_ge_cases j (List.length l)) as [Hj | Hj].
  - left. rewrite nth_error_app1 in H by exact Hj. split; assumption.
  - right. rewrite nth_error_app2 in H by exact Hj.
    destruct (j - List.length l)%nat as [| k] eqn:Hk; simpl in H.
    + inversion H. split; [lia | reflexivity].
    + destruct k; discriminate H.
Qed.

(** A turn of the loop at an entry whose distance is a number, and at one
    whose distance is NaN or [Infinity]. *)
Lemma scan_step_number (needle : RGB) (st : option (Z * ColorSpec)) (color : ColorSpec)
    (d : Z) :
  distanceSq needle (rgb color) = Num d ->
  scan_step needle st color
  = match st with
    | None => Some (d, color)
    | Some (minDistanceSq, _) => if d <? minDistanceSq then Some (d, color) else st
    end.
Proof. unfold scan_step. intros ->. reflexivity. Qed.

Lemma scan_step_no_number (needle : RGB) (st : option (Z * ColorSpec)) (color : ColorSpec) :
  (forall d, distanceSq needle (rgb color) <> Num d) ->
  scan_step needle st color = st.
Proof.
  unfold scan_step. intros H.
  destruct (distanceSq needle (rgb color)) as [| d |]; try reflexivity.
  contradiction (H d). reflexivity.
Qed.

(** The loop invariant, at the end of the loop: nothing is selected only
    if no distance is a number; otherwise the selected entry is the first
    of those at the least distance. *)
Lemma scan_spec (needle : RGB) (colors : list ColorSpec) :
  match scan needle colors with
  | None => forall c, In c colors -> forall d, distanceSq needle (rgb c) <> Num d
  | Some (m, value) =>
      exists i,
        nth_error colors i = Some value /\
        distanceSq needle (rgb value) = Num m /\
        (forall j c d, nth_error colors j = Some c ->
                       distanceSq needle (rgb c) = Num d -> m <= d) /\
        (forall j c d, (j < i)%nat -> nth_error colors j = Some c ->
                       distanceSq needle (rgb c) = Num d -> m < d)
  end.
Proof.
  induction colors as [| color colors IH] using rev_ind.
  - simpl. intros c [].
  - rewrite scan_snoc.
    assert (Hlast : nth_error (colors ++ [color]) (List.length colors) = Some color)
      by (rewrite nth_error_app2, Nat.sub_diag by lia; reflexivity).
    destruct (number_cases (distanceSq needle (rgb color))) as [[d Hd] | Hd];
      [rewrite (scan_step_number _ _ _ d Hd) | rewrite (scan_step_no_number _ _ _ Hd)];
      destruct (scan needle colors) as [[m value] |].
    + (* a number, and an entry selected before *)
      destruct IH as (i & Hi & Hm & Hle & Hlt).
      assert (Hlen : (i < List.length colors)%nat)
        by (apply nth_error_Some; rewrite Hi; discriminate).
      destruct (Z.ltb_spec d m) as [Hdm | Hdm].
      * exists (List.length colors).
        split; [exact Hlast |]. split; [exact Hd |]. split.
        -- intros j c dj Hj Hc. apply nth_error_snoc in Hj.
           destruct Hj as [[_ Hj] | [_ ->]].
           ++ specialize (Hle j c dj Hj Hc). lia.
           ++ rewrite Hd in Hc. inversion Hc. lia.
        -- intros j c dj Hjl Hj Hc. apply nth_error_snoc in Hj.
           destruct Hj as [[_ Hj] | [-> _]]; [| lia].
           specialize (Hle j c dj Hj Hc). lia.
      * exists i.
        split; [rewrite nth_error_app1 by exact Hlen; exact Hi |].
        split; [exact Hm |]. split.
        -- intros j c dj Hj Hc. apply nth_error_snoc in Hj.
           destruct Hj as [[_ Hj] | [_ ->]].
           ++ exact (Hle j c dj Hj Hc).
           ++ rewrite Hd in Hc. inversion Hc. lia.
        -- intros j c dj Hji Hj Hc. apply nth_error_snoc in Hj.
           destruct Hj as [[_ Hj] | [-> _]]; [| lia].
           exact (Hlt j c dj Hji Hj Hc).
    + (* a number, and nothing selected before *)
      exists (List.length colors).
      split; [exact Hlast |]. split; [exact Hd |]. split.
      * intros j c dj Hj Hc. apply nth_error_snoc in Hj.
        destruct Hj as [[_ Hj] | [_ ->]].
        -- apply nth_error_In in Hj. contradiction (IH c Hj dj).
        -- rewrite Hd in Hc. inversion Hc. lia.
      * intros j c dj Hjl Hj Hc. apply nth_error_snoc in Hj.
        destruct Hj as [[_ Hj] | [-> _]]; [| lia].
        apply nth_error_In in Hj. contradiction (IH c Hj dj).
    + (* no number, and an entry selected before *)
      destruct IH as (i & Hi & Hm & Hle & Hlt).
      assert (Hlen : (i < List.length colors)%nat)
        by (apply nth_error_Some; rewrite Hi; discriminate).
      exists i.
      split; [rewrite nth_error_app1 by exact Hlen; exact Hi |].
      split; [exact Hm |]. split.
      * intros j c dj Hj Hc. apply nth_error_snoc in Hj.
        destruct Hj as [[_ Hj] | [_ ->]].
        -- exact (Hle j c dj Hj Hc).
        -- contradiction (Hd dj).
      * intros j c dj Hji Hj Hc. apply nth_error_snoc in Hj.
        destruct Hj as [[_ Hj] | [-> _]]; [| lia].
        exact (Hlt j c dj Hji Hj Hc).
    + (* no number, and nothing selected before *)
      intros c Hc. apply in_app_or in Hc. destruct Hc as [Hc | [<- | []]].
      * exact (IH c Hc).
      * exact Hd.
Qed.

Lemma sqrt_IZR_square (k : Z) : 0 <= k -> sqrt (IZR (k * k)) = IZR k.
Proof.
  intros Hk. rewrite mult_IZR. apply sqrt_square. apply IZR_le. exact Hk.
Qed.

Lemma nearestColor_eval (needle : jsval) (q : RGB) (colors : list ColorSpec)
    (d : Z) (value : ColorSpec) :
  parseColor needle = Return q -> scan q colors = Some (d, value) ->
  nearestColor needle (Some colors) = Return (result value d).
Proof. unfold nearestColor. intros -> Hscan. cbn [bind]. rewrite Hscan. reflexivity. Qed.

(** Over a palette of triples with channels of at most 2^24 in absolute
    value, and for such a query, the loop selects an entry as soon as the
    palette is not empty. *)
Lemma scan_exact_Some (qr qg qb : Z) (colors : list ColorSpec) :
  exact_channels (Rgb qr qg qb) = true ->
  colors <> [] ->
  Forall (fun c => is_triple (rgb c) && exact_channels (rgb c) = true) colors ->
  exists d value, scan (Rgb qr qg qb) colors = Some (d, value).
Proof.
  intros Hq Hne Hcolors.
  pose proof (scan_spec (Rgb qr qg qb) colors) as Hspec.
  destruct (scan (Rgb qr qg qb) colors) as [[d value] |]; [exists d, value; reflexivity |].
  destruct colors as [| c colors]; [contradiction Hne; reflexivity |].
  inversion Hcolors as [| c' l' Hc _]; subst.
  apply andb_true_iff in Hc. destruct Hc as [Ht He].
  destruct (rgb c) as [r g b |] eqn:Hrgb; [| discriminate Ht].
  contradiction (Hspec c (or_introl eq_refl) ((qr - r) ^ 2 + (qg - g) ^ 2 + (qb - b) ^ 2)).
  rewrite Hrgb. exact (distanceSq_exact qr qg qb r g b Hq He).
Qed.

(** Over such channels the selected entry is the first of those at the
    least sum of squared differences. *)
Lemma scan_exact_spec (qr qg qb : Z) (colors : list ColorSpec) (d : Z)
    (value : ColorSpec) :
  exact_channels (Rgb qr qg qb) = true ->
  Forall (fun c => exact_channels (rgb c) = true) colors ->
  scan (Rgb qr qg qb) colors = Some (d, value) ->
  exists (i : nat) (r g b : Z),
    nth_error colors i = Some value /\
    rgb value = Rgb r g b /\
    d = (qr - r) ^ 2 + (qg - g) ^ 2 + (qb - b) ^ 2 /\
    (forall j c r' g' b',
        nth_error colors j = Some c -> rgb c = Rgb r' g' b' ->
        d <= (qr - r') ^ 2 + (qg - g') ^ 2 + (qb - b') ^ 2) /\
    (forall j c r' g' b',
        (j < i)%nat -> nth_error colors j = Some c -> rgb c = Rgb r' g' b' ->
        d < (qr - r') ^ 2 + (qg - g') ^ 2 + (qb - b') ^ 2).
Proof.
  intros Hq Hcolors Hscan. rewrite Forall_forall in Hcolors.
  pose proof (scan_spec (Rgb qr qg qb) colors) as Hspec. rewrite Hscan in Hspec.
  destruct Hspec as (i & Hi & Hm & Hle & Hlt).
  assert (Hexact : forall c r' g' b',
             In c colors -> rgb c = Rgb r' g' b' ->
             distanceSq (Rgb qr qg qb) (rgb c)
             = Num ((qr - r') ^ 2 + (qg - g') ^ 2 + (qb - b') ^ 2)).
  { intros c r' g' b' Hc Hrgb. pose proof (Hcolors c Hc) as He.
    rewrite Hrgb in *. exact (distanceSq_exact qr qg qb r' g' b' Hq He). }
  destruct (rgb value) as [r g b |] eqn:Hrgb; [| discriminate Hm].
  pose proof (Hexact value r g b (nth_error_In _ _ Hi) Hrgb) as Hm'.
  rewrite Hrgb, Hm in Hm'. injection Hm' as Hm'.
  exists i, r, g, b.
  split; [exact Hi |]. split; [reflexivity |]. split; [exact Hm' |]. split.
  - intros j c r' g' b' Hj Hc.
    apply (Hle j c); [exact Hj |]. exact (Hexact c r' g' b' (nth_error_In _ _ Hj) Hc).
  - intros j c r' g' b' Hji Hj Hc.
    apply (Hlt j c); [exact Hji | exact Hj |].
    exact (Hexact c r' g' b' (nth_error_In _ _ Hj) Hc).
Qed.

(** ** C1: the search returns the first entry at the least distance *)

(** C1. For a query, an RGB triple or a string, that parses to the
    triple (qr, qg, qb), and a non-empty palette whose entries hold RGB
    triples, all channels being at most 2^24 in absolute value (as are
    those of every RGB of the description, from 0 to 255, and of every
    colour a string parses to), [nearestColor] answers from one entry of
    the palette, at index [i]: its squared distance
    [(qr-r)^2 + (qg-g)^2 + (qb-b)^2] to the query is at most that of
    every entry, and strictly less than that of every entry before index
    [i], so among the entries at the least distance the first in palette
    order is returned. *)
Theorem nearestColor_first_minimum :
  forall (needle : jsval) (qr qg qb : Z) (colors : list ColorSpec),
    parseColor needle = Return (Rgb qr qg qb) ->
    exact_channels (Rgb qr qg qb) = true ->
    colors <> [] ->
    Forall (fun c => is_triple (rgb c) && exact_channels (rgb c) = true) colors ->
    exists (i : nat) (value : ColorSpec) (r g b : Z),
      nth_error colors i = Some value /\
      rgb value = Rgb r g b /\
      nearestColor needle (Some colors)
      = Return (result value ((qr - r) ^ 2 + (qg - g) ^ 2 + (qb - b) ^ 2)) /\
      (forall j c r' g' b',
          nth_error colors j = Some c -> rgb c = Rgb r' g' b' ->
          (qr - r) ^ 2 + (qg - g) ^ 2 + (qb - b) ^ 2
          <= (qr - r') ^ 2 + (qg - g') ^ 2 + (qb - b') ^ 2) /\
      (forall j c r' g' b',
          (j < i)%nat -> nth_error colors j = Some c -> rgb c = Rgb r' g' b' ->
          (qr - r) ^ 2 + (qg - g) ^ 2 + (qb - b) ^ 2
          < (qr - r') ^ 2 + (qg - g') ^ 2 + (qb - b') ^ 2).
Proof.
  intros needle qr qg qb colors Hparse Hq Hne Hcolors.
  destruct (scan_exact_Some qr qg qb colors Hq Hne Hcolors) as (m & value & Hscan).
  assert (Hexact : Forall (fun c => exact_channels (rgb c) = true) colors).
  { eapply Forall_impl; [| exact Hcolors].
    intros c Hc. apply andb_true_iff in Hc. exact (proj2 Hc). }
  destruct (scan_exact_spec qr qg qb colors m value Hq Hexact Hscan)
    as (i & r & g & b & Hi & Hrgb & -> & Hle & Hlt).
  exists i, value, r, g, b.
  split; [exact Hi |]. split; [exact Hrgb |].
  split; [exact (nearestColor_eval needle _ colors _ value Hparse Hscan) |].
  split; [exact Hle | exact Hlt].
Qed.

Lemma nearestColor_first_minimum_witness :
  let A := {| name := None; source := "#000"; rgb := Rgb 0 0 0 |} in
  let B := {| name := None; source := "#000000"; rgb := Rgb 0 0 0 |} in
  exists (i : nat) (value : ColorSpec) (r g b : Z),
    nth_error [A; B] i = Some value /\
    rgb value = Rgb r g b /\
    nearestColor (VString "black") (Some [A; B])
    = Return (result value ((0 - r) ^ 2 + (0 - g) ^ 2 + (0 - b) ^ 2)) /\
    (forall j c r' g' b',
        nth_error [A; B] j = Some c -> rgb c = Rgb r' g' b' ->
        (0 - r) ^ 2 + (0 - g) ^ 2 + (0 - b) ^ 2
        <= (0 - r') ^ 2 + (0 - g') ^ 2 + (0 - b') ^ 2) /\
    (forall j c r' g' b',
        (j < i)%nat -> nth_error [A; B] j = Some c -> rgb c = Rgb r' g' b' ->
        (0 - r) ^ 2 + (0 - g) ^ 2 + (0 - b) ^ 2
        < (0 - r') ^ 2 + (0 - g') ^ 2 + (0 - b') ^ 2).
Proof.
  intros A B.
  apply (nearestColor_first_minimum (VString "black") 0 0 0 [A; B]).
  - reflexivity.
  - reflexivity.
  - discriminate.
  - repeat constructor.
Defined.

(** Of two entries with the same coordinates the first is returned. *)
Example nearestColor_duplicate_coordinates :
  nearestColor (VObject (Rgb 0 0 0))
    (Some [ {| name := None; source := "#000"; rgb := Rgb 0 0 0 |};
            {| name := None; source := "#000000"; rgb := Rgb 0 0 0 |} ])
  = Return (Bare "#000").
Proof. reflexivity. Qed.

(** The examples of the source's documentation, on the default palette. *)
Example nearestColor_default_palette :
  nearestColor (VObject (Rgb 200 50 50)) None = Return (Bare "#f00") /\
  nearestColor (VString "#f11") None = Return (Bare "#f00") /\
  nearestColor (VString "#f88") None = Return (Bare "#f80") /\
  nearestColor (VString "#ffe") None = Return (Bare "#ff0") /\
  nearestColor (VString "#efe") None = Return (Bare "#ff0") /\
  nearestColor (VString "#abc") None = Return (Bare "#808") /\
  nearestColor (VString "red") None = Return (Bare "#f00") /\
  nearestColor (VString "foo") None = Throw (InvalidColor "foo").
Proof. repeat split; reflexivity. Qed.

(** Beyond 2^53 the doubles are too coarse to tell distances apart, and
    beyond their range every distance is [Infinity]: between two entries
    the farther one is returned when it comes first, and with a query out
    of range no entry is selected, so that reading [value.name] throws. *)
Example nearestColor_beyond_exact_arithmetic :
  nearestColor (VObject (Rgb (2 ^ 27 + 1) 0 0))
    (Some [ {| name := None; source := "#000100"; rgb := Rgb 0 1 0 |};
            {| name := None; source := "#000"; rgb := Rgb 0 0 0 |} ])
  = Return (Bare "#000100")
  /\ nearestColor (VObject (Rgb (2 ^ 600) 0 0)) None
     = Throw (TypeError (ReadOfUndefined "name")).
Proof. split; vm_compute; reflexivity. Qed.

(** ** C2: a named entry gives a ColorMatch, an unnamed one its source *)

(** C2. For a query that parses to the triple (qr, qg, qb) and a non-empty
    palette whose entries hold RGB triples, all channels being at most
    2^24 in absolute value, the winning entry [value] is the first of
    those at the least squared distance [d] from the query, and: if
    [value] has a name (the empty string is no name: [createColorSpec]
    never stores it), [nearestColor] returns the record made of that name,
    the entry's source, its rgb and the square root of [d]; if it has
    none, [nearestColor] returns the entry's source alone.  With the
    palette [{maroon: '#800', yellow: '#ffe'}] the query ['#f00'] gives
    name maroon, value #800 and distance 119. *)
Theorem nearestColor_named_or_bare :
  (forall (needle : jsval) (qr qg qb : Z) (colors : list ColorSpec),
      parseColor needle = Return (Rgb qr qg qb) ->
      exact_channels (Rgb qr qg qb) = true ->
      colors <> [] ->
      Forall (fun c => is_triple (rgb c) && exact_channels (rgb c) = true) colors ->
      exists (i : nat) (value : ColorSpec) (r g b : Z),
        nth_error colors i = Some value /\
        rgb value = Rgb r g b /\
        (forall c r' g' b',
            In c colors -> rgb c = Rgb r' g' b' ->
            (qr - r) ^ 2 + (qg - g) ^ 2 + (qb - b) ^ 2
            <= (qr - r') ^ 2 + (qg - g') ^ 2 + (qb - b') ^ 2) /\
        (forall j c r' g' b',
            (j < i)%nat -> nth_error colors j = Some c -> rgb c = Rgb r' g' b' ->
            (qr - r) ^ 2 + (qg - g) ^ 2 + (qb - b) ^ 2
            < (qr - r') ^ 2 + (qg - g') ^ 2 + (qb - b') ^ 2) /\
        (forall n, name value = Some n -> n <> "" ->
           nearestColor needle (Some colors)
           = Return (Match n (source value) (Rgb r g b)
                       (sqrt (IZR ((qr - r) ^ 2 + (qg - g) ^ 2 + (qb - b) ^ 2))))) /\
        (name value = None \/ name value = Some "" ->
           nearestColor needle (Some colors) = Return (Bare (source value))))
  /\ (m <- from (Object [("maroon", IString "#800"); ("yellow", IString "#ffe")]) ;;
      call m (VString "#f00"))
     = Return (Match "maroon" "#800" (Rgb 136 0 0) (IZR 119)).
Proof.
  split.
  - intros needle qr qg qb colors Hparse Hq Hne Hcolors.
    destruct (scan_exact_Some qr qg qb colors Hq Hne Hcolors) as (m & value & Hscan).
    assert (Hexact : Forall (fun c => exact_channels (rgb c) = true) colors).
    { eapply Forall_impl; [| exact Hcolors].
      intros c Hc. apply andb_true_iff in Hc. exact (proj2 Hc). }
    destruct (scan_exact_spec qr qg qb colors m value Hq Hexact Hscan)
      as (i & r & g & b & Hi & Hrgb & -> & Hle & Hlt).
    exists i, value, r, g, b.
    split; [exact Hi |]. split; [exact Hrgb |]. split; [| split; [exact Hlt |]].
    + intros c r' g' b' Hc Hrgb'. apply In_nth_error in Hc. destruct Hc as [j Hj].
      exact (Hle j c r' g' b' Hj Hrgb').
    + rewrite (nearestColor_eval needle _ colors _ value Hparse Hscan).
      unfold result. rewrite Hrgb. split.
      * intros n Hn Hnonempty. rewrite Hn.
        destruct n as [| a n]; [contradiction Hnonempty; reflexivity | reflexivity].
      * intros [Hn | Hn]; rewrite Hn; reflexivity.
  - assert (Hfrom : from (Object [("maroon", IString "#800"); ("yellow", IString "#ffe")])
                    = Return {| captured :=
                        [ {| name := Some "maroon"; source := "#800"; rgb := Rgb 136 0 0 |};
                          {| name := Some "yellow"; source := "#ffe";
                             rgb := Rgb 255 255 238 |} ] |})
      by reflexivity.
    rewrite Hfrom. cbn [bind]. unfold call. cbn [captured].
    rewrite (nearestColor_eval _ (Rgb 255 0 0) _ (119 * 119)
               {| name := Some "maroon"; source := "#800"; rgb := Rgb 136 0 0 |})
      by reflexivity.
    unfold result. cbn [truthy name source rgb].
    rewrite sqrt_IZR_square by lia. reflexivity.
Qed.

Lemma nearestColor_named_or_bare_witness :
  let maroon := {| name := Some "maroon"; source := "#800"; rgb := Rgb 136 0 0 |} in
  let yellow := {| name := Some "yellow"; source := "#ffe"; rgb := Rgb 255 255 238 |} in
  exists (i : nat) (value : ColorSpec) (r g b : Z),
    nth_error [maroon; yellow] i = Some value /\
    rgb value = Rgb r g b /\
    (forall c r' g' b',
        In c [maroon; yellow] -> rgb c = Rgb r' g' b' ->
        (255 - r) ^ 2 + (0 - g) ^ 2 + (0 - b) ^ 2
        <= (255 - r') ^ 2 + (0 - g') ^ 2 + (0 - b') ^ 2) /\
    (forall j c r' g' b',
        (j < i)%nat -> nth_error [maroon; yellow] j = Some c -> rgb c = Rgb r' g' b' ->
        (255 - r) ^ 2 + (0 - g) ^ 2 + (0 - b) ^ 2
        < (255 - r') ^ 2 + (0 - g') ^ 2 + (0 - b') ^ 2) /\
    (forall n, name value = Some n -> n <> "" ->
       nearestColor (VString "#f00") (Some [maroon; yellow])
       = Return (Match n (source value) (Rgb r g b)
                   (sqrt (IZR ((255 - r) ^ 2 + (0 - g) ^ 2 + (0 - b) ^ 2))))) /\
    (name value = None \/ name value = Some "" ->
       nearestColor (VString "#f00") (Some [maroon; yellow])
       = Return (Bare (source value))).
Proof.
  intros maroon yellow.
  apply (proj1 nearestColor_named_or_bare (VString "#f00") 255 0 0 [maroon; yellow]).
  - reflexivity.
  - reflexivity.
  - discriminate.
  - repeat constructor.
Defined.

(** ** C6: an empty palette *)

(** C6. Over an empty array of colours the search returns no result: for
    a query that is an object, and for a string query that parses, the
    loop selects nothing and reading [value.name] throws; a string query
    that does not parse has thrown before.  The same holds for the matcher
    made from an empty array or an empty object. *)
Theorem nearestColor_empty_palette :
  (forall q : RGB,
      nearestColor (VObject q) (Some []) = Throw (TypeError (ReadOfUndefined "name")))
  /\ (forall needle : jsval,
      nearestColor needle (Some [])
      = (q <- parseColor needle ;; Throw (TypeError (ReadOfUndefined "name"))))
  /\ (forall (needle : jsval) (res : MatchResult),
      nearestColor needle (Some []) <> Return res)
  /\ from (Array []) = Return {| captured := [] |}
  /\ from (Object []) = Return {| captured := [] |}
  /\ (forall (needle : jsval) (res : MatchResult),
      call {| captured := [] |} needle <> Return res).
Proof.
  assert (H : forall needle : jsval,
             nearestColor needle (Some [])
             = (q <- parseColor needle ;; Throw (TypeError (ReadOfUndefined "name")))).
  { intros needle. unfold nearestColor. destruct (parseColor needle); reflexivity. }
  assert (H' : forall (needle : jsval) (res : MatchResult),
             nearestColor needle (Some []) <> Return res).
  { intros needle res. rewrite H. destruct (parseColor needle); discriminate. }
  split; [intros q; reflexivity |].
  split; [exact H |].
  split; [exact H' |].
  split; [reflexivity |].
  split; [reflexivity |].
  intros needle res. unfold call. cbn [captured]. apply H'.
Qed.

(** ** Hexadecimal strings *)

Lemma assoc_None {A : Type} (key : string) (props : list (string * A)) :
  Forall (fun kv => key <> fst kv) props -> assoc key props = None.
Proof.
  induction 1 as [| [k v] props Hk _ IH]; simpl.
  - reflexivity.
  - destruct (String.eqb_spec key k) as [Heq | _]; [contradiction (Hk Heq) | exact IH].
Qed.

(** No property name of [STANDARD_COLORS], own or inherited, satisfies
    [p], when [p] holds of no name in the two lists. *)
Lemma STANDARD_COLORS_get_None (p : string -> bool) (s : string) :
  forallb (fun kv => negb (p (fst kv))) STANDARD_COLORS = true ->
  forallb (fun kv => negb (p (fst kv))) OBJECT_PROTOTYPE = true ->
  p s = true ->
  STANDARD_COLORS_get s = None.
Proof.
  intros Hown Hproto Hs. unfold STANDARD_COLORS_get.
  assert (Hne : forall (A : Type) (props : list (string * A)),
             forallb (fun kv => negb (p (fst kv))) props = true ->
             Forall (fun kv => s <> fst kv) props).
  { intros A props H. rewrite forallb_forall in H. apply Forall_forall.
    intros kv Hin Heq. specialize (H kv Hin). rewrite <- Heq, Hs in H. discriminate H. }
  rewrite (assoc_None s STANDARD_COLORS (Hne _ _ Hown)).
  exact (assoc_None s OBJECT_PROTOTYPE (Hne _ _ Hproto)).
Qed.

(** No property name is made of hexadecimal digits only. *)
Lemma STANDARD_COLORS_get_hex (s : string) :
  all_chars is_hex_digit s = true -> STANDARD_COLORS_get s = None.
Proof. apply STANDARD_COLORS_get_None; reflexivity. Qed.

(** No property name starts with [#]. *)
Lemma STANDARD_COLORS_get_hash (s : string) :
  STANDARD_COLORS_get (String "#" s) = None.
Proof.
  apply (STANDARD_COLORS_get_None
           (fun k => match k with String c _ => Ascii.eqb c "#" | EmptyString => false end));
    reflexivity.
Qed.

Lemma hex_digit_not_hash (c : ascii) : is_hex_digit c = true -> Ascii.eqb c "#" = false.
Proof.
  intros H. destruct (Ascii.eqb_spec c "#") as [-> | _]; [discriminate H | reflexivity].
Qed.

Lemma parseInt16_pair (x y : ascii) :
  is_hex_digit x = true -> is_hex_digit y = true ->
  parseInt16 (String x (String y "")) = 16 * hex_value x + hex_value y.
Proof.
  intros Hx Hy. unfold parseInt16. cbn [hex_digits_value]. rewrite Hx, Hy. lia.
Qed.

Lemma hex_value_range (c : ascii) : is_hex_digit c = true -> 0 <= hex_value c <= 15.
Proof.
  unfold is_hex_digit, hex_value, is_digit. intros H.
  destruct (48 <=? code c) eqn:H1, (code c <=? 57) eqn:H2,
           (97 <=? code c) eqn:H3, (code c <=? 102) eqn:H4,
           (65 <=? code c) eqn:H5, (code c <=? 70) eqn:H6;
    simpl in *; try discriminate H; lia.
Qed.

(** The hex pattern accepts three or six hexadecimal digits, with or
    without [#], and captures the digits. *)
Lemma hexMatch_digits (body : string) (hash : bool) :
  all_chars is_hex_digit body = true ->
  ((length body =? 3)%nat || (length body =? 6)%nat) = true ->
  hexMatch ((if hash then "#" else "") ++ body) = Some body.
Proof.
  intros Hall Hlen. unfold hexMatch. destruct hash; cbn [append].
  - cbn [Ascii.eqb Bool.eqb]. rewrite Hall, Hlen. reflexivity.
  - destruct body as [| x body']; [discriminate Hlen |].
    pose proof Hall as Hx. cbn [all_chars] in Hx. apply andb_true_iff in Hx.
    rewrite (hex_digit_not_hash x (proj1 Hx)), Hall, Hlen. reflexivity.
Qed.

(** [parseColor] on three hexadecimal digits, with or without [#]. *)
Lemma parseColor_hex3 (a b c : ascii) (hash : bool) :
  is_hex_digit a = true -> is_hex_digit b = true -> is_hex_digit c = true ->
  parseColor (VString ((if hash then "#" else "") ++ String a (String b (String c ""))))
  = Return (Rgb (17 * hex_value a) (17 * hex_value b) (17 * hex_value c)).
Proof.
  intros Ha Hb Hc. unfold parseColor, parseColor_depth.
  assert (Hget : STANDARD_COLORS_get
                   ((if hash then "#" else "") ++ String a (String b (String c ""))) = None).
  { destruct hash; [apply STANDARD_COLORS_get_hash |].
    apply STANDARD_COLORS_get_hex. cbn [append all_chars]. rewrite Ha, Hb, Hc. reflexivity. }
  rewrite Hget.
  rewrite hexMatch_digits
    by (cbn [all_chars]; rewrite ?Ha, ?Hb, ?Hc; reflexivity).
  cbn [length Nat.eqb charAt substring append].
  rewrite !parseInt16_pair by assumption.
  f_equal. f_equal; lia.
Qed.

(** [parseColor] on six hexadecimal digits, with or without [#]. *)
Lemma parseColor_hex6 (a a' b b' c c' : ascii) (hash : bool) :
  is_hex_digit a = true -> is_hex_digit a' = true ->
  is_hex_digit b = true -> is_hex_digit b' = true ->
  is_hex_digit c = true -> is_hex_digit c' = true ->
  parseColor (VString ((if hash then "#" else "")
                       ++ String a (String a' (String b (String b' (String c (String c' "")))))))
  = Return (Rgb (parseInt16 (String a (String a' "")))
                (parseInt16 (String b (String b' "")))
                (parseInt16 (String c (String c' "")))).
Proof.
  intros Ha Ha' Hb Hb' Hc Hc'. unfold parseColor, parseColor_depth.
  set (body := String a (String a' (String b (String b' (String c (String c' "")))))).
  assert (Hall : all_chars is_hex_digit body = true).
  { unfold body. cbn [all_chars]. rewrite Ha, Ha', Hb, Hb', Hc, Hc'. reflexivity. }
  assert (Hget : STANDARD_COLORS_get ((if hash then "#" else "") ++ body) = None).
  { destruct hash; [apply STANDARD_COLORS_get_hash |].
    apply STANDARD_COLORS_get_hex. exact Hall. }
  rewrite Hget.
  rewrite (hexMatch_digits body hash Hall eq_refl). reflexivity.
Qed.

(** ** C3: three hexadecimal digits stand for the six with each doubled *)

(** C3. For hexadecimal digits [a], [b], [c] (in either case) the parser
    accepts [abc] and [#abc], and gives for both the triple it gives for
    [#aabbcc] and for [aabbcc]: each channel is its digit doubled, 17 times
    the digit's value, a number from 0 to 255. *)
Theorem parseColor_three_digits_doubled :
  forall a b c : ascii,
    is_hex_digit a = true -> is_hex_digit b = true -> is_hex_digit c = true ->
    parseColor (VString (String "#" (String a (String b (String c "")))))
    = Return (Rgb (17 * hex_value a) (17 * hex_value b) (17 * hex_value c))
    /\ parseColor (VString (String a (String b (String c ""))))
       = parseColor (VString (String "#" (String a (String b (String c "")))))
    /\ parseColor (VString (String "#" (String a (String b (String c "")))))
       = parseColor (VString (String "#"
           (String a (String a (String b (String b (String c (String c ""))))))))
    /\ parseColor (VString (String a (String a (String b (String b (String c (String c "")))))))
       = parseColor (VString (String "#"
           (String a (String a (String b (String b (String c (String c ""))))))))
    /\ 0 <= 17 * hex_value a <= 255
    /\ 0 <= 17 * hex_value b <= 255
    /\ 0 <= 17 * hex_value c <= 255.
Proof.
  intros a b c Ha Hb Hc.
  pose proof (parseColor_hex3 a b c true Ha Hb Hc) as H3.
  pose proof (parseColor_hex3 a b c false Ha Hb Hc) as H3'.
  pose proof (parseColor_hex6 a a b b c c true Ha Ha Hb Hb Hc Hc) as H6.
  pose proof (parseColor_hex6 a a b b c c false Ha Ha Hb Hb Hc Hc) as H6'.
  cbn [append] in H3, H3', H6, H6'.
  rewrite H3, H3', H6, H6'.
  rewrite !parseInt16_pair by assumption.
  pose proof (hex_value_range a Ha). pose proof (hex_value_range b Hb).
  pose proof (hex_value_range c Hc).
  assert (Heq : Rgb (17 * hex_value a) (17 * hex_value b) (17 * hex_value c)
                = Rgb (16 * hex_value a + hex_value a) (16 * hex_value b + hex_value b)
                      (16 * hex_value c + hex_value c))
    by (f_equal; lia).
  split; [reflexivity |]. split; [reflexivity |].
  split; [rewrite Heq; reflexivity |]. split; [reflexivity |].
  lia.
Qed.

Lemma parseColor_three_digits_doubled_witness :
  parseColor (VString "#Abc") = Return (Rgb (17 * hex_value "A") (17 * hex_value "b")
                                            (17 * hex_value "c"))
  /\ parseColor (VString "Abc") = parseColor (VString "#Abc")
  /\ parseColor (VString "#Abc") = parseColor (VString "#AAbbcc")
  /\ parseColor (VString "AAbbcc") = parseColor (VString "#AAbbcc")
  /\ 0 <= 17 * hex_value "A" <= 255
  /\ 0 <= 17 * hex_value "b" <= 255
  /\ 0 <= 17 * hex_value "c" <= 255.
Proof.
  apply (parseColor_three_digits_doubled "A" "b" "c"); reflexivity.
Defined.

(** ** C8: rendering a triple and parsing the rendering *)

Lemma channel_values_spec (n : Z) : 0 <= n <= 255 -> In n channel_values.
Proof.
  intros Hn. unfold channel_values. apply in_map_iff.
  exists (Z.to_nat n). split; [lia |]. apply in_seq. lia.
Qed.

Lemma channel_roundtrip_all : forallb channel_roundtrip channel_values = true.
Proof. vm_compute. reflexivity. Qed.

(** A channel from 0 to 255 is rendered as two lowercase hexadecimal
    digits whose value is the channel. *)
Lemma channel_digits (n : Z) :
  0 <= n <= 255 ->
  exists x y : ascii,
    leadingZero (toString16 n) = String x (String y "") /\
    is_lower_hex_digit x = true /\ is_lower_hex_digit y = true /\
    is_hex_digit x = true /\ is_hex_digit y = true /\
    parseInt16 (String x (String y "")) = n.
Proof.
  intros Hn.
  pose proof (proj1 (forallb_forall _ _) channel_roundtrip_all n (channel_values_spec n Hn)) as H.
  unfold channel_roundtrip in H.
  destruct (leadingZero (toString16 n)) as [| x [| y [| z rest]]]; try discriminate H.
  exists x, y.
  repeat (apply andb_true_iff in H; destruct H as [H ?]).
  rewrite Z.eqb_eq in *. repeat split; assumption.
Qed.

(** C8. For a triple with its three channels from 0 to 255, [rgbToHex]
    returns [#] followed by the three channels, each rendered on its own
    as two lowercase hexadecimal digits (a one-digit rendering gets a
    zero in front), and [parseColor] reads that string back as the triple.
    The triple (255, 128, 0) is rendered as [#ff8000]. *)
Theorem rgbToHex_parseColor_roundtrip :
  (forall r g b : Z,
      0 <= r <= 255 -> 0 <= g <= 255 -> 0 <= b <= 255 ->
      exists hex : string,
        rgbToHex (Rgb r g b) = Return hex /\
        hex = "#" ++ leadingZero (toString16 r)
                  ++ leadingZero (toString16 g) ++ leadingZero (toString16 b) /\
        length (leadingZero (toString16 r)) = 2%nat /\
        length (leadingZero (toString16 g)) = 2%nat /\
        length (leadingZero (toString16 b)) = 2%nat /\
        all_chars is_lower_hex_digit (substring 1 6 hex) = true /\
        length hex = 7%nat /\
        parseColor (VString hex) = Return (Rgb r g b))
  /\ rgbToHex (Rgb 255 128 0) = Return "#ff8000"
  /\ parseColor (VString "#ff8000") = Return (Rgb 255 128 0).
Proof.
  split; [| split; reflexivity].
  intros r g b Hr Hg Hb.
  destruct (channel_digits r Hr) as (r1 & r2 & Er & Lr1 & Lr2 & Xr1 & Xr2 & Vr).
  destruct (channel_digits g Hg) as (g1 & g2 & Eg & Lg1 & Lg2 & Xg1 & Xg2 & Vg).
  destruct (channel_digits b Hb) as (b1 & b2 & Eb & Lb1 & Lb2 & Xb1 & Xb2 & Vb).
  eexists. split; [reflexivity |]. split; [reflexivity |].
  rewrite Er, Eg, Eb. cbn [append length substring all_chars].
  rewrite Lr1, Lr2, Lg1, Lg2, Lb1, Lb2.
  repeat (split; [reflexivity |]).
  pose proof (parseColor_hex6 r1 r2 g1 g2 b1 b2 true Xr1 Xr2 Xg1 Xg2 Xb1 Xb2) as H.
  cbn [append] in H. rewrite H, Vr, Vg, Vb. reflexivity.
Qed.

Lemma rgbToHex_parseColor_roundtrip_witness :
  exists hex : string,
    rgbToHex (Rgb 255 128 0) = Return hex /\
    hex = "#" ++ leadingZero (toString16 255)
              ++ leadingZero (toString16 128) ++ leadingZero (toString16 0) /\
    length (leadingZero (toString16 255)) = 2%nat /\
    length (leadingZero (toString16 128)) = 2%nat /\
    length (leadingZero (toString16 0)) = 2%nat /\
    all_chars is_lower_hex_digit (substring 1 6 hex) = true /\
    length hex = 7%nat /\
    parseColor (VString hex) = Return (Rgb 255 128 0).
Proof.
  apply (proj1 rgbToHex_parseColor_roundtrip 255 128 0); lia.
Defined.

(** ** Strings of the form rgb(...) *)

Lemma append_empty_r (s : string) : s ++ "" = s.
Proof. induction s as [| c s IH]; simpl; [reflexivity | rewrite IH; reflexivity]. Qed.

Lemma append_assoc (s1 s2 s3 : string) : (s1 ++ s2) ++ s3 = s1 ++ s2 ++ s3.
Proof. induction s1 as [| c s1 IH]; simpl; [reflexivity | rewrite IH; reflexivity]. Qed.

Lemma is_digit_not_space (c : ascii) : is_digit c = true -> is_space c = false.
Proof.
  unfold is_digit, is_space. intros H.
  apply andb_true_iff in H. destruct H as [H1 H2].
  apply Z.leb_le in H1, H2.
  destruct (9 <=? code c) eqn:E1, (code c <=? 13) eqn:E2,
           (code c =? 32) eqn:E3, (code c =? 160) eqn:E4;
    try reflexivity; exfalso;
    repeat match goal with
           | E : (_ <=? _) = true |- _ => apply Z.leb_le in E
           | E : (_ =? _) = true |- _ => apply Z.eqb_eq in E
           end; lia.
Qed.

Lemma is_space_not_component (c : ascii) :
  is_space c = true -> is_digit c || Ascii.eqb c "%" = false.
Proof.
  intros H. destruct (is_digit c) eqn:Hd.
  - rewrite (is_digit_not_space c Hd) in H. discriminate H.
  - destruct (Ascii.eqb_spec c "%") as [-> | _]; [discriminate H | reflexivity].
Qed.

Lemma skip_spaces_app (w rest : string) :
  all_chars is_space w = true -> head_is is_space rest = false ->
  skip_spaces (w ++ rest) = rest.
Proof.
  intros Hw Hrest. induction w as [| c w IH]; cbn [append].
  - destruct rest as [| c rest]; [reflexivity |].
    cbn [head_is] in Hrest. cbn [skip_spaces]. rewrite Hrest. reflexivity.
  - cbn [all_chars] in Hw. apply andb_true_iff in Hw. destruct Hw as [Hc Hw].
    cbn [skip_spaces]. rewrite Hc. exact (IH Hw).
Qed.

Lemma take_digits_app (d : string) :
  forall (n : nat) (rest : string),
    all_chars is_digit d = true -> (length d <= n)%nat ->
    head_is is_digit rest = false ->
    take_digits n (d ++ rest) = (d, rest).
Proof.
  induction d as [| c d IH]; intros n rest Hd Hn Hrest; cbn [append].
  - destruct n as [| n]; [reflexivity |].
    destruct rest as [| c rest]; [reflexivity |].
    cbn [head_is] in Hrest. cbn [take_digits]. rewrite Hrest. reflexivity.
  - cbn [all_chars] in Hd. apply andb_true_iff in Hd. destruct Hd as [Hc Hd].
    destruct n as [| n]; [cbn [length] in Hn; lia |].
    cbn [take_digits]. rewrite Hc.
    rewrite (IH n rest Hd) by (cbn [length] in Hn; lia || exact Hrest).
    reflexivity.
Qed.

Lemma digits_ok_inv (d : string) :
  digits_ok d = true ->
  all_chars is_digit d = true /\ (1 <= length d <= 3)%nat.
Proof.
  unfold digits_ok. intros H.
  apply andb_true_iff in H. destruct H as [H H3].
  apply andb_true_iff in H. destruct H as [H H1].
  apply Nat.leb_le in H1, H3. split; [exact H | lia].
Qed.

(** The component pattern on a well-formed component followed by
    something that continues neither the digits nor the percent sign. *)
Lemma component_app (c : component_text) (rest : string) :
  digits_ok (digits c) = true ->
  head_is (fun a => is_digit a || Ascii.eqb a "%") rest = false ->
  component (component_string c ++ rest) = Some (component_string c, rest).
Proof.
  intros Hok Hrest. destruct (digits_ok_inv _ Hok) as [Hd Hlen].
  destruct c as [d pct]. unfold component_string. cbn [digits percent] in *.
  rewrite append_assoc. unfold component.
  assert (Hhead : head_is is_digit ((if pct then "%" else "") ++ rest) = false).
  { destruct pct; [reflexivity |]. cbn [append].
    destruct rest as [| a rest]; [reflexivity |].
    cbn [head_is] in *. apply orb_false_iff in Hrest. exact (proj1 Hrest). }
  rewrite (take_digits_app d 3 _ Hd (proj2 Hlen) Hhead).
  destruct d as [| x d]; [cbn [length] in Hlen; lia |].
  destruct pct; cbn [append].
  - reflexivity.
  - rewrite append_empty_r.
    destruct rest as [| a rest]; [reflexivity |].
    cbn [head_is] in Hrest. apply orb_false_iff in Hrest.
    rewrite (proj2 Hrest). reflexivity.
Qed.

Lemma component_string_head (c : component_text) (rest : string) :
  digits_ok (digits c) = true ->
  head_is is_space (component_string c ++ rest) = false.
Proof.
  intros Hok. destruct (digits_ok_inv _ Hok) as [Hd Hlen].
  destruct c as [d pct]. unfold component_string. cbn [digits percent] in *.
  destruct d as [| x d]; [cbn [length] in Hlen; lia |].
  cbn [append head_is]. cbn [all_chars] in Hd. apply andb_true_iff in Hd.
  exact (is_digit_not_space x (proj1 Hd)).
Qed.

Lemma spaces_head (w : string) :
  all_chars is_space w = true ->
  head_is (fun a => is_digit a || Ascii.eqb a "%") (w ++ ")") = false.
Proof.
  destruct w as [| a w]; [reflexivity |].
  cbn [all_chars append head_is]. intros H. apply andb_true_iff in H.
  exact (is_space_not_component a (proj1 H)).
Qed.

(** The rgb pattern on a well-formed rgb string: the three captures are
    the three components. *)
Lemma rgbMatch_rgb_string (w0 : string) (c1 : component_text) (w1 : string)
    (c2 : component_text) (w2 : string) (c3 : component_text) (w3 : string) :
  digits_ok (digits c1) = true -> digits_ok (digits c2) = true ->
  digits_ok (digits c3) = true ->
  all_chars is_space w0 = true -> all_chars is_space w1 = true ->
  all_chars is_space w2 = true -> all_chars is_space w3 = true ->
  rgbMatch (rgb_string w0 c1 w1 c2 w2 c3 w3)
  = Some (component_string c1, component_string c2, component_string c3).
Proof.
  intros H1 H2 H3 Hw0 Hw1 Hw2 Hw3. unfold rgb_string, rgbMatch.
  cbn [append expect_ci expect obind Ascii.eqb Bool.eqb orb].
  rewrite (skip_spaces_app w0) by (exact Hw0 || exact (component_string_head c1 _ H1)).
  rewrite (component_app c1) by (exact H1 || reflexivity).
  cbn [obind snd fst expect Ascii.eqb Bool.eqb].
  rewrite (skip_spaces_app w1) by (exact Hw1 || exact (component_string_head c2 _ H2)).
  rewrite (component_app c2) by (exact H2 || reflexivity).
  cbn [obind snd fst expect Ascii.eqb Bool.eqb].
  rewrite (skip_spaces_app w2) by (exact Hw2 || exact (component_string_head c3 _ H3)).
  rewrite (component_app c3) by (exact H3 || exact (spaces_head w3 Hw3)).
  cbn [obind snd fst].
  rewrite (skip_spaces_app w3) by (exact Hw3 || reflexivity).
  reflexivity.
Qed.

Lemma Math_round_percent (v : Z) :
  Math_round (inject_Z v * 255 / 100)%Q = (255 * v + 50) / 100.
Proof.
  set (rhs := (255 * v + 50) / 100).
  unfold Math_round, Qfloor, Qplus, Qdiv, Qmult, Qinv, inject_Z. simpl.
  replace (v * 255 * 1 * 2 + 100) with ((255 * v + 50) * 2) by lia.
  change 200 with (100 * 2).
  rewrite Z.div_mul_cancel_r by lia. reflexivity.
Qed.

(** The loop of [parseInt] and [Number] computes the value of the
    numeral. *)
Lemma digits_value_decimal (d : string) :
  forall (acc : Z) (rest : string),
    all_chars is_digit d = true -> head_is is_digit rest = false ->
    digits_value acc (d ++ rest) = acc * 10 ^ Z.of_nat (length d) + decimal_value d.
Proof.
  induction d as [| c d IH]; intros acc rest Hd Hrest; cbn [append].
  - cbn [length decimal_value].
    destruct rest as [| a rest]; cbn [digits_value].
    + simpl. lia.
    + cbn [head_is] in Hrest. rewrite Hrest. simpl. lia.
  - cbn [all_chars] in Hd. apply andb_true_iff in Hd. destruct Hd as [Hc Hd].
    cbn [digits_value]. rewrite Hc. rewrite (IH _ rest Hd Hrest).
    cbn [length decimal_value]. rewrite Nat2Z.inj_succ, Z.pow_succ_r by lia. ring.
Qed.

Lemma is_digit_range (c : ascii) : is_digit c = true -> 0 <= code c - 48 <= 9.
Proof.
  unfold is_digit. intros H. apply andb_true_iff in H. destruct H as [H1 H2].
  apply Z.leb_le in H1, H2. lia.
Qed.

Lemma decimal_value_range (d : string) :
  all_chars is_digit d = true ->
  0 <= decimal_value d < 10 ^ Z.of_nat (length d).
Proof.
  induction d as [| c d IH]; intros Hd.
  - simpl. lia.
  - cbn [all_chars] in Hd. apply andb_true_iff in Hd. destruct Hd as [Hc Hd].
    specialize (IH Hd). pose proof (is_digit_range c Hc) as Hr.
    cbn [length decimal_value]. rewrite Nat2Z.inj_succ, Z.pow_succ_r by lia.
    nia.
Qed.

(** The last character of a non-empty string. *)
Lemma charAt_last (s : string) (c : ascii) :
  charAt (length (s ++ String c "") - 1) (s ++ String c "") = String c "".
Proof.
  unfold charAt. induction s as [| a s IH]; [reflexivity |].
  cbn [append length]. rewrite Nat.sub_succ, Nat.sub_0_r.
  destruct s as [| b s]; [reflexivity |].
  cbn [append length] in *. rewrite Nat.sub_succ, Nat.sub_0_r in IH.
  cbn [substring]. exact IH.
Qed.

Lemma string_snoc (p : ascii -> bool) (s : string) :
  s <> "" -> all_chars p s = true ->
  exists (s' : string) (c : ascii), s = s' ++ String c "" /\ p c = true.
Proof.
  induction s as [| a s IH]; intros Hne Hp; [contradiction Hne; reflexivity |].
  cbn [all_chars] in Hp. apply andb_true_iff in Hp. destruct Hp as [Ha Hs].
  destruct s as [| b s].
  - exists "", a. split; [reflexivity | exact Ha].
  - destruct (IH ltac:(discriminate) Hs) as (s' & c & Heq & Hc).
    exists (String a s'), c. split; [cbn [append]; rewrite <- Heq; reflexivity | exact Hc].
Qed.

Lemma parseComponentValue_component (c : component_text) :
  digits_ok (digits c) = true ->
  parseComponentValue (component_string c) = component_value c.
Proof.
  intros Hok. destruct (digits_ok_inv _ Hok) as [Hd Hlen].
  destruct c as [d pct]. unfold component_string, component_value, parseComponentValue.
  cbn [digits percent] in *. destruct pct.
  - rewrite charAt_last. cbn [String.eqb Ascii.eqb Bool.eqb andb].
    rewrite Math_round_percent. unfold parseInt10.
    rewrite (digits_value_decimal d 0 "%" Hd eq_refl). reflexivity.
  - rewrite append_empty_r.
    assert (Hne : d <> "") by (intros ->; cbn [length] in Hlen; lia).
    destruct (string_snoc is_digit d Hne Hd) as (d' & x & Heq & Hx).
    rewrite Heq at 1 2. rewrite charAt_last.
    assert (Hpct : String.eqb (String x "") "%" = false).
    { cbn [String.eqb]. destruct (Ascii.eqb_spec x "%") as [-> | _]; [discriminate Hx | reflexivity]. }
    rewrite Hpct. unfold Number.
    rewrite <- (append_empty_r d) at 1.
    rewrite (digits_value_decimal d 0 "" Hd eq_refl). reflexivity.
Qed.

Lemma STANDARD_COLORS_get_paren (s : string) :
  STANDARD_COLORS_get ("rgb(" ++ s) = None.
Proof.
  apply (STANDARD_COLORS_get_None
           (fun k => match k with
                     | String _ (String _ (String _ (String c _))) => Ascii.eqb c "("
                     | _ => false
                     end));
    reflexivity.
Qed.

Lemma hexMatch_rgb (s : string) : hexMatch ("rgb(" ++ s) = None.
Proof. reflexivity. Qed.

(** [parseColor] on a well-formed rgb string. *)
Lemma parseColor_rgb_string (w0 : string) (c1 : component_text) (w1 : string)
    (c2 : component_text) (w2 : string) (c3 : component_text) (w3 : string) :
  digits_ok (digits c1) = true -> digits_ok (digits c2) = true ->
  digits_ok (digits c3) = true ->
  all_chars is_space w0 = true -> all_chars is_space w1 = true ->
  all_chars is_space w2 = true -> all_chars is_space w3 = true ->
  parseColor (VString (rgb_string w0 c1 w1 c2 w2 c3 w3))
  = Return (Rgb (component_value c1) (component_value c2) (component_value c3)).
Proof.
  intros H1 H2 H3 Hw0 Hw1 Hw2 Hw3.
  unfold parseColor, parseColor_depth.
  rewrite (rgbMatch_rgb_string w0 c1 w1 c2 w2 c3 w3) by assumption.
  unfold rgb_string. rewrite STANDARD_COLORS_get_paren, hexMatch_rgb.
  rewrite !parseComponentValue_component by assumption. reflexivity.
Qed.

(** [(255 * v + 50) / 100] is [v * 255 / 100] rounded to the nearest
    integer, halves upwards: it is the integer [k] with
    [k - 1/2 <= v * 255 / 100 < k + 1/2]. *)
Lemma percent_nearest (v : Z) :
  100 * ((255 * v + 50) / 100) - 50 <= 255 * v < 100 * ((255 * v + 50) / 100) + 50.
Proof.
  pose proof (Z.div_mod (255 * v + 50) 100 ltac:(lia)) as Hdm.
  pose proof (Z.mod_pos_bound (255 * v + 50) 100 ltac:(lia)) as Hmod.
  lia.
Qed.

(** ** C4: the components of an rgb string *)

(** C4. An rgb string whose three components are each one to three
    decimal digits, with or without a percent sign, parses to the triple
    of its components' values: the literal value of the digits for a plain
    component, which is any integer from 0 to 999 and is not clamped, and
    [v * 255 / 100] rounded to the nearest integer for a percentage [v].
    [rgb(50%,50%,50%)] gives (128, 128, 128) and [rgb(100%,0%,0%)] gives
    (255, 0, 0). *)
Theorem parseColor_rgb_components :
  (forall (w0 : string) (c1 : component_text) (w1 : string) (c2 : component_text)
          (w2 : string) (c3 : component_text) (w3 : string),
      digits_ok (digits c1) = true -> digits_ok (digits c2) = true ->
      digits_ok (digits c3) = true ->
      all_chars is_space w0 = true -> all_chars is_space w1 = true ->
      all_chars is_space w2 = true -> all_chars is_space w3 = true ->
      parseColor (VString (rgb_string w0 c1 w1 c2 w2 c3 w3))
      = Return (Rgb (component_value c1) (component_value c2) (component_value c3)))
  /\ (forall d : string,
      digits_ok d = true ->
      parseComponentValue d = decimal_value d /\ 0 <= decimal_value d <= 999)
  /\ (forall d : string,
      digits_ok d = true ->
      100 * parseComponentValue (d ++ "%") - 50
      <= 255 * decimal_value d
      < 100 * parseComponentValue (d ++ "%") + 50)
  /\ parseColor (VString "rgb(50%,50%,50%)") = Return (Rgb 128 128 128)
  /\ parseColor (VString "rgb(100%,0%,0%)") = Return (Rgb 255 0 0)
  /\ parseColor (VString "rgb(999, 256, 100)") = Return (Rgb 999 256 100).
Proof.
  split; [exact parseColor_rgb_string |].
  split.
  { intros d Hok.
    pose proof (parseComponentValue_component {| digits := d; percent := false |} Hok) as H.
    unfold component_string, component_value in H. cbn [digits percent] in H.
    rewrite append_empty_r in H. split; [exact H |].
    destruct (digits_ok_inv d Hok) as [Hd Hlen].
    pose proof (decimal_value_range d Hd) as Hr.
    assert (10 ^ Z.of_nat (length d) <= 10 ^ 3)
      by (apply Z.pow_le_mono_r; lia).
    lia. }
  split.
  { intros d Hok.
    pose proof (parseComponentValue_component {| digits := d; percent := true |} Hok) as H.
    unfold component_string, component_value in H. cbn [digits percent] in H.
    rewrite H. apply percent_nearest. }
  repeat split; reflexivity.
Qed.

Lemma parseColor_rgb_components_witness :
  parseColor (VString (rgb_string "" {| digits := "50"; percent := true |}
                                  " " {| digits := "7"; percent := false |}
                                  " " {| digits := "999"; percent := false |} ""))
  = Return (Rgb (component_value {| digits := "50"; percent := true |})
                (component_value {| digits := "7"; percent := false |})
                (component_value {| digits := "999"; percent := false |})).
Proof.
  apply (proj1 parseColor_rgb_components); reflexivity.
Defined.

(** ** C10: a percentage above 100 is not clamped *)

(** C10. A percentage component [v%], [v] of one to three digits, has the
    value [v * 255 / 100] rounded to the nearest integer, whatever [v]:
    above 100 the value is above 255.  [rgb(999%, 0%, 0%)] has red
    component 2547. *)
Theorem parseComponentValue_percent_unclamped :
  (forall d : string,
      digits_ok d = true ->
      parseComponentValue (d ++ "%") = (255 * decimal_value d + 50) / 100 /\
      100 * parseComponentValue (d ++ "%") - 50
      <= 255 * decimal_value d
      < 100 * parseComponentValue (d ++ "%") + 50 /\
      (100 < decimal_value d -> 255 < parseComponentValue (d ++ "%")) /\
      forall (g b : component_text),
        digits_ok (digits g) = true -> digits_ok (digits b) = true ->
        parseColor (VString ("rgb(" ++ d ++ "%," ++ component_string g ++ ","
                                    ++ component_string b ++ ")"))
        = Return (Rgb (parseComponentValue (d ++ "%"))
                      (component_value g) (component_value b)))
  /\ parseComponentValue "999%" = 2547
  /\ parseColor (VString "rgb(999%, 0%, 0%)") = Return (Rgb 2547 0 0).
Proof.
  split; [| split; reflexivity].
  intros d Hok.
  pose proof (parseComponentValue_component {| digits := d; percent := true |} Hok) as H.
  unfold component_string, component_value in H. cbn [digits percent] in H.
  split; [exact H |]. rewrite H.
  split; [apply percent_nearest |].
  split.
  - intros Hv.
    assert (256 <= (255 * decimal_value d + 50) / 100)
      by (apply Z.div_le_lower_bound; lia).
    lia.
  - intros g b Hg Hb.
    pose proof (parseColor_rgb_string "" {| digits := d; percent := true |} "" g "" b ""
                  Hok Hg Hb eq_refl eq_refl eq_refl eq_refl) as Hparse.
    unfold rgb_string in Hparse. unfold component_string at 1 in Hparse.
    unfold component_value at 1 in Hparse. cbn [digits percent append] in Hparse.
    rewrite append_assoc in Hparse. cbn [append] in Hparse.
    cbn [append]. exact Hparse.
Qed.

Lemma parseComponentValue_percent_unclamped_witness :
  parseComponentValue ("999" ++ "%") = (255 * decimal_value "999" + 50) / 100 /\
  100 * parseComponentValue ("999" ++ "%") - 50
  <= 255 * decimal_value "999"
  < 100 * parseComponentValue ("999" ++ "%") + 50 /\
  (100 < decimal_value "999" -> 255 < parseComponentValue ("999" ++ "%")) /\
  forall (g b : component_text),
    digits_ok (digits g) = true -> digits_ok (digits b) = true ->
    parseColor (VString ("rgb(" ++ "999" ++ "%," ++ component_string g ++ ","
                                ++ component_string b ++ ")"))
    = Return (Rgb (parseComponentValue ("999" ++ "%"))
                  (component_value g) (component_value b)).
Proof.
  apply (proj1 parseComponentValue_percent_unclamped "999"). reflexivity.
Defined.

(** ** Palette entries and their rebuilding *)

Lemma mapM_Forall2 {A B : Type} (f : A -> outcome B) (l : list A) :
  forall bs : list B,
    mapM f l = Return bs -> Forall2 (fun a b => f a = Return b) l bs.
Proof.
  induction l as [| a l IH]; simpl; intros bs H.
  - inversion H. constructor.
  - destruct (f a) as [b | e] eqn:Hfa; simpl in H; [| discriminate H].
    destruct (mapM f l) as [bs' | e]; simpl in H; [| discriminate H].
    inversion H. subst bs. constructor; [exact Hfa | exact (IH bs' eq_refl)].
Qed.

Lemma truthy_idempotent (n : option string) : truthy (truthy n) = truthy n.
Proof. destruct n as [[| a n] |]; reflexivity. Qed.

(** An entry built from a string satisfies the invariant. *)
Lemma createColorSpec_string_consistent (s : string) (n : option string) (c : ColorSpec) :
  createColorSpec_string s n = Return c -> consistent c.
Proof.
  unfold createColorSpec_string. intros H.
  apply bind_Return in H. destruct H as (o & Hparse & Hc).
  inversion Hc. subst c. unfold consistent. cbn [name source rgb].
  split; [| split; [apply truthy_idempotent | exact Hparse]].
  intros ->. discriminate Hparse.
Qed.

(** A triple with channels from 0 to 255 is rendered to a string that
    parses to it. *)
Lemma rgbToHex_parses (r g b : Z) :
  0 <= r <= 255 -> 0 <= g <= 255 -> 0 <= b <= 255 ->
  exists digits : string,
    rgbToHex (Rgb r g b) = Return (String "#" digits)
    /\ parseColor (VString (String "#" digits)) = Return (Rgb r g b).
Proof.
  intros Hr Hg Hb.
  destruct (channel_digits r Hr) as (r1 & r2 & Er & _ & _ & Xr1 & Xr2 & Vr).
  destruct (channel_digits g Hg) as (g1 & g2 & Eg & _ & _ & Xg1 & Xg2 & Vg).
  destruct (channel_digits b Hb) as (b1 & b2 & Eb & _ & _ & Xb1 & Xb2 & Vb).
  eexists. cbn [rgbToHex]. rewrite Er, Eg, Eb. cbn [append].
  split; [reflexivity |].
  pose proof (parseColor_hex6 r1 r2 g1 g2 b1 b2 true Xr1 Xr2 Xg1 Xg2 Xb1 Xb2) as H.
  cbn [append] in H. rewrite H, Vr, Vg, Vb. reflexivity.
Qed.

(** Whatever [createColorSpec] builds satisfies the invariant, unless it
    was given an [RGB] with a channel outside 0 to 255. *)
Lemma createColorSpec_consistent (i : input) (n : option string) (c : ColorSpec) :
  input_in_range i = true ->
  createColorSpec i n = Return c -> consistent c.
Proof.
  intros Hrange H. destruct i as [s | [r g b |] | [n0 s0 o0]]; cbn [createColorSpec] in H.
  - exact (createColorSpec_string_consistent s n c H).
  - cbn [input_in_range] in Hrange.
    repeat (apply andb_true_iff in Hrange; destruct Hrange as [Hrange ?]).
    repeat match goal with
           | E : (_ <=? _) = true |- _ => apply Z.leb_le in E
           end.
    destruct (rgbToHex_parses r g b) as (digits & Hhex & Hparse); [lia | lia | lia |].
    rewrite Hhex in H. cbn [bind] in H. inversion H. subst c.
    unfold consistent. cbn [name source rgb].
    split; [discriminate | split; [apply truthy_idempotent | exact Hparse]].
  - discriminate H.
  - destruct s0 as [| a s0]; [discriminate H |].
    exact (createColorSpec_string_consistent _ _ c H).
Qed.

(** An entry that satisfies the invariant is rebuilt as itself. *)
Lemma createColorSpec_rebuild (c : ColorSpec) (n : option string) :
  consistent c -> createColorSpec (ISpec c) n = Return c.
Proof.
  destruct c as [n0 s0 o0]. unfold consistent. cbn [name source rgb createColorSpec].
  intros (Hsrc & Hname & Hparse).
  destruct s0 as [| a s0]; [contradiction Hsrc; reflexivity |].
  unfold createColorSpec_string. rewrite Hparse. cbn [bind]. rewrite Hname. reflexivity.
Qed.

Lemma mapColors_consistent (colors : colors) (p : list ColorSpec) :
  colors_in_range colors = true ->
  mapColors colors = Return p -> Forall consistent p.
Proof.
  intros Hrange H. destruct colors as [elements | props];
    cbn [mapColors colors_in_range] in *;
    apply mapM_Forall2 in H; rewrite forallb_forall in Hrange.
  - induction H as [| i c elements p Hic _ IH]; constructor.
    + apply (createColorSpec_consistent i None c); [| exact Hic].
      apply Hrange. left. reflexivity.
    + apply IH. intros x Hx. apply Hrange. right. exact Hx.
  - induction H as [| prop c props p Hic _ IH]; constructor.
    + apply (createColorSpec_consistent (snd prop) (Some (fst prop)) c); [| exact Hic].
      apply (Hrange prop). left. reflexivity.
    + apply IH. intros x Hx. apply Hrange. right. exact Hx.
Qed.

Lemma mapColors_rebuild (l : list ColorSpec) :
  Forall consistent l -> mapColors (Array (map ISpec l)) = Return l.
Proof.
  intros H. cbn [mapColors]. induction H as [| c l Hc _ IH]; cbn [map mapM].
  - reflexivity.
  - rewrite (createColorSpec_rebuild c None Hc). cbn [bind]. rewrite IH. reflexivity.
Qed.

(** ** C9: elements of an array of colours *)

(** C9, as the code has it.  An element that is a [ColorSpec] (it has a
    non-empty source) is not passed through but rebuilt from its name and
    its source: the entry keeps the source and the name (the empty name
    counts as none) and its rgb is what the source parses to; it is the
    element itself when the element satisfies the invariant of palette
    entries, which all entries do that [mapColors] built from strings and
    from triples with channels from 0 to 255.  A string element gives an
    unnamed entry whose source is that string, character for character;
    an [RGB] element gives an unnamed entry with the rendering of that
    triple as its source. *)
Theorem mapColors_array_entries :
  (forall (elements : list input) (p : list ColorSpec),
      mapColors (Array elements) = Return p ->
      Forall2 (fun element entry =>
                 match element with
                 | ISpec c =>
                     name entry = truthy (name c) /\
                     source entry = source c /\
                     parseColor (VString (source c)) = Return (rgb entry) /\
                     (consistent c -> entry = c)
                 | IString s =>
                     name entry = None /\
                     source entry = s /\
                     parseColor (VString s) = Return (rgb entry)
                 | IRgb o =>
                     name entry = None /\
                     rgbToHex o = Return (source entry) /\
                     rgb entry = o
                 end) elements p)
  /\ (forall l : list ColorSpec,
      Forall consistent l -> mapColors (Array (map ISpec l)) = Return l)
  /\ (forall (colors : colors) (p : list ColorSpec),
      colors_in_range colors = true ->
      mapColors colors = Return p -> Forall consistent p).
Proof.
  split; [| split; [exact mapColors_rebuild | exact mapColors_consistent]].
  intros elements p H. cbn [mapColors] in H. apply mapM_Forall2 in H.
  induction H as [| element entry elements p Hee _ IH]; constructor; [| exact IH].
  destruct element as [s | o | c].
  - cbn [createColorSpec] in Hee. unfold createColorSpec_string in Hee.
    apply bind_Return in Hee. destruct Hee as (o & Hparse & Hentry).
    inversion Hentry. subst entry. cbn [name source rgb truthy].
    repeat split. exact Hparse.
  - cbn [createColorSpec] in Hee.
    apply bind_Return in Hee. destruct Hee as (hex & Hhex & Hentry).
    inversion Hentry. subst entry. cbn [name source rgb truthy].
    repeat split. exact Hhex.
  - split; [| split; [| split]].
    4: { intros Hc. rewrite (createColorSpec_rebuild c None Hc) in Hee.
         inversion Hee. reflexivity. }
    all: destruct c as [n0 s0 o0]; cbn [createColorSpec] in Hee;
      destruct s0 as [| a s0]; [discriminate Hee |];
      unfold createColorSpec_string in Hee;
      apply bind_Return in Hee; destruct Hee as (o & Hparse & Hentry);
      inversion Hentry; subst entry; cbn [name source rgb].
    + reflexivity.
    + reflexivity.
    + exact Hparse.
Qed.

Lemma mapColors_array_entries_witness :
  let white := {| name := Some "white"; source := "fff"; rgb := Rgb 255 255 255 |} in
  Forall2 (fun element entry =>
             match element with
             | ISpec c =>
                 name entry = truthy (name c) /\
                 source entry = source c /\
                 parseColor (VString (source c)) = Return (rgb entry) /\
                 (consistent c -> entry = c)
             | IString s =>
                 name entry = None /\
                 source entry = s /\
                 parseColor (VString s) = Return (rgb entry)
             | IRgb o =>
                 name entry = None /\
                 rgbToHex o = Return (source entry) /\
                 rgb entry = o
             end)
          [ISpec white; IString "#EEE"; IRgb (Rgb 255 128 0)]
          [white;
           {| name := None; source := "#EEE"; rgb := Rgb 238 238 238 |};
           {| name := None; source := "#ff8000"; rgb := Rgb 255 128 0 |}].
Proof.
  intros white.
  apply (proj1 mapColors_array_entries
           [ISpec white; IString "#EEE"; IRgb (Rgb 255 128 0)]).
  reflexivity.
Defined.

(** An element whose rgb is not what its source parses to comes out
    changed; an entry built from a triple with a channel above 255 has a
    source that does not parse, and rebuilding it throws. *)
Lemma mapColors_passthrough_counterexample :
  (mapColors (Array [ISpec {| name := None; source := "#f00"; rgb := Rgb 0 0 0 |}])
   = Return [ {| name := None; source := "#f00"; rgb := Rgb 255 0 0 |} ]
   /\ mapColors (Array [ISpec {| name := None; source := "#f00"; rgb := Rgb 0 0 0 |}])
      <> Return [ {| name := None; source := "#f00"; rgb := Rgb 0 0 0 |} ])
  /\ (mapColors (Array [IRgb (Rgb 256 0 0)])
      = Return [ {| name := None; source := "#1000000"; rgb := Rgb 256 0 0 |} ]
      /\ mapColors (Array [ISpec {| name := None; source := "#1000000"; rgb := Rgb 256 0 0 |}])
         = Throw (InvalidColor "#1000000")).
Proof.
  split; split; try reflexivity.
  intros H. vm_compute in H. discriminate H.
Qed.

(** In the version before [createColorSpec], an element that has an rgb
    is returned as it is, whatever its source, and a string element gives
    an unnamed entry with that string as its source. *)
Lemma Earlier_mapColors_returns_elements :
  (forall l : list Earlier.ColorSpec,
      Forall (fun c => Earlier.rgb c <> None) l ->
      Earlier.mapColors_array (map Earlier.ESpec l) = Return l)
  /\ (forall (s : string) (parsed : option RGB),
      Earlier.parseColor (VString s) = Return parsed ->
      Earlier.mapColors_array [Earlier.EString s]
      = Return [ {| Earlier.name := None; Earlier.source := s; Earlier.rgb := parsed |} ])
  /\ Earlier.mapColors_array
       [Earlier.ESpec {| Earlier.name := None; Earlier.source := "#f00";
                         Earlier.rgb := Some (Rgb 0 0 0) |}]
     = Return [ {| Earlier.name := None; Earlier.source := "#f00";
                   Earlier.rgb := Some (Rgb 0 0 0) |} ].
Proof.
  split; [| split; [| reflexivity]].
  - intros l H. unfold Earlier.mapColors_array.
    induction H as [| c l Hc _ IH]; cbn [map mapM].
    + reflexivity.
    + destruct (Earlier.rgb c) as [o |]; [| contradiction Hc; reflexivity].
      cbn [bind]. rewrite IH. reflexivity.
  - intros s parsed H. unfold Earlier.mapColors_array. cbn [mapM].
    rewrite H. reflexivity.
Qed.

(** ** The patterns and the grammars they stand for *)

(** The hex pattern matches the strings of the hex grammar, and no
    other. *)
Lemma hexMatch_spec (s body : string) :
  hexMatch s = Some body <->
  exists hash : bool,
    s = (if hash then "#" else "") ++ body
    /\ all_chars is_hex_digit body = true
    /\ (length body = 3 \/ length body = 6)%nat.
Proof.
  split.
  - unfold hexMatch. intros H.
    match type of H with
    | (if ?b then _ else _) = _ => destruct b eqn:Hb; [| discriminate H]
    end.
    inversion H as [Hbody]. clear H. rewrite Hbody in Hb.
    apply andb_true_iff in Hb. destruct Hb as [Hall Hlen].
    apply orb_true_iff in Hlen. rewrite !Nat.eqb_eq in Hlen.
    destruct s as [| c s'].
    + exists false. subst body. repeat split; assumption.
    + destruct (Ascii.eqb_spec c "#") as [-> | _].
      * exists true. subst body. repeat split; assumption.
      * exists false. subst body. repeat split; assumption.
  - intros (hash & -> & Hall & Hlen). apply hexMatch_digits; [exact Hall |].
    apply orb_true_iff. rewrite !Nat.eqb_eq. exact Hlen.
Qed.

Lemma skip_spaces_inv (s : string) :
  exists w : string, s = w ++ skip_spaces s /\ all_chars is_space w = true.
Proof.
  induction s as [| c s IH].
  - exists "". split; reflexivity.
  - cbn [skip_spaces]. destruct (is_space c) eqn:Hc.
    + destruct IH as (w & Heq & Hw). exists (String c w). split.
      * cbn [append]. rewrite <- Heq. reflexivity.
      * cbn [all_chars]. rewrite Hc, Hw. reflexivity.
    + exists "". split; reflexivity.
Qed.

Lemma take_digits_inv (n : nat) :
  forall s d rest : string,
    take_digits n s = (d, rest) ->
    s = d ++ rest /\ all_chars is_digit d = true /\ (length d <= n)%nat.
Proof.
  induction n as [| n IH]; intros s d rest H.
  - destruct s; inversion H; subst; repeat split; cbn [length]; lia.
  - destruct s as [| c s]; cbn [take_digits] in H.
    + inversion H; subst; repeat split; cbn [length]; lia.
    + destruct (is_digit c) eqn:Hc.
      * destruct (take_digits n s) as [d' rest'] eqn:E.
        inversion H; subst. destruct (IH s d' rest E) as (Hs & Hd & Hlen).
        cbn [append all_chars length]. rewrite Hc, Hd, <- Hs.
        repeat split. lia.
      * inversion H; subst; repeat split; cbn [length]; lia.
Qed.

Lemma component_inv (s a rest : string) :
  component s = Some (a, rest) ->
  exists c : component_text,
    digits_ok (digits c) = true /\ a = component_string c /\ s = a ++ rest.
Proof.
  unfold component. destruct (take_digits 3 s) as [d r] eqn:E.
  apply take_digits_inv in E. destruct E as (Hs & Hd & Hlen).
  destruct d as [| x d]; [discriminate |].
  assert (Hok : digits_ok (String x d) = true).
  { unfold digits_ok. rewrite Hd. cbn [length] in *.
    apply andb_true_iff. split; [reflexivity | apply Nat.leb_le; lia]. }
  destruct r as [| y r].
  - intros H. inversion H; subst a rest.
    exists {| digits := String x d; percent := false |}.
    unfold component_string. cbn [digits percent]. rewrite !append_empty_r in *.
    repeat split; assumption.
  - destruct (Ascii.eqb_spec y "%") as [-> | _]; intros H; inversion H; subst a rest.
    + exists {| digits := String x d; percent := true |}.
      unfold component_string. cbn [digits percent].
      split; [exact Hok |]. split; [reflexivity |].
      rewrite Hs. cbn [append]. rewrite append_assoc. reflexivity.
    + exists {| digits := String x d; percent := false |}.
      unfold component_string. cbn [digits percent]. rewrite append_empty_r.
      repeat split; assumption.
Qed.

Lemma expect_inv (c : ascii) (s rest : string) :
  expect c s = Some rest -> s = String c rest.
Proof.
  destruct s as [| c' s]; cbn [expect]; [discriminate |].
  destruct (Ascii.eqb_spec c' c) as [-> | _]; intros H; inversion H. reflexivity.
Qed.

Lemma expect_ci_inv (lower upper : ascii) (s rest : string) :
  expect_ci lower upper s = Some rest ->
  exists c : ascii, s = String c rest /\ (c = lower \/ c = upper).
Proof.
  destruct s as [| c' s]; cbn [expect_ci]; [discriminate |].
  destruct (Ascii.eqb_spec c' lower) as [-> | _]; cbn [orb].
  - intros H; inversion H. exists lower. split; [reflexivity | left; reflexivity].
  - destruct (Ascii.eqb_spec c' upper) as [-> | _]; intros H; inversion H.
    exists upper. split; [reflexivity | right; reflexivity].
Qed.

Lemma obind_Some {A B : Type} (m : option A) (k : A -> option B) (b : B) :
  obind m k = Some b -> exists a, m = Some a /\ k a = Some b.
Proof.
  destruct m as [a |]; cbn [obind]; intros H; [| discriminate H].
  exists a. split; [reflexivity | exact H].
Qed.

(** The letters of the pattern match in either case. *)
Lemma rgbMatch_prefix (p1 p2 p3 : ascii) (t : string) :
  (p1 = "r" \/ p1 = "R")%char -> (p2 = "g" \/ p2 = "G")%char ->
  (p3 = "b" \/ p3 = "B")%char ->
  rgbMatch (String p1 (String p2 (String p3 t))) = rgbMatch ("rgb" ++ t).
Proof. intros [-> | ->] [-> | ->] [-> | ->]; reflexivity. Qed.

(** The rgb pattern matches the strings of the rgb grammar, and no other;
    its captures are the components. *)
Lemma rgbMatch_spec (s a1 a2 a3 : string) :
  rgbMatch s = Some (a1, a2, a3) <->
  exists c1 c2 c3 : component_text,
    rgb_form s c1 c2 c3
    /\ a1 = component_string c1 /\ a2 = component_string c2
    /\ a3 = component_string c3.
Proof.
  split.
  - unfold rgbMatch. intros H.
    apply obind_Some in H. destruct H as (s1 & E1 & H).
    apply obind_Some in H. destruct H as (s2 & E2 & H).
    apply obind_Some in H. destruct H as (s3 & E3 & H).
    apply obind_Some in H. destruct H as (s4 & E4 & H).
    apply obind_Some in H. destruct H as ([b1 r1] & C1 & H). cbn [fst snd] in H.
    apply obind_Some in H. destruct H as (s5 & E5 & H).
    apply obind_Some in H. destruct H as ([b2 r2] & C2 & H). cbn [fst snd] in H.
    apply obind_Some in H. destruct H as (s6 & E6 & H).
    apply obind_Some in H. destruct H as ([b3 r3] & C3 & H). cbn [fst snd] in H.
    apply obind_Some in H. destruct H as (s7 & E7 & H).
    destruct s7; [| discriminate H]. inversion H; subst b1 b2 b3. clear H.
    apply expect_ci_inv in E1, E2, E3.
    destruct E1 as (p1 & -> & Hp1), E2 as (p2 & -> & Hp2), E3 as (p3 & -> & Hp3).
    apply expect_inv in E4, E5, E6, E7. subst s3 r1 r2.
    apply component_inv in C1, C2, C3.
    destruct C1 as (c1 & Hc1 & -> & X1), C2 as (c2 & Hc2 & -> & X2),
             C3 as (c3 & Hc3 & -> & X3).
    destruct (skip_spaces_inv s4) as (w0 & Y0 & Hw0).
    destruct (skip_spaces_inv s5) as (w1 & Y1 & Hw1).
    destruct (skip_spaces_inv s6) as (w2 & Y2 & Hw2).
    destruct (skip_spaces_inv r3) as (w3 & Y3 & Hw3).
    exists c1, c2, c3. split; [| repeat split].
    exists p1, p2, p3, w0, w1, w2, w3.
    repeat (split; [assumption |]).
    rewrite E7 in Y3. rewrite Y3 in X3. rewrite X3 in Y2. rewrite Y2 in X2.
    rewrite X2 in Y1. rewrite Y1 in X1. rewrite X1 in Y0. rewrite Y0.
    cbn [append]. reflexivity.
  - intros (c1 & c2 & c3 & Hform & -> & -> & ->).
    destruct Hform as (p1 & p2 & p3 & w0 & w1 & w2 & w3 & Hp1 & Hp2 & Hp3
                       & Hw0 & Hw1 & Hw2 & Hw3 & H1 & H2 & H3 & ->).
    rewrite (rgbMatch_prefix p1 p2 p3 _ Hp1 Hp2 Hp3).
    exact (rgbMatch_rgb_string w0 c1 w1 c2 w2 c3 w3 H1 H2 H3 Hw0 Hw1 Hw2 Hw3).
Qed.

(** ** C7: strings that are no colour *)

Lemma STANDARD_COLORS_get_rgb_form (s : string) (c1 c2 c3 : component_text) :
  rgb_form s c1 c2 c3 -> STANDARD_COLORS_get s = None /\ hexMatch s = None.
Proof.
  intros (p1 & p2 & p3 & w0 & w1 & w2 & w3 & Hp1 & _ & _ & _ & _ & _ & _ & _ & _ & _ & ->).
  split.
  - apply (STANDARD_COLORS_get_None
             (fun k => match k with
                       | String _ (String _ (String _ (String c _))) => Ascii.eqb c "("
                       | _ => false
                       end));
      reflexivity.
  - destruct Hp1 as [-> | ->]; reflexivity.
Qed.

(** [parseColor] accepts every string of the three grammars. *)
Lemma parseColor_supported (s : string) :
  supported s -> exists r g b : Z, parseColor (VString s) = Return (Rgb r g b).
Proof.
  unfold parseColor, parseColor_depth. intros [Hname | [Hhex | Hrgb]].
  - destruct Hname as (hex & Hhex). unfold STANDARD_COLORS_get. rewrite Hhex.
    revert Hhex. unfold STANDARD_COLORS, assoc.
    repeat match goal with
           | |- context [String.eqb s ?k] => destruct (String.eqb s k)
           end;
      intros H; inversion H; subst hex; do 3 eexists; reflexivity.
  - destruct Hhex as (hash & body & -> & Hall & Hlen).
    assert (Hget : STANDARD_COLORS_get ((if hash then "#" else "") ++ body) = None).
    { destruct hash; [apply STANDARD_COLORS_get_hash |].
      apply STANDARD_COLORS_get_hex. exact Hall. }
    rewrite Hget, hexMatch_digits
      by (exact Hall || (apply orb_true_iff; rewrite !Nat.eqb_eq; exact Hlen)).
    destruct (length body =? 3)%nat; do 3 eexists; reflexivity.
  - destruct Hrgb as (c1 & c2 & c3 & Hform).
    destruct (STANDARD_COLORS_get_rgb_form s c1 c2 c3 Hform) as [Hget Hhex].
    rewrite Hget, Hhex.
    rewrite (proj2 (rgbMatch_spec s _ _ _))
      by (exists c1, c2, c3; repeat split; exact Hform).
    do 3 eexists; reflexivity.
Qed.

(** A string of none of the three grammars, unless it is a property name
    [STANDARD_COLORS] inherits, makes [parseColor] throw the error that
    names it, as a query of [nearestColor] and as an element or a value of
    the colours given to [mapColors], where the entries before it are
    built first. *)
Lemma parseColor_unsupported (s : string) :
  ~ supported s -> ~ inherited_name s ->
  parseColor (VString s) = Throw (InvalidColor s)
  /\ (forall colors, nearestColor (VString s) colors = Throw (InvalidColor s))
  /\ (forall (n : option string), createColorSpec (IString s) n = Throw (InvalidColor s))
  /\ (forall (before after : list input) (p : list ColorSpec),
      mapColors (Array before) = Return p ->
      mapColors (Array (before ++ IString s :: after)) = Throw (InvalidColor s))
  /\ (forall (before after : list (string * input)) (key : string) (p : list ColorSpec),
      mapColors (Object before) = Return p ->
      mapColors (Object (before ++ (key, IString s) :: after)) = Throw (InvalidColor s)).
Proof.
  intros Hunsupported Hown.
  assert (Hget : STANDARD_COLORS_get s = None).
  { unfold STANDARD_COLORS_get.
    destruct (assoc s STANDARD_COLORS) as [hex |] eqn:E1.
    - contradiction Hunsupported. left. exists hex. exact E1.
    - destruct (assoc s OBJECT_PROTOTYPE) as [v |] eqn:E2; [| reflexivity].
      contradiction Hown. exists v. exact E2. }
  assert (Hhex : hexMatch s = None).
  { destruct (hexMatch s) as [body |] eqn:E; [| reflexivity].
    contradiction Hunsupported. right. left.
    apply hexMatch_spec in E. destruct E as (hash & E). exists hash, body. exact E. }
  assert (Hrgb : rgbMatch s = None).
  { destruct (rgbMatch s) as [[[a1 a2] a3] |] eqn:E; [| reflexivity].
    contradiction Hunsupported. right. right.
    apply rgbMatch_spec in E. destruct E as (c1 & c2 & c3 & Hform & _).
    exists c1, c2, c3. exact Hform. }
  assert (Hparse : parseColor (VString s) = Throw (InvalidColor s)).
  { unfold parseColor, parseColor_depth. rewrite Hget, Hhex, Hrgb. reflexivity. }
  assert (Hspec : forall n, createColorSpec (IString s) n = Throw (InvalidColor s)).
  { intros n. cbn [createColorSpec]. unfold createColorSpec_string.
    rewrite Hparse. reflexivity. }
  split; [exact Hparse |].
  split; [intros colors; unfold nearestColor; rewrite Hparse; reflexivity |].
  split; [exact Hspec |].
  split.
  - intros before after p Hp. cbn [mapColors] in *.
    rewrite mapM_app, Hp. cbn [bind mapM]. rewrite Hspec. reflexivity.
  - intros before after key p Hp. cbn [mapColors] in *.
    rewrite mapM_app, Hp. cbn [bind mapM snd fst]. rewrite Hspec. reflexivity.
Qed.

(** The inherited names are none of the supported strings. *)
Lemma inherited_name_unsupported (s : string) : inherited_name s -> ~ supported s.
Proof.
  intros (v & Hv) Hsup.
  assert (Hget : STANDARD_COLORS_get s <> None).
  { unfold STANDARD_COLORS_get. destruct (assoc s STANDARD_COLORS); [discriminate |].
    rewrite Hv. discriminate. }
  destruct Hsup as [(hex & Hname) | [(hash & body & -> & Hall & _) | (c1 & c2 & c3 & Hform)]].
  - revert Hv Hname. unfold OBJECT_PROTOTYPE, STANDARD_COLORS, assoc.
    repeat match goal with
           | |- context [String.eqb s ?k] =>
               destruct (String.eqb_spec s k) as [-> | _]; try discriminate
           end.
  - apply Hget. destruct hash; [apply STANDARD_COLORS_get_hash |].
    apply STANDARD_COLORS_get_hex. exact Hall.
  - apply Hget. exact (proj1 (STANDARD_COLORS_get_rgb_form s c1 c2 c3 Hform)).
Qed.

Example parseColor_foo :
  parseColor (VString "foo") = Throw (InvalidColor "foo")
  /\ nearestColor (VString "foo") None = Throw (InvalidColor "foo")
  /\ mapColors (Array [IString "foo"]) = Throw (InvalidColor "foo")
  /\ from (Object [("invalid", IString "foo")]) = Throw (InvalidColor "foo").
Proof. repeat split; reflexivity. Qed.

(** C7 at the names [STANDARD_COLORS] inherits.  Each of them is a string
    of none of the three grammars, and [parseColor] does not throw the
    error for an invalid colour on them: [__proto__] is found by the [in] test, and its value, the object
    [Object.prototype], is returned as if it were an RGB, so that
    [mapColors] accepts the string as an element and nothing is thrown
    until a search reads the name of an undefined value; [toString] and
    [constructor] are found too, their value is a function, and the
    nested call throws a [TypeError]. *)
Theorem parseColor_inherited_names :
  (~ supported "__proto__"
   /\ parseColor (VString "__proto__") = Return ObjectPrototype
   /\ mapColors (Array [IString "__proto__"])
      = Return [ {| name := None; source := "__proto__"; rgb := ObjectPrototype |} ]
   /\ nearestColor (VString "__proto__") None = Throw (TypeError (ReadOfUndefined "name")))
  /\ (~ supported "toString"
      /\ parseColor (VString "toString") = Throw (TypeError NotAFunction)
      /\ mapColors (Array [IString "toString"]) = Throw (TypeError NotAFunction)
      /\ nearestColor (VString "toString") None = Throw (TypeError NotAFunction))
  /\ (~ supported "constructor"
      /\ parseColor (VString "constructor") = Throw (TypeError NotAFunction)
      /\ mapColors (Object [("invalid", IString "constructor")])
         = Throw (TypeError NotAFunction)).
Proof.
  assert (H : forall s v, assoc s OBJECT_PROTOTYPE = Some v -> ~ supported s)
    by (intros s v Hv; apply inherited_name_unsupported; exists v; exact Hv).
  split; [| split].
  - split; [exact (H "__proto__" _ eq_refl) | repeat split; reflexivity].
  - split; [exact (H "toString" _ eq_refl) | repeat split; reflexivity].
  - split; [exact (H "constructor" _ eq_refl) | repeat split; reflexivity].
Qed.

(** ** The range of what a string parses to *)

Lemma STANDARD_COLORS_get_inherited (s : string) (v : jsval) :
  assoc s OBJECT_PROTOTYPE = Some v ->
  v = VFunction \/ v = VObject ObjectPrototype.
Proof.
  unfold OBJECT_PROTOTYPE, assoc.
  repeat match goal with
         | |- context [String.eqb s ?k] => destruct (String.eqb s k)
         end;
    intros H; inversion H; auto.
Qed.

Lemma parseInt16_pair_range (x y : ascii) :
  is_hex_digit x = true -> is_hex_digit y = true ->
  0 <= parseInt16 (String x (String y "")) <= 255.
Proof.
  intros Hx Hy. rewrite parseInt16_pair by assumption.
  pose proof (hex_value_range x Hx). pose proof (hex_value_range y Hy). lia.
Qed.

Lemma component_value_range (c : component_text) :
  digits_ok (digits c) = true ->
  0 <= component_value c <= 2547
  /\ (percent c = false -> component_value c <= 999).
Proof.
  intros Hok. destruct (digits_ok_inv _ Hok) as [Hd Hlen].
  pose proof (decimal_value_range _ Hd) as Hr.
  assert (10 ^ Z.of_nat (length (digits c)) <= 1000)
    by (change 1000 with (10 ^ 3); apply Z.pow_le_mono_r; lia).
  unfold component_value. destruct (percent c).
  - split; [| discriminate]. split.
    + apply Z.div_pos; lia.
    + assert ((255 * decimal_value (digits c) + 50) / 100 < 2548)
        by (apply Z.div_lt_upper_bound; lia).
      lia.
  - split; [lia | intros _; lia].
Qed.

(** The channels of a string matched by the hex pattern. *)
Lemma hex_channels_range (body : string) :
  all_chars is_hex_digit body = true ->
  (length body = 3 \/ length body = 6)%nat ->
  exists r g b : Z,
    (let '(h0, h1, h2) :=
       if (length body =? 3)%nat
       then (charAt 0 body ++ charAt 0 body,
             charAt 1 body ++ charAt 1 body,
             charAt 2 body ++ charAt 2 body)
       else (js_substring 0 2 body, js_substring 2 4 body, js_substring 4 6 body) in
     Return (Rgb (parseInt16 h0) (parseInt16 h1) (parseInt16 h2)))
    = Return (Rgb r g b)
    /\ 0 <= r <= 255 /\ 0 <= g <= 255 /\ 0 <= b <= 255.
Proof.
  intros Hall Hlen.
  destruct body as [| c1 [| c2 [| c3 [| c4 [| c5 [| c6 [| c7 rest]]]]]]];
    cbn [length] in Hlen; try (exfalso; lia);
    cbn [all_chars] in Hall;
    repeat (apply andb_true_iff in Hall; let H := fresh "Hc" in destruct Hall as [H Hall]).
  - do 3 eexists. split; [reflexivity |].
    cbn [charAt substring append].
    repeat split; apply parseInt16_pair_range; assumption.
  - do 3 eexists. split; [reflexivity |].
    cbn [js_substring substring Nat.sub].
    repeat split; apply parseInt16_pair_range; assumption.
Qed.

Lemma parseColor_channel_cases (s : string) (r g b : Z) :
  parseColor (VString s) = Return (Rgb r g b) ->
  (0 <= r <= 255 /\ 0 <= g <= 255 /\ 0 <= b <= 255)
  \/ (~ standard_name s /\ ~ hex_form s
      /\ 0 <= r <= 2547 /\ 0 <= g <= 2547 /\ 0 <= b <= 2547).
Proof.
  unfold parseColor, parseColor_depth, STANDARD_COLORS_get.
  destruct (assoc s STANDARD_COLORS) as [hex |] eqn:Eown.
  - revert Eown. unfold STANDARD_COLORS, assoc.
    repeat match goal with
           | |- context [String.eqb s ?k] => destruct (String.eqb s k)
           end;
      intros H; inversion H; subst hex; vm_compute;
      intros Hp; inversion Hp; left; repeat split; discriminate.
  - destruct (assoc s OBJECT_PROTOTYPE) as [v |] eqn:Einh.
    + destruct (STANDARD_COLORS_get_inherited s v Einh) as [-> | ->]; discriminate.
    + destruct (hexMatch s) as [body |] eqn:Ehex.
      * apply hexMatch_spec in Ehex. destruct Ehex as (hash & _ & Hall & Hlen).
        destruct (hex_channels_range body Hall Hlen) as (r' & g' & b' & E & Hr).
        rewrite E. intros Hp. inversion Hp; subst. left. exact Hr.
      * destruct (rgbMatch s) as [[[a1 a2] a3] |] eqn:Ergb; [| discriminate].
        apply rgbMatch_spec in Ergb.
        destruct Ergb as (c1 & c2 & c3 & Hform & -> & -> & ->).
        pose proof Hform as Hform'.
        destruct Hform' as (_ & _ & _ & _ & _ & _ & _ & _ & _ & _ & _ & _ & _ & _
                            & H1 & H2 & H3 & _).
        rewrite !parseComponentValue_component by assumption.
        intros Hp. inversion Hp; subst. right.
        split; [intros (hex & Hhex); rewrite Hhex in Eown; discriminate Eown |].
        split.
        { intros (hash & body & Hs & Hall & Hlen).
          assert (Hm : hexMatch s = Some body)
            by (apply hexMatch_spec; exists hash; repeat split; assumption).
          rewrite Hm in Ehex. discriminate Ehex. }
        repeat split; apply component_value_range; assumption.
Qed.

(** What a string parses to has channels for which the arithmetic of the
    search is exact. *)
Lemma parseColor_string_exact (s : string) (o : RGB) :
  parseColor (VString s) = Return o -> exact_channels o = true.
Proof.
  destruct o as [r g b |]; [| reflexivity]. intros H.
  assert (Hr : 0 <= r <= 2547 /\ 0 <= g <= 2547 /\ 0 <= b <= 2547)
    by (destruct (parseColor_channel_cases s r g b H) as [? | (_ & _ & ?)]; lia).
  cbn [exact_channels]. rewrite !andb_true_iff, !exact_channel_spec. lia.
Qed.

(** ** C5: the matcher made by or *)

(** An entry that satisfies the invariant has channels for which the
    arithmetic of the search is exact. *)
Lemma consistent_exact (l : list ColorSpec) :
  Forall consistent l -> Forall (fun c => exact_channels (rgb c) = true) l.
Proof.
  intros H. eapply Forall_impl; [| exact H].
  intros c (_ & _ & Hparse). exact (parseColor_string_exact _ _ Hparse).
Qed.

(** C5, as the code has it.  Let [P] and [Q] be colour collections in
    which every [RGB] has its channels from 0 to 255, with entries [p] and
    [q].  Then [from(P).or(Q)] is the matcher over [p] followed by [q],
    the same as the matcher made directly from that list; on every query
    it answers as [nearestColor] does on that list; for a query that
    parses to a triple with channels of at most 2^24 in absolute value
    the entry returned is the first, in that order, of those at the least
    squared distance; and the matcher can be extended by [or] again, while
    its [from] is [from]. *)
Theorem or_concatenates :
  forall (P Q : colors) (p q : list ColorSpec),
    colors_in_range P = true -> colors_in_range Q = true ->
    mapColors P = Return p -> mapColors Q = Return q ->
    from P = Return {| captured := p |}
    /\ or {| captured := p |} Q = Return {| captured := (p ++ q)%list |}
    /\ from (Array (map ISpec (p ++ q)%list)) = Return {| captured := (p ++ q)%list |}
    /\ (forall needle : jsval,
        call {| captured := (p ++ q)%list |} needle
        = nearestColor needle (Some (p ++ q)%list))
    /\ (forall (needle : jsval) (qr qg qb d : Z) (value : ColorSpec),
        parseColor needle = Return (Rgb qr qg qb) ->
        exact_channels (Rgb qr qg qb) = true ->
        scan (Rgb qr qg qb) (p ++ q)%list = Some (d, value) ->
        call {| captured := (p ++ q)%list |} needle = Return (result value d)
        /\ exists (i : nat) (r g b : Z),
            nth_error (p ++ q)%list i = Some value
            /\ rgb value = Rgb r g b
            /\ d = (qr - r) ^ 2 + (qg - g) ^ 2 + (qb - b) ^ 2
            /\ (forall j c r' g' b',
                nth_error (p ++ q)%list j = Some c -> rgb c = Rgb r' g' b' ->
                d <= (qr - r') ^ 2 + (qg - g') ^ 2 + (qb - b') ^ 2)
            /\ (forall j c r' g' b',
                (j < i)%nat -> nth_error (p ++ q)%list j = Some c ->
                rgb c = Rgb r' g' b' ->
                d < (qr - r') ^ 2 + (qg - g') ^ 2 + (qb - b') ^ 2))
    /\ (forall (R : colors) (r : list ColorSpec),
        colors_in_range R = true -> mapColors R = Return r ->
        or {| captured := (p ++ q)%list |} R
        = Return {| captured := ((p ++ q) ++ r)%list |})
    /\ (forall R : colors, matcher_from {| captured := (p ++ q)%list |} R = from R).
Proof.
  intros P Q p q HP HQ Hp Hq.
  pose proof (mapColors_consistent P p HP Hp) as Cp.
  pose proof (mapColors_consistent Q q HQ Hq) as Cq.
  assert (Cpq : Forall consistent (p ++ q)%list)
    by (apply Forall_app; split; assumption).
  assert (Hfrom : from (Array (map ISpec (p ++ q)%list)) = Return {| captured := (p ++ q)%list |}).
  { unfold from. rewrite (mapColors_rebuild _ Cpq). reflexivity. }
  split; [unfold from; rewrite Hp; reflexivity |].
  split; [unfold or; rewrite Hq; cbn [bind captured]; exact Hfrom |].
  split; [exact Hfrom |].
  split; [intros needle; reflexivity |].
  split.
  { intros needle qr qg qb d value Hparse Hexact Hscan. split.
    - unfold call, nearestColor. cbn [captured]. rewrite Hparse. cbn [bind].
      rewrite Hscan. reflexivity.
    - exact (scan_exact_spec qr qg qb _ d value Hexact (consistent_exact _ Cpq) Hscan). }
  split; [| intros R; reflexivity].
  intros R r HR Hr.
  pose proof (mapColors_consistent R r HR Hr) as Cr.
  unfold or. rewrite Hr. cbn [bind captured]. unfold from.
  rewrite mapColors_rebuild by (apply Forall_app; split; assumption).
  reflexivity.
Qed.

Lemma or_concatenates_witness :
  let P := Object [("maroon", IString "#800"); ("light yellow", IRgb (Rgb 255 255 51))] in
  let Q := Array [IString "#eee"; IString "#444"] in
  let p := [ {| name := Some "maroon"; source := "#800"; rgb := Rgb 136 0 0 |};
             {| name := Some "light yellow"; source := "#ffff33"; rgb := Rgb 255 255 51 |} ] in
  let q := [ {| name := None; source := "#eee"; rgb := Rgb 238 238 238 |};
             {| name := None; source := "#444"; rgb := Rgb 68 68 68 |} ] in
  from P = Return {| captured := p |}
  /\ or {| captured := p |} Q = Return {| captured := (p ++ q)%list |}
  /\ from (Array (map ISpec (p ++ q)%list)) = Return {| captured := (p ++ q)%list |}
  /\ (forall needle : jsval,
      call {| captured := (p ++ q)%list |} needle
      = nearestColor needle (Some (p ++ q)%list))
  /\ (forall (needle : jsval) (qr qg qb d : Z) (value : ColorSpec),
      parseColor needle = Return (Rgb qr qg qb) ->
      exact_channels (Rgb qr qg qb) = true ->
      scan (Rgb qr qg qb) (p ++ q)%list = Some (d, value) ->
      call {| captured := (p ++ q)%list |} needle = Return (result value d)
      /\ exists (i : nat) (r g b : Z),
          nth_error (p ++ q)%list i = Some value
          /\ rgb value = Rgb r g b
          /\ d = (qr - r) ^ 2 + (qg - g) ^ 2 + (qb - b) ^ 2
          /\ (forall j c r' g' b',
              nth_error (p ++ q)%list j = Some c -> rgb c = Rgb r' g' b' ->
              d <= (qr - r') ^ 2 + (qg - g') ^ 2 + (qb - b') ^ 2)
          /\ (forall j c r' g' b',
              (j < i)%nat -> nth_error (p ++ q)%list j = Some c ->
              rgb c = Rgb r' g' b' ->
              d < (qr - r') ^ 2 + (qg - g') ^ 2 + (qb - b') ^ 2))
  /\ (forall (R : colors) (r : list ColorSpec),
      colors_in_range R = true -> mapColors R = Return r ->
      or {| captured := (p ++ q)%list |} R
      = Return {| captured := ((p ++ q) ++ r)%list |})
  /\ (forall R : colors, matcher_from {| captured := (p ++ q)%list |} R = from R).
Proof.
  intros P Q p q.
  apply (or_concatenates P Q p q); reflexivity.
Defined.

(** With a triple that has a channel above 255 in the first collection,
    [from] gives a matcher that answers queries, and [or] on that matcher
    throws. *)
Lemma or_concatenates_counterexample :
  from (Array [IRgb (Rgb 256 0 0)])
  = Return {| captured := [ {| name := None; source := "#1000000"; rgb := Rgb 256 0 0 |} ] |}
  /\ call {| captured := [ {| name := None; source := "#1000000"; rgb := Rgb 256 0 0 |} ] |}
          (VString "#f00")
     = Return (Bare "#1000000")
  /\ mapColors (Array []) = Return []
  /\ or {| captured := [ {| name := None; source := "#1000000"; rgb := Rgb 256 0 0 |} ] |}
        (Array [])
     = Throw (InvalidColor "#1000000").
Proof. repeat split; reflexivity. Qed.

(** ** The examples of the source's documentation *)

(** The examples given with [nearestColor.from]: [getColor] is [from] of
    the named colours, [getBGColor] is [getColor.from] of the background
    colours, and [getAnyColor] is [getColor.or] of them. *)
Example from_documentation :
  let colors := Object [ ("maroon", IString "#800");
                         ("light yellow", IRgb (Rgb 255 255 51));
                         ("pale blue", IString "#def");
                         ("white", IString "fff") ] in
  let bgColors := Array [IString "#eee"; IString "#444"] in
  let maroon := {| name := Some "maroon"; source := "#800"; rgb := Rgb 136 0 0 |} in
  let yellow := {| name := Some "light yellow"; source := "#ffff33";
                   rgb := Rgb 255 255 51 |} in
  let blue := {| name := Some "pale blue"; source := "#def"; rgb := Rgb 221 238 255 |} in
  let white := {| name := Some "white"; source := "fff"; rgb := Rgb 255 255 255 |} in
  let eee := {| name := None; source := "#eee"; rgb := Rgb 238 238 238 |} in
  let d444 := {| name := None; source := "#444"; rgb := Rgb 68 68 68 |} in
  let getColor := {| captured := [maroon; yellow; blue; white] |} in
  let getBGColor := {| captured := [eee; d444] |} in
  let getAnyColor := {| captured := [maroon; yellow; blue; white; eee; d444] |} in
  from colors = Return getColor
  /\ matcher_from getColor bgColors = Return getBGColor
  /\ or getColor bgColors = Return getAnyColor
  /\ call getColor (VString "ffe")
     = Return (Match "white" "fff" (Rgb 255 255 255) (IZR 17))
  /\ call getColor (VString "#f00")
     = Return (Match "maroon" "#800" (Rgb 136 0 0) (IZR 119))
  /\ call getColor (VString "#ff0")
     = Return (Match "light yellow" "#ffff33" (Rgb 255 255 51) (IZR 51))
  /\ call getBGColor (VString "#fff") = Return (Bare "#eee")
  /\ call getBGColor (VString "#000") = Return (Bare "#444")
  /\ call getAnyColor (VString "#f00")
     = Return (Match "maroon" "#800" (Rgb 136 0 0) (IZR 119))
  /\ call getAnyColor (VString "#888") = Return (Bare "#444")
  /\ from (Object [("invalid", IString "foo")]) = Throw (InvalidColor "foo").
Proof.
  intros colors bgColors maroon yellow blue white eee d444 getColor getBGColor getAnyColor.
  split; [reflexivity |]. split; [reflexivity |]. split; [reflexivity |].
  unfold call. cbn [captured].
  split.
  { rewrite (nearestColor_eval _ (Rgb 255 255 238) _ (17 * 17) white) by reflexivity.
    unfold result. cbn [truthy name source rgb white].
    rewrite sqrt_IZR_square by lia. reflexivity. }
  split.
  { rewrite (nearestColor_eval _ (Rgb 255 0 0) _ (119 * 119) maroon) by reflexivity.
    unfold result. cbn [truthy name source rgb maroon].
    rewrite sqrt_IZR_square by lia. reflexivity. }
  split.
  { rewrite (nearestColor_eval _ (Rgb 255 255 0) _ (51 * 51) yellow) by reflexivity.
    unfold result. cbn [truthy name source rgb yellow].
    rewrite sqrt_IZR_square by lia. reflexivity. }
  split; [reflexivity |]. split; [reflexivity |].
  split.
  { rewrite (nearestColor_eval _ (Rgb 255 0 0) _ (119 * 119) maroon) by reflexivity.
    unfold result. cbn [truthy name source rgb maroon].
    rewrite sqrt_IZR_square by lia. reflexivity. }
  split; reflexivity.
Qed.

(** The example of the README. *)
Example readme_example :
  let red := {| name := Some "red"; source := "#f00"; rgb := Rgb 255 0 0 |} in
  let yellow := {| name := Some "yellow"; source := "#ff0"; rgb := Rgb 255 255 0 |} in
  let blue := {| name := Some "blue"; source := "#00f"; rgb := Rgb 0 0 255 |} in
  from (Object [("red", IString "#f00"); ("yellow", IString "#ff0"); ("blue", IString "#00f")])
  = Return {| captured := [red; yellow; blue] |}
  /\ call {| captured := [red; yellow; blue] |} (VString "#800")
     = Return (Match "red" "#f00" (Rgb 255 0 0) (IZR 119))
  /\ call {| captured := [red; yellow; blue] |} (VString "#ffe")
     = Return (Match "yellow" "#ff0" (Rgb 255 255 0) (IZR 238)).
Proof.
  intros red yellow blue. split; [reflexivity |]. unfold call. cbn [captured]. split.
  - rewrite (nearestColor_eval _ (Rgb 136 0 0) _ (119 * 119) red) by reflexivity.
    unfold result. cbn [truthy name source rgb red].
    rewrite sqrt_IZR_square by lia. reflexivity.
  - rewrite (nearestColor_eval _ (Rgb 255 255 238) _ (238 * 238) yellow) by reflexivity.
    unfold result. cbn [truthy name source rgb yellow].
    rewrite sqrt_IZR_square by lia. reflexivity.
Qed.

(** The examples given with [parseColor], [createColorSpec],
    [parseComponentValue], [rgbToHex] and [leadingZero]. *)
Example private_functions_documentation :
  parseColor (VObject (Rgb 3 22 111)) = Return (Rgb 3 22 111)
  /\ parseColor (VString "#f00") = Return (Rgb 255 0 0)
  /\ parseColor (VString "#04fbc8") = Return (Rgb 4 251 200)
  /\ parseColor (VString "#FF0") = Return (Rgb 255 255 0)
  /\ parseColor (VString "rgb(3, 10, 100)") = Return (Rgb 3 10 100)
  /\ parseColor (VString "rgb(50%, 0%, 50%)") = Return (Rgb 128 0 128)
  /\ parseColor (VString "aqua") = Return (Rgb 0 255 255)
  /\ parseColor (VString "fff") = Return (Rgb 255 255 255)
  /\ parseColor (VString "foo") = Throw (InvalidColor "foo")
  /\ createColorSpec (IString "#800") None
     = Return {| name := None; source := "#800"; rgb := Rgb 136 0 0 |}
  /\ createColorSpec (IString "#800") (Some "maroon")
     = Return {| name := Some "maroon"; source := "#800"; rgb := Rgb 136 0 0 |}
  /\ parseComponentValue "100" = 100
  /\ parseComponentValue "100%" = 255
  /\ parseComponentValue "50%" = 128
  /\ rgbToHex (Rgb 255 128 0) = Return "#ff8000"
  /\ leadingZero "1" = "01"
  /\ leadingZero "12" = "12".
Proof. repeat split; reflexivity. Qed.


(** * Further properties *)

(** ** What parseColor accepts *)

(** X1. [parseColor] returns a triple on a string exactly when the string
    belongs to one of the three grammars.  On any other string it throws
    the error that names the string, unless the string is a property name
    [STANDARD_COLORS] inherits: then it throws a [TypeError] or returns
    [Object.prototype]. *)
Theorem parseColor_accepts_the_grammars :
  forall s : string,
    ((exists r g b : Z, parseColor (VString s) = Return (Rgb r g b)) <-> supported s)
    /\ (~ supported s ->
        parseColor (VString s) = Throw (InvalidColor s)
        \/ (inherited_name s
            /\ (parseColor (VString s) = Throw (TypeError NotAFunction)
                \/ parseColor (VString s) = Return ObjectPrototype))).
Proof.
  intros s.
  assert (Hcases :
            supported s
            \/ parseColor (VString s) = Throw (InvalidColor s)
            \/ (inherited_name s
                /\ (parseColor (VString s) = Throw (TypeError NotAFunction)
                    \/ parseColor (VString s) = Return ObjectPrototype))).
  { unfold parseColor, parseColor_depth, STANDARD_COLORS_get.
    destruct (assoc s STANDARD_COLORS) as [hex |] eqn:Eown.
    - left. left. exists hex. exact Eown.
    - destruct (assoc s OBJECT_PROTOTYPE) as [v |] eqn:Einh.
      + right. right. split; [exists v; exact Einh |].
        destruct (STANDARD_COLORS_get_inherited s v Einh) as [-> | ->]; auto.
      + destruct (hexMatch s) as [body |] eqn:Ehex.
        * left. right. left. apply hexMatch_spec in Ehex.
          destruct Ehex as (hash & E). exists hash, body. exact E.
        * destruct (rgbMatch s) as [[[a1 a2] a3] |] eqn:Ergb.
          -- left. right. right. apply rgbMatch_spec in Ergb.
             destruct Ergb as (c1 & c2 & c3 & Hform & _). exists c1, c2, c3. exact Hform.
          -- right. left. reflexivity. }
  split; [split |].
  - intros (r & g & b & Hparse).
    destruct Hcases as [H | [H | (_ & [H | H])]];
      [exact H | rewrite H in Hparse; discriminate Hparse ..].
  - apply parseColor_supported.
  - intros Hno. destruct Hcases as [H | H]; [contradiction | exact H].
Qed.

Lemma parseColor_accepts_the_grammars_witness :
  parseColor (VString "foo") = Throw (InvalidColor "foo")
  \/ (inherited_name "foo"
      /\ (parseColor (VString "foo") = Throw (TypeError NotAFunction)
          \/ parseColor (VString "foo") = Return ObjectPrototype)).
Proof.
  apply (proj2 (parseColor_accepts_the_grammars "foo")).
  intros Hsup. destruct (parseColor_supported "foo" Hsup) as (r & g & b & H).
  vm_compute in H. discriminate H.
Defined.

(** ** The range of the parsed channels *)

(** X2. Whatever string it is given, [parseColor] returns no channel that
    is negative or above 2547; the channels of a string of the hex
    grammar and of a standard name are from 0 to 255. *)
Theorem parseColor_channel_range :
  forall (s : string) (r g b : Z),
    parseColor (VString s) = Return (Rgb r g b) ->
    (0 <= r <= 2547 /\ 0 <= g <= 2547 /\ 0 <= b <= 2547)
    /\ (standard_name s \/ hex_form s ->
        0 <= r <= 255 /\ 0 <= g <= 255 /\ 0 <= b <= 255).
Proof.
  intros s r g b Hparse.
  destruct (parseColor_channel_cases s r g b Hparse) as [H | (Hn & Hh & H)].
  - split; [| intros _; exact H]. lia.
  - split; [exact H |]. intros [Hs | Hs]; contradiction.
Qed.

Lemma parseColor_channel_range_witness :
  (0 <= 2547 <= 2547 /\ 0 <= 0 <= 2547 /\ 0 <= 300 <= 2547)
  /\ (standard_name "rgb(999%,0,300)" \/ hex_form "rgb(999%,0,300)" ->
      0 <= 2547 <= 255 /\ 0 <= 0 <= 255 /\ 0 <= 300 <= 255).
Proof.
  apply (parseColor_channel_range "rgb(999%,0,300)" 2547 0 300). reflexivity.
Defined.

(** ** Standard names *)

(** X3. Each of the seventeen names of [STANDARD_COLORS] parses to what
    the hex string the table gives for it parses to, a triple of channels
    from 0 to 255; the names are case-sensitive: the name in upper case
    is rejected. *)
Theorem parseColor_standard_names :
  forall (name hex : string),
    assoc name STANDARD_COLORS = Some hex ->
    parseColor (VString name) = parseColor (VString hex)
    /\ hex_form hex
    /\ (exists r g b : Z,
           parseColor (VString name) = Return (Rgb r g b)
           /\ 0 <= r <= 255 /\ 0 <= g <= 255 /\ 0 <= b <= 255)
    /\ parseColor (VString (map_chars to_upper name))
       = Throw (InvalidColor (map_chars to_upper name)).
Proof.
  intros name hex. unfold STANDARD_COLORS, assoc.
  repeat match goal with
         | |- context [String.eqb name ?k] =>
             destruct (String.eqb_spec name k) as [-> | _]
         end;
    intros H; inversion H; subst hex;
      (split; [reflexivity |]);
      (split; [exists true; eexists; split; [reflexivity |];
               split; [reflexivity | cbn [length]; lia] |]);
      (split; [do 3 eexists; split; [reflexivity | repeat split; discriminate] |]);
      reflexivity.
Qed.

Lemma parseColor_standard_names_witness :
  parseColor (VString "orange") = parseColor (VString "#ffa500")
  /\ hex_form "#ffa500"
  /\ (exists r g b : Z,
         parseColor (VString "orange") = Return (Rgb r g b)
         /\ 0 <= r <= 255 /\ 0 <= g <= 255 /\ 0 <= b <= 255)
  /\ parseColor (VString (map_chars to_upper "orange"))
     = Throw (InvalidColor (map_chars to_upper "orange")).
Proof.
  apply (parseColor_standard_names "orange" "#ffa500"). reflexivity.
Defined.

(** ** The case of letters *)

Lemma case_hex_digit (c : ascii) :
  is_hex_digit c = true ->
  is_hex_digit (to_upper c) = true /\ hex_value (to_upper c) = hex_value c
  /\ is_hex_digit (to_lower c) = true /\ hex_value (to_lower c) = hex_value c.
Proof.
  destruct c as [[|] [|] [|] [|] [|] [|] [|] [|]];
    intros H; try discriminate H; repeat split; reflexivity.
Qed.

Lemma parseInt16_pair_case (f : ascii -> ascii) (x y : ascii) :
  (forall c, is_hex_digit c = true ->
             is_hex_digit (f c) = true /\ hex_value (f c) = hex_value c) ->
  is_hex_digit x = true -> is_hex_digit y = true ->
  parseInt16 (String (f x) (String (f y) "")) = parseInt16 (String x (String y "")).
Proof.
  intros Hf Hx Hy.
  destruct (Hf x Hx) as [Hfx Vx]. destruct (Hf y Hy) as [Hfy Vy].
  rewrite !parseInt16_pair by assumption. rewrite Vx, Vy. reflexivity.
Qed.

(** [parseColor] on a hex string whose letters go through [f], a change
    of case: the result is the same. *)
Lemma parseColor_hex_case (f : ascii -> ascii) (s : string) :
  f "#"%char = "#"%char ->
  (forall c, is_hex_digit c = true ->
             is_hex_digit (f c) = true /\ hex_value (f c) = hex_value c) ->
  hex_form s ->
  parseColor (VString (map_chars f s)) = parseColor (VString s).
Proof.
  intros Hhash Hf (hash & body & -> & Hall & Hlen).
  assert (Hmap : map_chars f ((if hash then "#" else "") ++ body)
                 = (if hash then "#" else "") ++ map_chars f body)
    by (destruct hash; cbn [append map_chars]; rewrite ?Hhash; reflexivity).
  rewrite Hmap. clear Hmap.
  destruct body as [| c1 [| c2 [| c3 [| c4 [| c5 [| c6 [| c7 rest]]]]]]];
    cbn [length] in Hlen; try (exfalso; lia);
    cbn [all_chars] in Hall;
    repeat (apply andb_true_iff in Hall; let H := fresh "Hc" in destruct Hall as [H Hall]);
    cbn [map_chars].
  - rewrite (parseColor_hex3 c1 c2 c3 hash) by assumption.
    rewrite (parseColor_hex3 (f c1) (f c2) (f c3) hash) by (apply Hf; assumption).
    rewrite (proj2 (Hf c1 Hc)), (proj2 (Hf c2 Hc0)), (proj2 (Hf c3 Hc1)). reflexivity.
  - rewrite (parseColor_hex6 c1 c2 c3 c4 c5 c6 hash) by assumption.
    rewrite (parseColor_hex6 (f c1) (f c2) (f c3) (f c4) (f c5) (f c6) hash)
      by (apply Hf; assumption).
    rewrite !(parseInt16_pair_case f) by assumption. reflexivity.
Qed.

(** [parseColor] on a string of the rgb grammar. *)
Lemma parseColor_rgb_form (s : string) (c1 c2 c3 : component_text) :
  rgb_form s c1 c2 c3 ->
  parseColor (VString s)
  = Return (Rgb (component_value c1) (component_value c2) (component_value c3)).
Proof.
  intros Hform.
  destruct (STANDARD_COLORS_get_rgb_form s c1 c2 c3 Hform) as [Hget Hhex].
  unfold parseColor, parseColor_depth. rewrite Hget, Hhex.
  rewrite (proj2 (rgbMatch_spec s _ _ _))
    by (exists c1, c2, c3; repeat split; exact Hform).
  destruct Hform as (_ & _ & _ & _ & _ & _ & _ & _ & _ & _ & _ & _ & _ & _
                     & H1 & H2 & H3 & _).
  rewrite !parseComponentValue_component by assumption. reflexivity.
Qed.

(** X4. The case of letters does not matter in a hex string: it parses
    to the same triple in upper case and in lower case.  Nor does the
    case of the letters r, g, b or the white space matter in an rgb
    string: two strings of the rgb grammar with the same components parse
    to the same triple. *)
Theorem parseColor_case_insensitive :
  (forall s : string,
      hex_form s ->
      parseColor (VString (map_chars to_upper s)) = parseColor (VString s)
      /\ parseColor (VString (map_chars to_lower s)) = parseColor (VString s))
  /\ (forall (s s' : string) (c1 c2 c3 : component_text),
      rgb_form s c1 c2 c3 -> rgb_form s' c1 c2 c3 ->
      parseColor (VString s) = parseColor (VString s')).
Proof.
  split.
  - intros s Hs. split; apply parseColor_hex_case;
      try reflexivity; try exact Hs; intros c Hc;
      destruct (case_hex_digit c Hc) as (U1 & U2 & L1 & L2); split; assumption.
  - intros s s' c1 c2 c3 H H'.
    rewrite (parseColor_rgb_form s c1 c2 c3 H), (parseColor_rgb_form s' c1 c2 c3 H').
    reflexivity.
Qed.

Lemma parseColor_case_insensitive_witness :
  (parseColor (VString (map_chars to_upper "#04fbC8")) = parseColor (VString "#04fbC8")
   /\ parseColor (VString (map_chars to_lower "#04fbC8")) = parseColor (VString "#04fbC8"))
  /\ parseColor (VString "rgb(3,10,50%)") = parseColor (VString "RgB( 3,  10,50% )").
Proof.
  split.
  - apply (proj1 parseColor_case_insensitive "#04fbC8").
    exists true, "04fbC8". repeat split. right. reflexivity.
  - apply (proj2 parseColor_case_insensitive "rgb(3,10,50%)" "RgB( 3,  10,50% )"
             {| digits := "3"; percent := false |}
             {| digits := "10"; percent := false |}
             {| digits := "50"; percent := true |}).
    + exists "r"%char, "g"%char, "b"%char, "", "", "", "".
      repeat split; auto.
    + exists "R"%char, "g"%char, "B"%char, " ", "  ", "", " ".
      repeat split; auto.
Defined.

(** ** Percentages *)

Lemma parseComponentValue_percent (d : string) :
  digits_ok d = true ->
  parseComponentValue (d ++ "%") = (255 * decimal_value d + 50) / 100.
Proof.
  intros Hok.
  exact (parseComponentValue_component {| digits := d; percent := true |} Hok).
Qed.

(** X5. On percentages [parseComponentValue] is increasing, depends on
    the value of the digits only (leading zeros do not count), and maps
    the percentages from 0 to 100 into the channels from 0 to 255, 0 to 0
    and 100 to 255. *)
Theorem parseComponentValue_percent_scale :
  forall d d' : string,
    digits_ok d = true -> digits_ok d' = true ->
    (decimal_value d <= decimal_value d' ->
     parseComponentValue (d ++ "%") <= parseComponentValue (d' ++ "%"))
    /\ (decimal_value d = decimal_value d' ->
        parseComponentValue (d ++ "%") = parseComponentValue (d' ++ "%"))
    /\ (decimal_value d <= 100 -> 0 <= parseComponentValue (d ++ "%") <= 255)
    /\ (decimal_value d = 0 -> parseComponentValue (d ++ "%") = 0)
    /\ (decimal_value d = 100 -> parseComponentValue (d ++ "%") = 255).
Proof.
  intros d d' Hd Hd'.
  rewrite !parseComponentValue_percent by assumption.
  destruct (digits_ok_inv d Hd) as [Hall _].
  pose proof (decimal_value_range d Hall) as Hr.
  split; [intros Hle; apply Z.div_le_mono; lia |].
  split; [intros ->; reflexivity |].
  split.
  { intros Hle. split; [apply Z.div_pos; lia |].
    assert ((255 * decimal_value d + 50) / 100 < 256)
      by (apply Z.div_lt_upper_bound; lia).
    lia. }
  split; intros ->; reflexivity.
Qed.

Lemma parseComponentValue_percent_scale_witness :
  (decimal_value "007" <= decimal_value "7" ->
   parseComponentValue ("007" ++ "%") <= parseComponentValue ("7" ++ "%"))
  /\ (decimal_value "007" = decimal_value "7" ->
      parseComponentValue ("007" ++ "%") = parseComponentValue ("7" ++ "%"))
  /\ (decimal_value "007" <= 100 -> 0 <= parseComponentValue ("007" ++ "%") <= 255)
  /\ (decimal_value "007" = 0 -> parseComponentValue ("007" ++ "%") = 0)
  /\ (decimal_value "007" = 100 -> parseComponentValue ("007" ++ "%") = 255).
Proof.
  apply (parseComponentValue_percent_scale "007" "7"); reflexivity.
Defined.

(** ** What the rgb pattern rejects *)

Lemma is_space_not_comma (a : ascii) : is_space a = true -> Ascii.eqb a "," = false.
Proof.
  intros H. destruct (Ascii.eqb_spec a ",") as [-> | _]; [discriminate H | reflexivity].
Qed.

Lemma is_digit_not_comma (a : ascii) :
  is_digit a = true -> Ascii.eqb a "," = false /\ Ascii.eqb a "%" = false.
Proof.
  intros H. split.
  - destruct (Ascii.eqb_spec a ",") as [-> | _]; [discriminate H | reflexivity].
  - destruct (Ascii.eqb_spec a "%") as [-> | _]; [discriminate H | reflexivity].
Qed.

(** X6. The rgb pattern allows no white space between a component and
    the comma after it, and no component of more than three digits:
    [parseColor] throws on such strings, whatever follows. *)
Theorem parseColor_rgb_rejections :
  (forall (c1 : component_text) (a : ascii) (rest : string),
      digits_ok (digits c1) = true -> is_space a = true ->
      parseColor (VString ("rgb(" ++ component_string c1 ++ String a rest))
      = Throw (InvalidColor ("rgb(" ++ component_string c1 ++ String a rest)))
  /\ (forall (x1 x2 x3 x4 : ascii) (rest : string),
      is_digit x1 = true -> is_digit x2 = true -> is_digit x3 = true ->
      is_digit x4 = true ->
      parseColor (VString ("rgb(" ++ String x1 (String x2 (String x3 (String x4 rest)))))
      = Throw (InvalidColor
                 ("rgb(" ++ String x1 (String x2 (String x3 (String x4 rest)))))).
Proof.
  split.
  - intros c1 a rest Hok Ha.
    unfold parseColor, parseColor_depth.
    rewrite STANDARD_COLORS_get_paren, hexMatch_rgb.
    assert (Hm : rgbMatch ("rgb(" ++ component_string c1 ++ String a rest) = None).
    { unfold rgbMatch.
      cbn [append expect_ci expect obind Ascii.eqb Bool.eqb orb].
      pose proof (skip_spaces_app "" _ eq_refl
                    (component_string_head c1 (String a rest) Hok)) as Hs.
      cbn [append] in Hs. rewrite Hs.
      rewrite (component_app c1)
        by (exact Hok || (cbn [head_is]; exact (is_space_not_component a Ha))).
      cbn [obind snd expect]. rewrite (is_space_not_comma a Ha). reflexivity. }
    rewrite Hm. reflexivity.
  - intros x1 x2 x3 x4 rest H1 H2 H3 H4.
    unfold parseColor, parseColor_depth.
    rewrite STANDARD_COLORS_get_paren, hexMatch_rgb.
    assert (Hm : rgbMatch ("rgb(" ++ String x1 (String x2 (String x3 (String x4 rest))))
                 = None).
    { unfold rgbMatch.
      cbn [append expect_ci expect obind Ascii.eqb Bool.eqb orb skip_spaces].
      rewrite (is_digit_not_space x1 H1).
      unfold component. cbn [take_digits]. rewrite H1, H2, H3.
      destruct (is_digit_not_comma x4 H4) as [Hc Hp]. rewrite Hp.
      cbn [obind snd expect]. rewrite Hc. reflexivity. }
    rewrite Hm. reflexivity.
Qed.

Lemma parseColor_rgb_rejections_witness :
  parseColor (VString ("rgb(" ++ component_string {| digits := "12"; percent := true |}
                              ++ String " " ",0,0)"))
  = Throw (InvalidColor ("rgb(" ++ component_string {| digits := "12"; percent := true |}
                                ++ String " " ",0,0)"))
  /\ parseColor (VString ("rgb(" ++ String "1" (String "0" (String "0" (String "0" ",0,0)")))))
     = Throw (InvalidColor
                ("rgb(" ++ String "1" (String "0" (String "0" (String "0" ",0,0)"))))).
Proof.
  split.
  - apply (proj1 parseColor_rgb_rejections); reflexivity.
  - apply (proj2 parseColor_rgb_rejections); reflexivity.
Defined.

(** ** Rendering and parsing back *)

Lemma parseColor_hash_range (t : string) (r g b : Z) :
  parseColor (VString (String "#" t)) = Return (Rgb r g b) ->
  0 <= r <= 255 /\ 0 <= g <= 255 /\ 0 <= b <= 255.
Proof.
  unfold parseColor, parseColor_depth. rewrite STANDARD_COLORS_get_hash.
  destruct (hexMatch (String "#" t)) as [body |] eqn:Ehex.
  - apply hexMatch_spec in Ehex. destruct Ehex as (hash & _ & Hall & Hlen).
    destruct (hex_channels_range body Hall Hlen) as (r' & g' & b' & E & Hr).
    rewrite E. intros Hp. inversion Hp; subst. exact Hr.
  - assert (Hm : rgbMatch (String "#" t) = None) by reflexivity.
    rewrite Hm. discriminate.
Qed.

(** X7. The string [rgbToHex] renders a triple to parses back to that
    triple exactly when the three channels are from 0 to 255; otherwise
    parsing it throws or gives another colour. *)
Theorem rgbToHex_parses_back_iff :
  forall (r g b : Z) (hex : string),
    rgbToHex (Rgb r g b) = Return hex ->
    (parseColor (VString hex) = Return (Rgb r g b)
     <-> (0 <= r <= 255 /\ 0 <= g <= 255 /\ 0 <= b <= 255)).
Proof.
  intros r g b hex Hhex. split.
  - cbn [rgbToHex] in Hhex. inversion Hhex as [E]. cbn [append].
    apply parseColor_hash_range.
  - intros (Hr & Hg & Hb).
    destruct (rgbToHex_parses r g b Hr Hg Hb) as (digits & E & Hparse).
    rewrite E in Hhex. inversion Hhex; subst hex. exact Hparse.
Qed.

Lemma rgbToHex_parses_back_iff_witness :
  parseColor (VString "#12c0000") = Return (Rgb 300 0 0)
  <-> (0 <= 300 <= 255 /\ 0 <= 0 <= 255 /\ 0 <= 0 <= 255).
Proof.
  apply (rgbToHex_parses_back_iff 300 0 0 "#12c0000"). reflexivity.
Defined.

(** ** Searching: exact matches, the default palette, the result's shape *)

(** What a search that returns has returned. *)
Lemma nearestColor_Return_inv (needle : jsval) (colors : list ColorSpec)
    (res : MatchResult) :
  nearestColor needle (Some colors) = Return res ->
  exists (o : RGB) (d : Z) (value : ColorSpec),
    parseColor needle = Return o /\ scan o colors = Some (d, value)
    /\ In value colors /\ res = result value d.
Proof.
  unfold nearestColor. intros H.
  apply bind_Return in H. destruct H as (o & Hparse & H).
  pose proof (scan_spec o colors) as Hspec.
  destruct (scan o colors) as [[d value] |] eqn:Hscan; [| discriminate H].
  destruct Hspec as (i & Hi & _). inversion H.
  exists o, d, value.
  split; [exact Hparse |]. split; [exact Hscan |].
  split; [exact (nth_error_In _ _ Hi) | reflexivity].
Qed.

(** X8. When the palette holds the query's own colour, the search
    returns the first entry that has it, at distance 0. *)
Theorem nearestColor_exact_match :
  forall (needle : jsval) (qr qg qb : Z) (colors : list ColorSpec)
         (i : nat) (value : ColorSpec),
    parseColor needle = Return (Rgb qr qg qb) ->
    nth_error colors i = Some value ->
    rgb value = Rgb qr qg qb ->
    (forall j c, (j < i)%nat -> nth_error colors j = Some c -> rgb c <> Rgb qr qg qb) ->
    nearestColor needle (Some colors) = Return (result value 0)
    /\ sqrt (IZR 0) = IZR 0
    /\ (forall n, name value = Some n -> n <> "" ->
        nearestColor needle (Some colors)
        = Return (Match n (source value) (Rgb qr qg qb) (IZR 0))).
Proof.
  intros needle qr qg qb colors i value Hparse Hi Hrgb Hfirst.
  assert (Hres : nearestColor needle (Some colors) = Return (result value 0)).
  { pose proof (scan_spec (Rgb qr qg qb) colors) as Hspec.
    assert (Hd : distanceSq (Rgb qr qg qb) (rgb value) = Num 0)
      by (rewrite Hrgb; apply distanceSq_same).
    destruct (scan (Rgb qr qg qb) colors) as [[m v] |] eqn:Hscan.
    - destruct Hspec as (i0 & Hi0 & Hm & Hle & Hlt).
      pose proof (Hle i value 0 Hi Hd) as Hm0.
      pose proof (distanceSq_nonneg _ _ _ Hm) as Hm1.
      assert (m = 0) by lia. subst m.
      assert (Hv : rgb v = Rgb qr qg qb).
      { destruct (rgb v) as [r g b |]; [| discriminate Hm].
        destruct (Z.eq_dec r qr) as [-> | Hr];
          [destruct (Z.eq_dec g qg) as [-> | Hg];
           [destruct (Z.eq_dec b qb) as [-> | Hb]; [reflexivity |] |] |];
          exfalso;
          assert (Hpos : 0 < 0)
            by (apply (proj2 (distanceSq_sign _ _ _ _ _ _ _ Hm)); congruence);
          lia. }
      assert (i0 = i).
      { destruct (Nat.lt_trichotomy i0 i) as [Hlt' | [Heq | Hgt]].
        - exfalso. exact (Hfirst i0 v Hlt' Hi0 Hv).
        - exact Heq.
        - exfalso. pose proof (Hlt i value 0 Hgt Hi Hd). lia. }
      subst i0. rewrite Hi in Hi0. inversion Hi0; subst v.
      exact (nearestColor_eval needle _ colors 0 value Hparse Hscan).
    - apply nth_error_In in Hi. contradiction (Hspec value Hi 0). }
  assert (Hsqrt : sqrt (IZR 0) = IZR 0) by exact sqrt_0.
  split; [exact Hres |]. split; [exact Hsqrt |].
  intros n Hn Hne. rewrite Hres. unfold result. rewrite Hn, Hrgb, Hsqrt.
  destruct n as [| a n]; [contradiction Hne; reflexivity | reflexivity].
Qed.

Lemma nearestColor_exact_match_witness :
  let red := {| name := Some "red"; source := "#f00"; rgb := Rgb 255 0 0 |} in
  let rouge := {| name := Some "rouge"; source := "#ff0000"; rgb := Rgb 255 0 0 |} in
  let blue := {| name := Some "blue"; source := "#00f"; rgb := Rgb 0 0 255 |} in
  nearestColor (VString "rgb(100%,0,0)") (Some [blue; red; rouge]) = Return (result red 0)
  /\ sqrt (IZR 0) = IZR 0
  /\ (forall n, name red = Some n -> n <> "" ->
      nearestColor (VString "rgb(100%,0,0)") (Some [blue; red; rouge])
      = Return (Match n (source red) (Rgb 255 0 0) (IZR 0))).
Proof.
  intros red rouge blue.
  apply (nearestColor_exact_match (VString "rgb(100%,0,0)") 255 0 0
           [blue; red; rouge] 1 red).
  - reflexivity.
  - reflexivity.
  - reflexivity.
  - intros j c Hj Hc. destruct j as [| j]; [| lia].
    inversion Hc. discriminate.
Defined.

(** X9. Without a palette argument, a query that parses to a triple of
    channels of at most 2^24 in absolute value always gets an answer, and
    the answer is one of the seven strings of the default palette, never
    a record. *)
Theorem nearestColor_default_palette_total :
  forall (needle : jsval) (qr qg qb : Z),
    parseColor needle = Return (Rgb qr qg qb) ->
    exact_channels (Rgb qr qg qb) = true ->
    exists s : string,
      In s ["#f00"; "#f80"; "#ff0"; "#0f0"; "#00f"; "#008"; "#808"]
      /\ nearestColor needle None = Return (Bare s).
Proof.
  intros needle qr qg qb Hparse Hq. unfold nearestColor. rewrite Hparse. cbn [bind].
  pose proof (scan_spec (Rgb qr qg qb) DEFAULT_COLORS) as Hspec.
  destruct (scan (Rgb qr qg qb) DEFAULT_COLORS) as [[d value] |].
  - destruct Hspec as (i & Hi & _). apply nth_error_In in Hi.
    exists (source value). unfold DEFAULT_COLORS in Hi. cbn [In] in Hi.
    repeat (destruct Hi as [<- | Hi]; [split; [cbn; tauto | reflexivity] |]).
    contradiction.
  - specialize (Hspec {| name := None; source := "#f00"; rgb := Rgb 255 0 0 |}
                      (or_introl eq_refl)).
    contradiction (Hspec ((qr - 255) ^ 2 + (qg - 0) ^ 2 + (qb - 0) ^ 2)).
    cbn [rgb]. exact (distanceSq_exact qr qg qb 255 0 0 Hq eq_refl).
Qed.

Lemma nearestColor_default_palette_total_witness :
  exists s : string,
    In s ["#f00"; "#f80"; "#ff0"; "#0f0"; "#00f"; "#008"; "#808"]
    /\ nearestColor (VString "rgb(999%, 300, 0%)") None = Return (Bare s).
Proof.
  apply (nearestColor_default_palette_total (VString "rgb(999%, 300, 0%)") 2547 300 0);
    reflexivity.
Defined.

Lemma createColorSpec_raw_name (i : input) (n : option string) (c : ColorSpec) :
  is_raw i = true -> createColorSpec i n = Return c -> name c = truthy n.
Proof.
  intros Hraw H. destruct i as [s | o | c0]; [| | discriminate Hraw];
    cbn [createColorSpec] in H.
  - unfold createColorSpec_string in H. apply bind_Return in H.
    destruct H as (o & _ & H). inversion H. reflexivity.
  - apply bind_Return in H. destruct H as (hex & _ & H). inversion H. reflexivity.
Qed.

Lemma mapColors_array_raw_names (elements : list input) (p : list ColorSpec) :
  forallb is_raw elements = true ->
  mapColors (Array elements) = Return p ->
  Forall (fun c => name c = None) p.
Proof.
  intros Hraw Hp. cbn [mapColors] in Hp. apply mapM_Forall2 in Hp.
  rewrite forallb_forall in Hraw.
  induction Hp as [| i c l p' Hic _ IH]; constructor.
  - exact (createColorSpec_raw_name i None c (Hraw i (or_introl eq_refl)) Hic).
  - apply IH. intros x Hx. apply Hraw. right. exact Hx.
Qed.

Lemma mapColors_object_raw_names (props : list (string * input)) (p : list ColorSpec) :
  forallb (fun prop => is_raw (snd prop) && negb (String.eqb (fst prop) "")) props
  = true ->
  mapColors (Object props) = Return p ->
  Forall (fun c => exists key, name c = Some key /\ key <> "" /\ In key (map fst props)) p.
Proof.
  intros Hraw Hp. cbn [mapColors] in Hp. apply mapM_Forall2 in Hp.
  rewrite forallb_forall in Hraw.
  induction Hp as [| prop c l p' Hic _ IH]; constructor.
  - pose proof (Hraw prop (or_introl eq_refl)) as Hprop.
    apply andb_true_iff in Hprop. destruct Hprop as [Hr Hk].
    rewrite (createColorSpec_raw_name _ _ c Hr Hic).
    destruct (fst prop) as [| a key] eqn:Ekey; [discriminate Hk |].
    exists (String a key). split; [reflexivity |]. split; [discriminate |].
    cbn [map]. left. exact Ekey.
  - assert (IH' := IH (fun x Hx => Hraw x (or_intror Hx))).
    eapply Forall_impl; [| exact IH'].
    intros c0 (key & Hn & Hne & Hk). exists key. split; [exact Hn |].
    split; [exact Hne |]. cbn [map]. right. exact Hk.
Qed.

(** X10. The kind of answer follows the kind of palette.  A matcher made
    from an array of strings and RGBs answers with the source of one of
    its entries, never with a record; a matcher made from an object with
    non-empty keys and strings or RGBs as values answers with a record
    whose name is one of the keys. *)
Theorem matcher_answer_kind :
  (forall (elements : list input) (m : matcher) (needle : jsval) (res : MatchResult),
      forallb is_raw elements = true ->
      from (Array elements) = Return m ->
      call m needle = Return res ->
      exists c : ColorSpec, In c (captured m) /\ res = Bare (source c))
  /\ (forall (props : list (string * input)) (m : matcher) (needle : jsval)
             (res : MatchResult),
      forallb (fun prop => is_raw (snd prop) && negb (String.eqb (fst prop) "")) props
      = true ->
      from (Object props) = Return m ->
      call m needle = Return res ->
      exists (c : ColorSpec) (key : string) (d : Z),
        In c (captured m) /\ In key (map fst props) /\ name c = Some key
        /\ res = Match key (source c) (rgb c) (sqrt (IZR d))).
Proof.
  split.
  - intros elements m needle res Hraw Hfrom Hcall.
    unfold from in Hfrom. apply bind_Return in Hfrom.
    destruct Hfrom as (p & Hp & Hm). inversion Hm; subst m. clear Hm.
    pose proof (mapColors_array_raw_names elements p Hraw Hp) as Hnames.
    unfold call in Hcall. cbn [captured] in *.
    apply nearestColor_Return_inv in Hcall.
    destruct Hcall as (o & d & value & _ & _ & Hin & ->).
    exists value. split; [exact Hin |].
    rewrite Forall_forall in Hnames. unfold result. rewrite (Hnames value Hin).
    reflexivity.
  - intros props m needle res Hraw Hfrom Hcall.
    unfold from in Hfrom. apply bind_Return in Hfrom.
    destruct Hfrom as (p & Hp & Hm). inversion Hm; subst m. clear Hm.
    pose proof (mapColors_object_raw_names props p Hraw Hp) as Hnames.
    unfold call in Hcall. cbn [captured] in *.
    apply nearestColor_Return_inv in Hcall.
    destruct Hcall as (o & d & value & _ & _ & Hin & ->).
    rewrite Forall_forall in Hnames.
    destruct (Hnames value Hin) as (key & Hn & Hne & Hk).
    exists value, key, d.
    split; [exact Hin |]. split; [exact Hk |]. split; [exact Hn |].
    unfold result. rewrite Hn.
    destruct key as [| a key]; [contradiction Hne; reflexivity | reflexivity].
Qed.

Lemma matcher_answer_kind_witness :
  (exists c : ColorSpec,
      In c [ {| name := None; source := "#eee"; rgb := Rgb 238 238 238 |};
             {| name := None; source := "#444444"; rgb := Rgb 68 68 68 |} ]
      /\ Bare "#444444" = Bare (source c))
  /\ (exists (c : ColorSpec) (key : string) (d : Z),
         In c [ {| name := Some "white"; source := "fff"; rgb := Rgb 255 255 255 |} ]
         /\ In key (map fst [("white", IString "fff")])
         /\ name c = Some key
         /\ Match "white" "fff" (Rgb 255 255 255) (sqrt (IZR 195075))
            = Match key (source c) (rgb c) (sqrt (IZR d))).
Proof.
  split.
  - apply (proj1 matcher_answer_kind
             [IString "#eee"; IRgb (Rgb 68 68 68)]
             {| captured := [ {| name := None; source := "#eee"; rgb := Rgb 238 238 238 |};
                              {| name := None; source := "#444444";
                                 rgb := Rgb 68 68 68 |} ] |}
             (VString "black") (Bare "#444444")); reflexivity.
  - apply (proj2 matcher_answer_kind
             [("white", IString "fff")]
             {| captured := [ {| name := Some "white"; source := "fff";
                                 rgb := Rgb 255 255 255 |} ] |}
             (VString "black")
             (Match "white" "fff" (Rgb 255 255 255) (sqrt (IZR 195075)))); reflexivity.
Defined.

(** ** Searching a palette that was extended *)

Lemma better_assoc (a b c : option (Z * ColorSpec)) :
  better a (better b c) = better (better a b) c.
Proof.
  destruct a as [[da va] |], b as [[db vb] |], c as [[dc vc] |];
    cbn [better]; try reflexivity;
    repeat (match goal with
            | |- context [?x <? ?y] => destruct (Z.ltb_spec x y)
            end; cbn [better]);
    try reflexivity; lia.
Qed.

Lemma scan_step_better (needle : RGB) (st : option (Z * ColorSpec)) (color : ColorSpec) :
  scan_step needle st color = better st (scan_step needle None color).
Proof.
  unfold scan_step. destruct (distanceSq needle (rgb color)) as [| d |];
    destruct st as [[m v] |]; reflexivity.
Qed.

Lemma fold_scan_step (needle : RGB) (q : list ColorSpec) :
  forall st, fold_left (scan_step needle) q st = better st (scan needle q).
Proof.
  induction q as [| c q IH]; intros st.
  - destruct st as [[m v] |]; reflexivity.
  - unfold scan. cbn [fold_left]. rewrite (IH (scan_step needle st c)).
    rewrite (IH (scan_step needle None c)).
    rewrite (scan_step_better needle st c). apply eq_sym, better_assoc.
Qed.

(** The loop over a concatenation selects the better of what it selects
    over the two parts, the first part's on a tie. *)
Lemma scan_app (needle : RGB) (p q : list ColorSpec) :
  scan needle (p ++ q) = better (scan needle p) (scan needle q).
Proof. unfold scan at 1. rewrite fold_left_app. apply fold_scan_step. Qed.

Lemma scan_Some_inv (needle : RGB) (colors : list ColorSpec) (d : Z) (value : ColorSpec) :
  scan needle colors = Some (d, value) ->
  In value colors /\ distanceSq needle (rgb value) = Num d
  /\ forall c dc, In c colors -> distanceSq needle (rgb c) = Num dc -> d <= dc.
Proof.
  intros H. pose proof (scan_spec needle colors) as Hspec. rewrite H in Hspec.
  destruct Hspec as (i & Hi & Hd & Hle & _).
  split; [exact (nth_error_In _ _ Hi) |]. split; [exact Hd |].
  intros c dc Hc Hdc. apply In_nth_error in Hc. destruct Hc as [j Hj].
  exact (Hle j c dc Hj Hdc).
Qed.

(** With channels of at most 2^24 in absolute value, a distance that is
    a number is the sum of the three squared differences of two
    triples. *)
Lemma distanceSq_Num_exact (qr qg qb : Z) (o : RGB) (d : Z) :
  exact_channels (Rgb qr qg qb) = true -> exact_channels o = true ->
  distanceSq (Rgb qr qg qb) o = Num d ->
  exists r g b, o = Rgb r g b /\ d = (qr - r) ^ 2 + (qg - g) ^ 2 + (qb - b) ^ 2.
Proof.
  intros Hq Ho H. destruct o as [r g b |]; [| discriminate H].
  rewrite (distanceSq_exact qr qg qb r g b Hq Ho) in H. inversion H.
  exists r, g, b. split; reflexivity.
Qed.

(** X11. Colours appended to a palette change the answer to a query only
    if one of them is strictly nearer to the query than the present
    answer, all channels being at most 2^24 in absolute value: if the
    squared distance of none of them is below that of the present answer,
    the answer over the extended palette is the answer over the palette;
    if that of one of them is, the answer is one of the appended colours,
    at a smaller distance. *)
Theorem nearestColor_extended_palette :
  forall (needle : jsval) (qr qg qb : Z) (p q : list ColorSpec) (d : Z)
         (value : ColorSpec),
    parseColor needle = Return (Rgb qr qg qb) ->
    exact_channels (Rgb qr qg qb) = true ->
    Forall (fun c => exact_channels (rgb c) = true) (p ++ q)%list ->
    scan (Rgb qr qg qb) p = Some (d, value) ->
    (exists r g b, rgb value = Rgb r g b
                   /\ d = (qr - r) ^ 2 + (qg - g) ^ 2 + (qb - b) ^ 2)
    /\ ((forall c r g b, In c q -> rgb c = Rgb r g b ->
                         d <= (qr - r) ^ 2 + (qg - g) ^ 2 + (qb - b) ^ 2) ->
        nearestColor needle (Some (p ++ q)%list) = nearestColor needle (Some p)
        /\ nearestColor needle (Some p) = Return (result value d))
    /\ ((exists c r g b, In c q /\ rgb c = Rgb r g b
                         /\ (qr - r) ^ 2 + (qg - g) ^ 2 + (qb - b) ^ 2 < d) ->
        exists (value' : ColorSpec) (r g b : Z),
          In value' q /\ rgb value' = Rgb r g b
          /\ (qr - r) ^ 2 + (qg - g) ^ 2 + (qb - b) ^ 2 < d
          /\ nearestColor needle (Some (p ++ q)%list)
             = Return (result value' ((qr - r) ^ 2 + (qg - g) ^ 2 + (qb - b) ^ 2))).
Proof.
  intros needle qr qg qb p q d value Hparse Hexact Hall Hp.
  apply Forall_app in Hall. destruct Hall as [Hallp Hallq].
  rewrite Forall_forall in Hallp, Hallq.
  pose proof (scan_app (Rgb qr qg qb) p q) as Happ. rewrite Hp in Happ.
  split; [| split].
  - destruct (scan_Some_inv _ _ _ _ Hp) as (Hin & Hd & _).
    exact (distanceSq_Num_exact qr qg qb _ d Hexact (Hallp value Hin) Hd).
  - intros Hfar.
    assert (Hpq : scan (Rgb qr qg qb) (p ++ q)%list = Some (d, value)).
    { rewrite Happ. destruct (scan (Rgb qr qg qb) q) as [[dq vq] |] eqn:Hq; [| reflexivity].
      apply scan_Some_inv in Hq. destruct Hq as (Hin & Hd & _).
      destruct (distanceSq_Num_exact qr qg qb _ dq Hexact (Hallq vq Hin) Hd)
        as (r & g & b & Hrgb & ->).
      pose proof (Hfar vq r g b Hin Hrgb) as Hle. cbn [better].
      destruct (Z.ltb_spec ((qr - r) ^ 2 + (qg - g) ^ 2 + (qb - b) ^ 2) d) as [Hlt | _];
        [lia | reflexivity]. }
    rewrite (nearestColor_eval needle _ _ d value Hparse Hpq).
    rewrite (nearestColor_eval needle _ _ d value Hparse Hp).
    split; reflexivity.
  - intros (c & r & g & b & Hin & Hrgb & Hlt).
    assert (Hdc : distanceSq (Rgb qr qg qb) (rgb c)
                  = Num ((qr - r) ^ 2 + (qg - g) ^ 2 + (qb - b) ^ 2)).
    { pose proof (Hallq c Hin) as Hc. rewrite Hrgb in *.
      exact (distanceSq_exact qr qg qb r g b Hexact Hc). }
    destruct (scan (Rgb qr qg qb) q) as [[dq vq] |] eqn:Hq.
    + apply scan_Some_inv in Hq. destruct Hq as (Hvq & Hd & Hle).
      pose proof (Hle c _ Hin Hdc) as Hdq.
      destruct (distanceSq_Num_exact qr qg qb _ dq Hexact (Hallq vq Hvq) Hd)
        as (r' & g' & b' & Hrgb' & Edq).
      exists vq, r', g', b'. split; [exact Hvq |]. split; [exact Hrgb' |].
      split; [lia |]. rewrite <- Edq.
      apply (nearestColor_eval needle _ _ dq vq Hparse).
      rewrite Happ. cbn [better].
      destruct (Z.ltb_spec dq d) as [_ | Hge]; [reflexivity | lia].
    + pose proof (scan_spec (Rgb qr qg qb) q) as Hspec. rewrite Hq in Hspec.
      contradiction (Hspec c Hin _ Hdc).
Qed.

Lemma nearestColor_extended_palette_witness :
  let p := [ {| name := None; source := "#f00"; rgb := Rgb 255 0 0 |} ] in
  let far := [ {| name := None; source := "#00f"; rgb := Rgb 0 0 255 |} ] in
  let near := [ {| name := None; source := "#f11"; rgb := Rgb 255 17 17 |} ] in
  (nearestColor (VString "#f22") (Some (p ++ far)%list)
   = nearestColor (VString "#f22") (Some p)
   /\ nearestColor (VString "#f22") (Some p) = Return (Bare "#f00"))
  /\ exists (value' : ColorSpec) (r g b : Z),
      In value' near /\ rgb value' = Rgb r g b
      /\ (255 - r) ^ 2 + (34 - g) ^ 2 + (34 - b) ^ 2 < 2312
      /\ nearestColor (VString "#f22") (Some (p ++ near)%list)
         = Return (result value' ((255 - r) ^ 2 + (34 - g) ^ 2 + (34 - b) ^ 2)).
Proof.
  intros p far near. split.
  - refine (proj1 (proj2 (nearestColor_extended_palette (VString "#f22") 255 34 34 p far
                    2312 {| name := None; source := "#f00"; rgb := Rgb 255 0 0 |}
                    eq_refl eq_refl _ eq_refl)) _).
    + repeat constructor.
    + intros c r g b [<- | []] H. inversion H. lia.
  - refine (proj2 (proj2 (nearestColor_extended_palette (VString "#f22") 255 34 34 p near
                    2312 {| name := None; source := "#f00"; rgb := Rgb 255 0 0 |}
                    eq_refl eq_refl _ eq_refl)) _).
    + repeat constructor.
    + exists {| name := None; source := "#f11"; rgb := Rgb 255 17 17 |}, 255, 17, 17.
      split; [left; reflexivity |]. split; [reflexivity | lia].
Defined.

Lemma nearestColor_nothing_selected (needle : jsval) (colors : list ColorSpec) :
  forall o, parseColor needle = Return o ->
            (forall c d, In c colors -> distanceSq o (rgb c) <> Num d) ->
            nearestColor needle (Some colors)
            = Throw (TypeError (ReadOfUndefined "name")).
Proof.
  intros o Hparse Hall. unfold nearestColor. rewrite Hparse. cbn [bind].
  destruct (scan o colors) as [[d v] |] eqn:Hscan; [| reflexivity].
  apply scan_Some_inv in Hscan. destruct Hscan as (Hin & Hd & _).
  contradiction (Hall v d Hin).
Qed.

(** X12. When the query does not parse, [nearestColor] throws the error
    of [parseColor].  When it parses, all channels being at most 2^24 in
    absolute value, [nearestColor] returns exactly when the query is a
    triple and some entry of the palette has a triple as its rgb;
    otherwise (the palette is empty, or the query or every entry's rgb is
    not a triple) reading [value.name] throws.  So it is for the query
    ['__proto__'], which parses to [Object.prototype], on every
    palette. *)
Theorem nearestColor_returns_iff :
  forall (needle : jsval) (colors : list ColorSpec),
    (forall e, parseColor needle = Throw e ->
               nearestColor needle (Some colors) = Throw e)
    /\ (forall o, parseColor needle = Return o ->
                  exact_channels o = true ->
                  Forall (fun c => exact_channels (rgb c) = true) colors ->
                  ((exists res, nearestColor needle (Some colors) = Return res)
                   <-> (is_triple o = true
                        /\ exists c, In c colors /\ is_triple (rgb c) = true))
                  /\ (is_triple o = false
                      \/ (forall c, In c colors -> is_triple (rgb c) = false) ->
                      nearestColor needle (Some colors)
                      = Throw (TypeError (ReadOfUndefined "name"))))
    /\ nearestColor (VString "__proto__") (Some colors)
       = Throw (TypeError (ReadOfUndefined "name")).
Proof.
  intros needle colors. split; [| split].
  - intros e Hparse. unfold nearestColor. rewrite Hparse. reflexivity.
  - intros o Hparse Ho Hcolors. rewrite Forall_forall in Hcolors. split.
    + split.
      * intros (res & H). apply nearestColor_Return_inv in H.
        destruct H as (o' & d & value & Hparse' & Hscan & Hin & _).
        rewrite Hparse in Hparse'. inversion Hparse'. subst o'.
        apply scan_Some_inv in Hscan. destruct Hscan as (_ & Hd & _).
        destruct o as [qr qg qb |]; [| discriminate Hd].
        split; [reflexivity |]. exists value. split; [exact Hin |].
        destruct (rgb value); [reflexivity | discriminate Hd].
      * intros (Ht & c & Hin & Hc).
        destruct o as [qr qg qb |]; [| discriminate Ht].
        destruct (rgb c) as [r g b |] eqn:Hrgb; [| discriminate Hc].
        destruct (scan (Rgb qr qg qb) colors) as [[d v] |] eqn:Hscan.
        -- exists (result v d). exact (nearestColor_eval needle _ colors d v Hparse Hscan).
        -- pose proof (scan_spec (Rgb qr qg qb) colors) as Hspec. rewrite Hscan in Hspec.
           contradiction (Hspec c Hin ((qr - r) ^ 2 + (qg - g) ^ 2 + (qb - b) ^ 2)).
           pose proof (Hcolors c Hin) as He. rewrite Hrgb in *.
           exact (distanceSq_exact qr qg qb r g b Ho He).
    + intros Hno. apply (nearestColor_nothing_selected needle colors o Hparse).
      intros c d Hin Hd. destruct Hno as [Ht | Hall].
      * destruct o; [discriminate Ht | discriminate Hd].
      * specialize (Hall c Hin). destruct o as [qr qg qb |]; [| discriminate Hd].
        destruct (rgb c); [discriminate Hall | discriminate Hd].
  - apply (nearestColor_nothing_selected _ colors ObjectPrototype); [reflexivity |].
    intros c d _. discriminate.
Qed.

Lemma nearestColor_returns_iff_witness :
  nearestColor (VString "foo") (Some DEFAULT_COLORS) = Throw (InvalidColor "foo")
  /\ nearestColor (VString "#f00")
       (Some [ {| name := None; source := "__proto__"; rgb := ObjectPrototype |} ])
     = Throw (TypeError (ReadOfUndefined "name")).
Proof.
  split.
  - apply (proj1 (nearestColor_returns_iff (VString "foo") DEFAULT_COLORS)).
    reflexivity.
  - refine (proj2 (proj1 (proj2 (nearestColor_returns_iff (VString "#f00")
             [ {| name := None; source := "__proto__"; rgb := ObjectPrototype |} ]))
             (Rgb 255 0 0) eq_refl eq_refl _) _).
    + repeat constructor.
    + right. intros c [<- | []]. reflexivity.
Defined.

(** ** What or keeps, and or after or *)

(** Rebuilding an entry, as [from] does with the entries [or] hands to
    it: the name (when not empty) and the source are kept, and the result
    satisfies the invariant. *)
Lemma createColorSpec_ISpec_inv (c entry : ColorSpec) (n : option string) :
  createColorSpec (ISpec c) n = Return entry ->
  name entry = truthy (name c) /\ source entry = source c /\ consistent entry.
Proof.
  destruct c as [n0 s0 o0]. cbn [createColorSpec name source].
  destruct s0 as [| a s0]; [discriminate |]. intros H.
  pose proof (createColorSpec_string_consistent _ _ _ H) as Hcons.
  unfold createColorSpec_string in H. apply bind_Return in H.
  destruct H as (o & _ & Hentry). inversion Hentry. subst entry.
  split; [reflexivity |]. split; [reflexivity | exact Hcons].
Qed.

Lemma rebuild_inv (l l' : list ColorSpec) :
  mapColors (Array (map ISpec l)) = Return l' ->
  Forall2 (fun c entry => name entry = truthy (name c) /\ source entry = source c) l l'
  /\ Forall consistent l'.
Proof.
  cbn [mapColors]. revert l'. induction l as [| c l IH]; intros l' H; cbn [map mapM] in H.
  - inversion H. split; constructor.
  - apply bind_Return in H. destruct H as (entry & Hentry & H).
    apply bind_Return in H. destruct H as (rest & Hrest & H).
    inversion H. subst l'. destruct (IH rest Hrest) as [IH1 IH2].
    apply createColorSpec_ISpec_inv in Hentry. destruct Hentry as (Hn & Hs & Hc).
    split; constructor; try assumption. split; assumption.
Qed.

Lemma rebuild_app (l1 l2 l' : list ColorSpec) :
  mapColors (Array (map ISpec (l1 ++ l2)%list)) = Return l' <->
  exists l1' l2', mapColors (Array (map ISpec l1)) = Return l1'
                  /\ mapColors (Array (map ISpec l2)) = Return l2'
                  /\ l' = (l1' ++ l2')%list.
Proof.
  cbn [mapColors]. rewrite map_app, mapM_app. split.
  - intros H. apply bind_Return in H. destruct H as (l1' & H1 & H).
    apply bind_Return in H. destruct H as (l2' & H2 & H).
    inversion H. exists l1', l2'. split; [exact H1 |]. split; [exact H2 | reflexivity].
  - intros (l1' & l2' & H1 & H2 & ->). rewrite H1, H2. reflexivity.
Qed.

Lemma Forall2_map_eq {A B C : Type} (f : B -> C) (g : A -> C)
    (l : list A) (l' : list B) :
  Forall2 (fun a b => f b = g a) l l' -> map f l' = map g l.
Proof.
  intros H. induction H as [| a b l l' Hab _ IH]; cbn [map]; [reflexivity |].
  rewrite Hab, IH. reflexivity.
Qed.

Lemma or_Return_inv (m m' : matcher) (Q : colors) :
  or m Q = Return m' <->
  exists q, mapColors Q = Return q
            /\ mapColors (Array (map ISpec (captured m ++ q)%list)) = Return (captured m').
Proof.
  unfold or, from. split.
  - intros H. apply bind_Return in H. destruct H as (q & Hq & H).
    apply bind_Return in H. destruct H as (l & Hl & H).
    inversion H. exists q. split; [exact Hq | exact Hl].
  - intros (q & Hq & Hl). rewrite Hq. cbn [bind]. rewrite Hl.
    destruct m'. reflexivity.
Qed.

(** X13. Whatever the matcher and the colours given, when [or] returns a
    matcher, its entries are those of the receiver followed by those made
    from the colours, in that order, with their sources and their names
    (an empty name counting as none); every entry's rgb is what its source
    parses to; and [or] of the new matcher with no colours returns it
    again. *)
Theorem or_keeps_sources_and_names :
  forall (m m' : matcher) (Q : colors),
    or m Q = Return m' ->
    exists q : list ColorSpec,
      mapColors Q = Return q
      /\ map source (captured m') = map source (captured m ++ q)%list
      /\ map name (captured m') = map (fun c => truthy (name c)) (captured m ++ q)%list
      /\ Forall (fun entry => parseColor (VString (source entry)) = Return (rgb entry))
                (captured m')
      /\ or m' (Array []) = Return m'.
Proof.
  intros m m' Q H. apply or_Return_inv in H. destruct H as (q & Hq & Hl).
  exists q. split; [exact Hq |].
  apply rebuild_inv in Hl. destruct Hl as [H2 Hcons].
  split; [| split; [| split]].
  - apply (Forall2_map_eq source source). eapply Forall2_impl; [| exact H2].
    intros c e [_ Hs]. exact Hs.
  - apply (Forall2_map_eq name (fun c => truthy (name c))).
    eapply Forall2_impl; [| exact H2]. intros c e [Hn _]. exact Hn.
  - eapply Forall_impl; [| exact Hcons]. intros e (_ & _ & He). exact He.
  - apply or_Return_inv. exists []. split; [reflexivity |].
    rewrite app_nil_r. exact (mapColors_rebuild _ Hcons).
Qed.

Lemma or_keeps_sources_and_names_witness :
  exists q : list ColorSpec,
    mapColors (Object [("", IString "#eee")]) = Return q
    /\ map source [ {| name := None; source := "red"; rgb := Rgb 255 0 0 |};
                    {| name := None; source := "#eee"; rgb := Rgb 238 238 238 |} ]
       = map source ([ {| name := Some ""; source := "red"; rgb := Rgb 0 0 0 |} ] ++ q)%list
    /\ map name [ {| name := None; source := "red"; rgb := Rgb 255 0 0 |};
                  {| name := None; source := "#eee"; rgb := Rgb 238 238 238 |} ]
       = map (fun c => truthy (name c))
             ([ {| name := Some ""; source := "red"; rgb := Rgb 0 0 0 |} ] ++ q)%list
    /\ Forall (fun entry => parseColor (VString (source entry)) = Return (rgb entry))
              [ {| name := None; source := "red"; rgb := Rgb 255 0 0 |};
                {| name := None; source := "#eee"; rgb := Rgb 238 238 238 |} ]
    /\ or {| captured := [ {| name := None; source := "red"; rgb := Rgb 255 0 0 |};
                           {| name := None; source := "#eee"; rgb := Rgb 238 238 238 |} ] |}
          (Array [])
       = Return {| captured := [ {| name := None; source := "red"; rgb := Rgb 255 0 0 |};
                                 {| name := None; source := "#eee";
                                    rgb := Rgb 238 238 238 |} ] |}.
Proof.
  apply (or_keeps_sources_and_names
           {| captured := [ {| name := Some ""; source := "red"; rgb := Rgb 0 0 0 |} ] |}
           {| captured := [ {| name := None; source := "red"; rgb := Rgb 255 0 0 |};
                            {| name := None; source := "#eee"; rgb := Rgb 238 238 238 |} ] |}
           (Object [("", IString "#eee")])).
  reflexivity.
Defined.

(** X14. Two uses of [or], with one array and then another, return a
    matcher exactly when one use of [or] with the two arrays joined does,
    and then the same matcher. *)
Theorem or_twice :
  forall (m m' : matcher) (elements1 elements2 : list input),
    (exists m1, or m (Array elements1) = Return m1
                /\ or m1 (Array elements2) = Return m')
    <-> or m (Array (elements1 ++ elements2)%list) = Return m'.
Proof.
  intros m m' elements1 elements2. split.
  - intros (m1 & H1 & H2).
    apply or_Return_inv in H1. destruct H1 as (q1 & Hq1 & Hl1).
    apply or_Return_inv in H2. destruct H2 as (q2 & Hq2 & Hl2).
    apply or_Return_inv. exists (q1 ++ q2)%list. split.
    + cbn [mapColors] in *. rewrite mapM_app, Hq1, Hq2. reflexivity.
    + apply rebuild_app in Hl2. destruct Hl2 as (l1' & l2' & Hl1' & Hl2' & Hm').
      pose proof (proj2 (rebuild_inv _ _ Hl1)) as Hcons.
      rewrite (mapColors_rebuild _ Hcons) in Hl1'. inversion Hl1'. subst l1'.
      rewrite app_assoc. apply rebuild_app.
      exists (captured m1), l2'. split; [exact Hl1 |]. split; [exact Hl2' | exact Hm'].
  - intros H. apply or_Return_inv in H. destruct H as (q & Hq & Hl).
    cbn [mapColors] in Hq. rewrite mapM_app in Hq.
    apply bind_Return in Hq. destruct Hq as (q1 & Hq1 & Hq).
    apply bind_Return in Hq. destruct Hq as (q2 & Hq2 & Hq).
    inversion Hq. subst q. rewrite app_assoc in Hl.
    apply rebuild_app in Hl. destruct Hl as (l1' & l2' & Hl1' & Hl2' & Hm').
    exists {| captured := l1' |}. split.
    + apply or_Return_inv. exists q1. split; [exact Hq1 | exact Hl1'].
    + apply or_Return_inv. exists q2. split; [exact Hq2 |]. cbn [captured].
      apply rebuild_app. exists l1', l2'.
      split; [| split; [exact Hl2' | exact Hm']].
      exact (mapColors_rebuild _ (proj2 (rebuild_inv _ _ Hl1'))).
Qed.

Lemma or_twice_witness :
  or {| captured := [ {| name := None; source := "#f00"; rgb := Rgb 255 0 0 |} ] |}
     (Array ([IString "#eee"] ++ [IRgb (Rgb 68 68 68)])%list)
  = Return {| captured := [ {| name := None; source := "#f00"; rgb := Rgb 255 0 0 |};
                            {| name := None; source := "#eee"; rgb := Rgb 238 238 238 |};
                            {| name := None; source := "#444444"; rgb := Rgb 68 68 68 |} ] |}.
Proof.
  apply (proj1 (or_twice
           {| captured := [ {| name := None; source := "#f00"; rgb := Rgb 255 0 0 |} ] |}
           {| captured := [ {| name := None; source := "#f00"; rgb := Rgb 255 0 0 |};
                            {| name := None; source := "#eee"; rgb := Rgb 238 238 238 |};
                            {| name := None; source := "#444444"; rgb := Rgb 68 68 68 |} ] |}
           [IString "#eee"] [IRgb (Rgb 68 68 68)])).
  exists {| captured := [ {| name := None; source := "#f00"; rgb := Rgb 255 0 0 |};
                          {| name := None; source := "#eee"; rgb := Rgb 238 238 238 |} ] |}.
  split; reflexivity.
Defined.

(** ** The values of an object of colours *)

(** X15. [mapColors] on an object gives one entry for each property, in
    the order of the keys.  A string or an [RGB] under a key gives an
    entry named by the key, unless the key is the empty string, with the
    string, or the rendering of the triple, as its source.  A [ColorSpec]
    under a key gives an entry with that spec's own name and source: the
    key is dropped. *)
Theorem mapColors_object_entries :
  forall (props : list (string * input)) (p : list ColorSpec),
    mapColors (Object props) = Return p ->
    Forall2 (fun prop entry =>
               match snd prop with
               | IString s =>
                   name entry = truthy (Some (fst prop)) /\
                   source entry = s /\
                   parseColor (VString s) = Return (rgb entry)
               | IRgb o =>
                   name entry = truthy (Some (fst prop)) /\
                   rgbToHex o = Return (source entry) /\
                   rgb entry = o
               | ISpec c =>
                   name entry = truthy (name c) /\
                   source entry = source c /\
                   parseColor (VString (source c)) = Return (rgb entry)
               end) props p.
Proof.
  intros props p H. cbn [mapColors] in H. apply mapM_Forall2 in H.
  induction H as [| [key value] entry props p Hentry _ IH]; constructor; [| exact IH].
  cbn [fst snd] in *. destruct value as [s | o | c].
  - cbn [createColorSpec] in Hentry. unfold createColorSpec_string in Hentry.
    apply bind_Return in Hentry. destruct Hentry as (o & Hparse & Hentry).
    inversion Hentry. subst entry. cbn [name source rgb].
    split; [reflexivity |]. split; [reflexivity | exact Hparse].
  - cbn [createColorSpec] in Hentry.
    apply bind_Return in Hentry. destruct Hentry as (hex & Hhex & Hentry).
    inversion Hentry. subst entry. cbn [name source rgb].
    split; [reflexivity |]. split; [exact Hhex | reflexivity].
  - pose proof (createColorSpec_ISpec_inv _ _ _ Hentry) as (Hn & Hs & _ & _ & Hp).
    split; [exact Hn |]. split; [exact Hs |]. rewrite <- Hs. exact Hp.
Qed.

Lemma mapColors_object_entries_witness :
  let white := {| name := Some "white"; source := "fff"; rgb := Rgb 255 255 255 |} in
  Forall2 (fun prop entry =>
             match snd prop with
             | IString s =>
                 name entry = truthy (Some (fst prop)) /\
                 source entry = s /\
                 parseColor (VString s) = Return (rgb entry)
             | IRgb o =>
                 name entry = truthy (Some (fst prop)) /\
                 rgbToHex o = Return (source entry) /\
                 rgb entry = o
             | ISpec c =>
                 name entry = truthy (name c) /\
                 source entry = source c /\
                 parseColor (VString (source c)) = Return (rgb entry)
             end)
          [("snow", ISpec white); ("", IString "#EEE"); ("orange", IRgb (Rgb 255 128 0))]
          [white;
           {| name := None; source := "#EEE"; rgb := Rgb 238 238 238 |};
           {| name := Some "orange"; source := "#ff8000"; rgb := Rgb 255 128 0 |}].
Proof.
  intros white.
  apply (mapColors_object_entries
           [("snow", ISpec white); ("", IString "#EEE"); ("orange", IRgb (Rgb 255 128 0))]).
  reflexivity.
Defined.

(** ** Matchers made from strings *)

Lemma mapColors_strings_supported (l : list string) :
  Forall supported l ->
  exists p : list ColorSpec,
    mapColors (Array (map IString l)) = Return p
    /\ map source p = l
    /\ Forall (fun c => name c = None /\ is_triple (rgb c) = true) p.
Proof.
  intros H. cbn [mapColors]. induction H as [| s l Hs _ (p & Hp & Hsrc & Hall)].
  - exists []. split; [reflexivity |]. split; [reflexivity | constructor].
  - destruct (parseColor_supported s Hs) as (r & g & b & Hparse).
    exists ({| name := None; source := s; rgb := Rgb r g b |} :: p).
    cbn [map mapM createColorSpec]. unfold createColorSpec_string.
    rewrite Hparse. cbn [bind truthy]. rewrite Hp. cbn [bind].
    split; [reflexivity |]. split; [cbn [map source]; rewrite Hsrc; reflexivity |].
    constructor; [split; reflexivity | exact Hall].
Qed.

(** X16. [from] on an array of strings.  When every string belongs to
    one of the three grammars, [from] returns a matcher whose entries
    have those strings as their sources, in order, no name, and a triple
    as rgb.  When a string is the first that belongs to none (and is no
    inherited property name), [from] throws the error that names that
    string. *)
Theorem from_strings :
  forall l : list string,
    (Forall supported l ->
     exists m : matcher,
       from (Array (map IString l)) = Return m
       /\ map source (captured m) = l
       /\ Forall (fun c => name c = None /\ is_triple (rgb c) = true) (captured m))
    /\ (forall (before : list string) (s : string) (after : list string),
        l = (before ++ s :: after)%list ->
        Forall supported before -> ~ supported s -> ~ inherited_name s ->
        from (Array (map IString l)) = Throw (InvalidColor s)).
Proof.
  intros l. split.
  - intros H. destruct (mapColors_strings_supported l H) as (p & Hp & Hsrc & Hall).
    exists {| captured := p |}. unfold from. rewrite Hp.
    split; [reflexivity |]. split; [exact Hsrc | exact Hall].
  - intros before s after -> Hbefore Hs Hown.
    destruct (mapColors_strings_supported before Hbefore) as (p & Hp & _).
    destruct (parseColor_unsupported s Hs Hown) as (_ & _ & _ & Harray & _).
    unfold from. rewrite map_app. cbn [map].
    rewrite (Harray (map IString before) (map IString after) p Hp). reflexivity.
Qed.

Lemma from_strings_witness :
  (exists m : matcher,
      from (Array (map IString ["#f00"; "rgb(0, 128, 0)"; "blue"])) = Return m
      /\ map source (captured m) = ["#f00"; "rgb(0, 128, 0)"; "blue"]
      /\ Forall (fun c => name c = None /\ is_triple (rgb c) = true) (captured m))
  /\ from (Array (map IString ["#f00"; "foo"; "bar"])) = Throw (InvalidColor "foo").
Proof.
  split.
  - apply (proj1 (from_strings ["#f00"; "rgb(0, 128, 0)"; "blue"])).
    apply Forall_cons; [| apply Forall_cons; [| apply Forall_cons; [| apply Forall_nil]]].
    + right. left. exists true, "f00". repeat split. left. reflexivity.
    + right. right.
      exists (mkComponent "0" false), (mkComponent "128" false), (mkComponent "0" false).
      exists "r"%char, "g"%char, "b"%char, "", " ", " ", "".
      repeat split; left; reflexivity.
    + left. exists "#00f". reflexivity.
  - apply (proj2 (from_strings ["#f00"; "foo"; "bar"]) ["#f00"] "foo" ["bar"]).
    + reflexivity.
    + apply Forall_cons; [| apply Forall_nil].
      right. left. exists true, "f00". repeat split. left. reflexivity.
    + intros Hsup. destruct (parseColor_supported "foo" Hsup) as (r & g & b & H).
      vm_compute in H. discriminate H.
    + intros (v & Hv). vm_compute in Hv. discriminate Hv.
Defined.

Lemma mapColors_strings_exact (l : list string) (p : list ColorSpec) :
  mapColors (Array (map IString l)) = Return p ->
  Forall (fun c => exact_channels (rgb c) = true) p.
Proof.
  cbn [mapColors]. revert p. induction l as [| s l IH]; intros p H; cbn [map mapM] in H.
  - inversion H. constructor.
  - apply bind_Return in H. destruct H as (c & Hc & H).
    apply bind_Return in H. destruct H as (rest & Hrest & H).
    inversion H. subst p. constructor; [| exact (IH rest Hrest)].
    cbn [createColorSpec] in Hc. unfold createColorSpec_string in Hc.
    apply bind_Return in Hc. destruct Hc as (o & Hparse & Hc).
    inversion Hc. cbn [rgb]. exact (parseColor_string_exact s o Hparse).
Qed.

(** X17. A matcher made from a non-empty array of strings of the three
    grammars answers every query of the three grammars, with one of the
    strings it was made from. *)
Theorem matcher_answers_supported_queries :
  forall (l : list string) (m : matcher) (query : string),
    l <> [] -> Forall supported l -> supported query ->
    from (Array (map IString l)) = Return m ->
    exists answer : string,
      In answer l /\ call m (VString query) = Return (Bare answer).
Proof.
  intros l m query Hne Hl Hq Hfrom.
  destruct (mapColors_strings_supported l Hl) as (p & Hp & Hsrc & Hall).
  pose proof (mapColors_strings_exact l p Hp) as Hexact.
  unfold from in Hfrom. rewrite Hp in Hfrom. inversion Hfrom. subst m. clear Hfrom.
  destruct (parseColor_supported query Hq) as (r & g & b & Hparse).
  pose proof (parseColor_string_exact query _ Hparse) as Hquery.
  rewrite Forall_forall in Hall. rewrite Forall_forall in Hexact.
  destruct (scan (Rgb r g b) p) as [[d value] |] eqn:Hscan.
  - pose proof (scan_spec (Rgb r g b) p) as Hspec. rewrite Hscan in Hspec.
    destruct Hspec as (i & Hi & _). apply nth_error_In in Hi.
    exists (source value). split.
    + rewrite <- Hsrc. apply in_map. exact Hi.
    + unfold call. cbn [captured].
      rewrite (nearestColor_eval _ _ _ _ _ Hparse Hscan).
      unfold result. rewrite (proj1 (Hall value Hi)). reflexivity.
  - pose proof (scan_spec (Rgb r g b) p) as Hspec. rewrite Hscan in Hspec.
    destruct p as [| c p]; [subst l; contradiction Hne; reflexivity |].
    destruct (Hall c (or_introl eq_refl)) as [_ Ht].
    pose proof (Hexact c (or_introl eq_refl)) as Hc.
    destruct (rgb c) as [r' g' b' |] eqn:Hrgb; [| discriminate Ht].
    contradiction (Hspec c (or_introl eq_refl)
                     ((r - r') ^ 2 + (g - g') ^ 2 + (b - b') ^ 2)).
    rewrite Hrgb. exact (distanceSq_exact r g b r' g' b' Hquery Hc).
Qed.

Lemma matcher_answers_supported_queries_witness :
  exists answer : string,
    In answer ["#f00"; "blue"]
    /\ call {| captured := [ {| name := None; source := "#f00"; rgb := Rgb 255 0 0 |};
                             {| name := None; source := "blue"; rgb := Rgb 0 0 255 |} ] |}
            (VString "navy")
       = Return (Bare answer).
Proof.
  apply (matcher_answers_supported_queries ["#f00"; "blue"]).
  - discriminate.
  - apply Forall_cons; [| apply Forall_cons; [| apply Forall_nil]].
    + right. left. exists true, "f00". repeat split. left. reflexivity.
    + left. exists "#00f". reflexivity.
  - left. exists "#000080". reflexivity.
  - reflexivity.
Defined.

(** ** The version before createColorSpec, beside the latest *)

Lemma Earlier_hexMatch_Some (s body : string) :
  Earlier.hexMatch s = Some body -> hexMatch s = Some body.
Proof.
  unfold Earlier.hexMatch, hexMatch. destruct s as [| c s']; [discriminate |].
  destruct (Ascii.eqb c "#"); [| discriminate]. cbn [andb]. intros H. exact H.
Qed.

Lemma Earlier_hexMatch_None (s : string) :
  Earlier.hexMatch s = None ->
  hexMatch s = None
  \/ (hexMatch s = Some s /\ all_chars is_hex_digit s = true
      /\ (length s = 3 \/ length s = 6)%nat).
Proof.
  unfold Earlier.hexMatch. destruct s as [| c s']; [left; reflexivity |].
  destruct (Ascii.eqb c "#") eqn:Hc; cbn [andb].
  - intros H. left. unfold hexMatch. rewrite Hc. exact H.
  - intros _. destruct (hexMatch (String c s')) as [body |] eqn:Hm; [| left; reflexivity].
    right. apply hexMatch_spec in Hm. destruct Hm as ([|] & Hs & Hall & Hlen).
    + cbn [append] in Hs. injection Hs as Hc' _. rewrite Hc' in Hc. discriminate Hc.
    + cbn [append] in Hs. subst body. split; [reflexivity |]. split; assumption.
Qed.

Lemma STANDARD_COLORS_get_cases (s : string) (v : jsval) :
  STANDARD_COLORS_get s = Some v ->
  (standard_name s
   /\ exists r g b, Earlier.parseColor_depth 0 v = Return (Some (Rgb r g b))
                    /\ parseColor_depth 0 v = Return (Rgb r g b))
  \/ (inherited_name s /\ (v = VFunction \/ v = VObject ObjectPrototype)).
Proof.
  unfold STANDARD_COLORS_get, standard_name, inherited_name.
  destruct (assoc s STANDARD_COLORS) as [hex |] eqn:Hown.
  - intros H. inversion H. subst v. left. split; [exists hex; reflexivity |].
    revert Hown. unfold STANDARD_COLORS, assoc.
    repeat match goal with
           | |- context [String.eqb s ?k] => destruct (String.eqb s k)
           end;
      intros H'; inversion H'; subst hex; do 3 eexists; split; reflexivity.
  - intros H. right. split; [exists v; exact H |].
    revert H. unfold OBJECT_PROTOTYPE, assoc.
    repeat match goal with
           | |- context [String.eqb s ?k] => destruct (String.eqb s k)
           end;
      intros H; inversion H; auto.
Qed.

(** X18. The earlier [parseColor] beside the latest, on every string.
    What the earlier one parses, the latest parses to the same triple.
    Where the earlier one returns null, the latest throws its error, or
    the string is three or six hexadecimal digits without [#], which only
    the latest accepts.  The earlier one throws only on an inherited
    property name.  And a triple the latest returns for a string that is
    not made of hexadecimal digits is what the earlier one returns. *)
Theorem Earlier_parseColor_agrees :
  forall s : string,
    (forall o, Earlier.parseColor (VString s) = Return (Some o) ->
               parseColor (VString s) = Return o)
    /\ (Earlier.parseColor (VString s) = Return None ->
        parseColor (VString s) = Throw (InvalidColor s)
        \/ (all_chars is_hex_digit s = true /\ (length s = 3 \/ length s = 6)%nat
            /\ exists r g b, parseColor (VString s) = Return (Rgb r g b)))
    /\ (forall e, Earlier.parseColor (VString s) = Throw e ->
                  inherited_name s /\ e = TypeError NotAFunction)
    /\ (forall o, parseColor (VString s) = Return o -> is_triple o = true ->
                  all_chars is_hex_digit s = false ->
                  Earlier.parseColor (VString s) = Return (Some o)).
Proof.
  intros s. destruct (STANDARD_COLORS_get s) as [v |] eqn:Hget.
  - assert (Hearlier : Earlier.parseColor (VString s) = Earlier.parseColor_depth 0 v)
      by (unfold Earlier.parseColor; cbn [Earlier.parseColor_depth];
          rewrite Hget; reflexivity).
    assert (Hlatest : parseColor (VString s) = parseColor_depth 0 v)
      by (unfold parseColor; cbn [parseColor_depth]; rewrite Hget; reflexivity).
    rewrite Hearlier, Hlatest. clear Hearlier Hlatest.
    apply STANDARD_COLORS_get_cases in Hget.
    destruct Hget as [(_ & r & g & b & He & Hl) | (Hin & [-> | ->])].
    + rewrite He, Hl. split; [| split; [| split]].
      * intros o H. inversion H. reflexivity.
      * discriminate.
      * discriminate.
      * intros o H _ _. inversion H. reflexivity.
    + cbn [Earlier.parseColor_depth parseColor_depth].
      split; [discriminate |]. split; [discriminate |]. split.
      * intros e H. inversion H. split; [exact Hin | reflexivity].
      * discriminate.
    + cbn [Earlier.parseColor_depth parseColor_depth].
      split; [discriminate |]. split; [discriminate |]. split.
      * intros e H. inversion H. split; [exact Hin | reflexivity].
      * intros o H Ht. inversion H. subst o. discriminate Ht.
  - unfold Earlier.parseColor, parseColor.
    cbn [Earlier.parseColor_depth parseColor_depth]. rewrite Hget.
    destruct (Earlier.hexMatch s) as [body |] eqn:Hm.
    + rewrite (Earlier_hexMatch_Some s body Hm).
      destruct (length body =? 3)%nat; (split; [| split; [| split]]);
        try discriminate.
      all: intros o H; inversion H; try reflexivity; intros _ _; reflexivity.
    + destruct (Earlier_hexMatch_None s Hm) as [Hl | (Hl & Hall & Hlen)]; rewrite Hl.
      * destruct (rgbMatch s) as [[[c1 c2] c3] |]; (split; [| split; [| split]]);
          try discriminate.
        -- intros o H. inversion H. reflexivity.
        -- intros o H _ _. inversion H. reflexivity.
        -- intros _. left. reflexivity.
      * split; [| split; [| split]].
        -- destruct (rgbMatch s) as [[[c1 c2] c3] |] eqn:Hr; [| discriminate].
           exfalso. apply rgbMatch_spec in Hr. destruct Hr as (k1 & k2 & k3 & Hform & _).
           pose proof (proj2 (STANDARD_COLORS_get_rgb_form s k1 k2 k3 Hform)) as Hno.
           rewrite Hl in Hno. discriminate Hno.
        -- intros _. right. split; [exact Hall |]. split; [exact Hlen |].
           destruct (length s =? 3)%nat; do 3 eexists; reflexivity.
        -- destruct (rgbMatch s) as [[[c1 c2] c3] |]; discriminate.
        -- intros o _ _ Hno. rewrite Hall in Hno. discriminate Hno.
Qed.

Lemma Earlier_parseColor_agrees_witness :
  parseColor (VString "#F80") = Return (Rgb 255 136 0)
  /\ (parseColor (VString "f80") = Throw (InvalidColor "f80")
      \/ (all_chars is_hex_digit "f80" = true
          /\ (length "f80" = 3 \/ length "f80" = 6)%nat
          /\ exists r g b, parseColor (VString "f80") = Return (Rgb r g b)))
  /\ Earlier.parseColor (VString "rgb(1,2,3)") = Return (Some (Rgb 1 2 3)).
Proof.
  split; [| split].
  - apply (proj1 (Earlier_parseColor_agrees "#F80")). reflexivity.
  - apply (proj1 (proj2 (Earlier_parseColor_agrees "f80"))). reflexivity.
  - apply (proj2 (proj2 (proj2 (Earlier_parseColor_agrees "rgb(1,2,3)"))));
      reflexivity.
Defined.

Lemma Earlier_parseColor_Some (s : string) (o : RGB) :
  Earlier.parseColor (VString s) = Return (Some o) -> parseColor (VString s) = Return o.
Proof.
  destruct (STANDARD_COLORS_get s) as [v |] eqn:Hget.
  - assert (Hearlier : Earlier.parseColor (VString s) = Earlier.parseColor_depth 0 v)
      by (unfold Earlier.parseColor; cbn [Earlier.parseColor_depth];
          rewrite Hget; reflexivity).
    assert (Hlatest : parseColor (VString s) = parseColor_depth 0 v)
      by (unfold parseColor; cbn [parseColor_depth]; rewrite Hget; reflexivity).
    rewrite Hearlier, Hlatest. clear Hearlier Hlatest.
    apply STANDARD_COLORS_get_cases in Hget.
    destruct Hget as [(_ & r & g & b & He & Hl) | (_ & [-> | ->])].
    + rewrite He, Hl. intros H. inversion H. reflexivity.
    + discriminate.
    + discriminate.
  - unfold Earlier.parseColor, parseColor.
    cbn [Earlier.parseColor_depth parseColor_depth]. rewrite Hget.
    destruct (Earlier.hexMatch s) as [body |] eqn:Hm.
    + rewrite (Earlier_hexMatch_Some s body Hm).
      destruct (length body =? 3)%nat; intros H; inversion H; reflexivity.
    + destruct (rgbMatch s) as [[[c1 c2] c3] |] eqn:Hr; [| discriminate].
      destruct (proj1 (rgbMatch_spec s c1 c2 c3) Hr) as (k1 & k2 & k3 & Hform & _).
      rewrite (proj2 (STANDARD_COLORS_get_rgb_form s k1 k2 k3 Hform)).
      intros H. inversion H. reflexivity.
Qed.

Lemma mapM_map {A B C : Type} (g : A -> B) (f : B -> outcome C) (l : list A) :
  mapM f (map g l) = mapM (fun a => f (g a)) l.
Proof.
  induction l as [| a l IH]; cbn [map mapM]; [reflexivity |]. rewrite IH. reflexivity.
Qed.

(** The loop of the earlier version throws as soon as the needle or an
    rgb is null, and nothing else makes it throw. *)
Lemma Earlier_loop_Throw (needle : option RGB) (colors : list Earlier.ColorSpec) (e : error) :
  fold_left (Earlier.loop_step needle) colors (Throw e) = Throw e.
Proof. induction colors as [| c colors IH]; [reflexivity | exact IH]. Qed.

Lemma Earlier_loop_Return_inv (needle : option RGB) (colors : list Earlier.ColorSpec) :
  forall st st',
    fold_left (Earlier.loop_step needle) colors (Return st) = Return st' ->
    colors = [] \/ (needle <> None /\ Forall (fun c => Earlier.rgb c <> None) colors).
Proof.
  induction colors as [| c colors IH]; intros st st' H; [left; reflexivity |].
  right. cbn [fold_left] in H. unfold Earlier.loop_step at 2 in H. cbn [bind] in H.
  destruct needle as [o |]; [| rewrite Earlier_loop_Throw in H; discriminate H].
  destruct (Earlier.rgb c) as [r |] eqn:Hrgb;
    [| rewrite Earlier_loop_Throw in H; discriminate H].
  split; [discriminate |].
  assert (Hrest : exists st1, fold_left (Earlier.loop_step (Some o)) colors (Return st1)
                              = Return st').
  { destruct (distanceSq o r) as [| d |]; [exists st; exact H | | exists st; exact H].
    destruct st as [[m v] |]; [| eexists; exact H].
    destruct (d <? m); eexists; exact H. }
  destruct Hrest as (st1 & Hrest).
  constructor; [rewrite Hrgb; discriminate |].
  destruct (IH st1 st' Hrest) as [-> | [_ Hall]]; [constructor | exact Hall].
Qed.

Lemma Earlier_loop_Throw_inv (needle : option RGB) (colors : list Earlier.ColorSpec) :
  forall st e,
    fold_left (Earlier.loop_step needle) colors (Return st) = Throw e ->
    e = TypeError (ReadOfUndefined "r").
Proof.
  induction colors as [| c colors IH]; intros st e H; [discriminate H |].
  cbn [fold_left] in H. unfold Earlier.loop_step at 2 in H. cbn [bind] in H.
  destruct needle as [o |];
    [| rewrite Earlier_loop_Throw in H; inversion H; reflexivity].
  destruct (Earlier.rgb c) as [r |];
    [| rewrite Earlier_loop_Throw in H; inversion H; reflexivity].
  destruct (distanceSq o r) as [| d |]; [exact (IH _ _ H) | | exact (IH _ _ H)].
  destruct st as [[m v] |]; [| exact (IH _ _ H)].
  destruct (d <? m); exact (IH _ _ H).
Qed.

(** The two loops, over entries that are the same, go through states
    that are the same. *)
Lemma loop_simulation (o : RGB) (pe : list Earlier.ColorSpec) (p : list ColorSpec) :
  Forall2 same_entry pe p ->
  forall se s, same_state se s ->
    exists se', fold_left (Earlier.loop_step (Some o)) pe (Return se) = Return se'
                /\ same_state se' (fold_left (scan_step o) p s).
Proof.
  intros H. induction H as [| e c pe p Hec _ IH]; intros se s Hst.
  - exists se. split; [reflexivity | exact Hst].
  - cbn [fold_left]. unfold Earlier.loop_step at 2. cbn [bind]. unfold scan_step at 2.
    pose proof Hec as (_ & _ & Hrgb). rewrite Hrgb.
    destruct (distanceSq o (rgb c)) as [| d |];
      [exact (IH se s Hst) | | exact (IH se s Hst)].
    destruct se as [[me ve] |], s as [[m v] |]; cbn [same_state] in Hst;
      try contradiction.
    + destruct Hst as [-> Hv]. destruct (d <? m).
      * apply IH. split; [reflexivity | exact Hec].
      * apply IH. split; [reflexivity | exact Hv].
    + apply IH. split; [reflexivity | exact Hec].
Qed.

Lemma Earlier_nearestColor_simulation (needle : jsval) (o : RGB)
    (pe : list Earlier.ColorSpec) (p : list ColorSpec) (res_e : Earlier.MatchResult) :
  Forall2 same_entry pe p ->
  Earlier.parseColor needle = Return (Some o) -> parseColor needle = Return o ->
  Earlier.nearestColor needle (Some pe) = Return res_e ->
  exists res, nearestColor needle (Some p) = Return res /\ forget res = res_e.
Proof.
  intros Hsame Hpe Hp H. unfold Earlier.nearestColor in H. rewrite Hpe in H.
  cbn [bind] in H.
  destruct (loop_simulation o pe p Hsame None None I) as (se' & Hloop & Hst).
  rewrite Hloop in H. cbn [bind] in H.
  unfold nearestColor. rewrite Hp. cbn [bind]. fold (scan o p) in Hst.
  destruct se' as [[de e] |], (scan o p) as [[d c] |]; cbn [same_state] in Hst;
    try contradiction; [| discriminate H].
  destruct Hst as (_ & Hname & Hsource & _).
  exists (result c d). split; [reflexivity |].
  unfold result. rewrite <- Hname.
  destruct (truthy (Earlier.name e)) as [n |]; inversion H; cbn [forget];
    rewrite Hsource; reflexivity.
Qed.

Lemma Earlier_entries_upgrade {A : Type} (fe : A -> outcome Earlier.ColorSpec)
    (f : A -> outcome ColorSpec) :
  (forall a e, fe a = Return e -> Earlier.rgb e <> None ->
               exists c, f a = Return c /\ same_entry e c) ->
  forall l pe, mapM fe l = Return pe ->
               Forall (fun e => Earlier.rgb e <> None) pe ->
               exists p, mapM f l = Return p /\ Forall2 same_entry pe p.
Proof.
  intros Hf. induction l as [| a l IH]; intros pe H Hall; cbn [mapM] in *.
  - inversion H. exists []. split; [reflexivity | constructor].
  - apply bind_Return in H. destruct H as (e & He & H).
    apply bind_Return in H. destruct H as (rest & Hrest & H).
    inversion H. subst pe. inversion Hall as [| ? ? He0 Hall']. subst.
    destruct (Hf a e He He0) as (c & Hc & Hec).
    destruct (IH rest Hrest Hall') as (p & Hp & Hsame).
    exists (c :: p). rewrite Hc. cbn [bind]. rewrite Hp. cbn [bind].
    split; [reflexivity | constructor; assumption].
Qed.

Lemma Earlier_call_Return_inv (me : Earlier.matcher) (needle : jsval)
    (res_e : Earlier.MatchResult) :
  Earlier.call me needle = Return res_e ->
  exists o, Earlier.parseColor needle = Return (Some o)
            /\ Forall (fun e => Earlier.rgb e <> None) (Earlier.captured me).
Proof.
  unfold Earlier.call, Earlier.nearestColor. intros H.
  apply bind_Return in H. destruct H as (n & Hn & H).
  apply bind_Return in H. destruct H as (st & Hloop & H).
  pose proof (Earlier_loop_Return_inv _ _ _ _ Hloop) as [Hnil | [Hneedle Hall]].
  - rewrite Hnil in Hloop. cbn [fold_left] in Hloop. inversion Hloop. subst st.
    discriminate H.
  - destruct n as [o |]; [| contradiction Hneedle; reflexivity].
    exists o. split; [exact Hn | exact Hall].
Qed.

Lemma Earlier_entry_upgrade (s : string) (n : option string) (e : Earlier.ColorSpec) :
  (parsed <- Earlier.parseColor (VString s) ;;
   Return {| Earlier.name := n; Earlier.source := s; Earlier.rgb := parsed |}) = Return e ->
  Earlier.rgb e <> None ->
  exists c, createColorSpec (IString s) n = Return c /\ same_entry e c.
Proof.
  intros H Hrgb. apply bind_Return in H. destruct H as (parsed & Hparse & H).
  inversion H. subst e. cbn [Earlier.rgb] in Hrgb.
  destruct parsed as [o |]; [| contradiction Hrgb; reflexivity].
  exists {| name := truthy n; source := s; rgb := o |}.
  cbn [createColorSpec]. unfold createColorSpec_string.
  rewrite (Earlier_parseColor_Some s o Hparse). cbn [bind].
  split; [reflexivity |]. unfold same_entry.
  cbn [Earlier.name Earlier.source Earlier.rgb name source rgb].
  split; [apply eq_sym, truthy_idempotent |]. split; reflexivity.
Qed.

(** X19. What a matcher of the earlier version answers, the matcher the
    latest version makes from the same strings answers too (without the
    rgb and the distance of a record): for a matcher made from an array
    of strings, and for one made from an object of strings. *)
Theorem Earlier_answers_are_kept :
  (forall (l : list string) (me : Earlier.matcher) (query : string)
          (res_e : Earlier.MatchResult),
      Earlier.from (Earlier.Array (map Earlier.EString l)) = Return me ->
      Earlier.call me (VString query) = Return res_e ->
      exists (m : matcher) (res : MatchResult),
        from (Array (map IString l)) = Return m
        /\ call m (VString query) = Return res /\ forget res = res_e)
  /\ (forall (props : list (string * string)) (me : Earlier.matcher) (query : string)
             (res_e : Earlier.MatchResult),
      Earlier.from (Earlier.Object props) = Return me ->
      Earlier.call me (VString query) = Return res_e ->
      exists (m : matcher) (res : MatchResult),
        from (Object (map (fun prop => (fst prop, IString (snd prop))) props)) = Return m
        /\ call m (VString query) = Return res /\ forget res = res_e).
Proof.
  split.
  - intros l me query res_e Hfrom Hcall.
    destruct (Earlier_call_Return_inv _ _ _ Hcall) as (o & Hquery & Hall).
    unfold Earlier.from in Hfrom. apply bind_Return in Hfrom.
    destruct Hfrom as (pe & Hpe & Hme). inversion Hme. subst me. cbn [Earlier.captured] in *.
    cbn [Earlier.mapColors] in Hpe. unfold Earlier.mapColors_array in Hpe.
    rewrite mapM_map in Hpe.
    destruct (Earlier_entries_upgrade _ (fun s => createColorSpec (IString s) None)
                (fun a e => Earlier_entry_upgrade a None e) l pe Hpe Hall) as (p & Hp & Hsame).
    exists {| captured := p |}.
    destruct (Earlier_nearestColor_simulation _ o pe p res_e Hsame Hquery
                (Earlier_parseColor_Some _ _ Hquery) Hcall) as (res & Hres & Hforget).
    exists res. unfold from. cbn [mapColors]. rewrite mapM_map, Hp.
    split; [reflexivity |]. split; [exact Hres | exact Hforget].
  - intros props me query res_e Hfrom Hcall.
    destruct (Earlier_call_Return_inv _ _ _ Hcall) as (o & Hquery & Hall).
    unfold Earlier.from in Hfrom. apply bind_Return in Hfrom.
    destruct Hfrom as (pe & Hpe & Hme). inversion Hme. subst me. cbn [Earlier.captured] in *.
    cbn [Earlier.mapColors] in Hpe.
    destruct (Earlier_entries_upgrade _
                (fun prop => createColorSpec (IString (snd prop)) (Some (fst prop)))
                (fun prop e => Earlier_entry_upgrade (snd prop) (Some (fst prop)) e) props pe Hpe Hall) as (p & Hp & Hsame).
    exists {| captured := p |}.
    destruct (Earlier_nearestColor_simulation _ o pe p res_e Hsame Hquery
                (Earlier_parseColor_Some _ _ Hquery) Hcall) as (res & Hres & Hforget).
    exists res. unfold from. cbn [mapColors]. rewrite mapM_map. cbn [fst snd]. rewrite Hp.
    split; [reflexivity |]. split; [exact Hres | exact Hforget].
Qed.

Lemma Earlier_answers_are_kept_witness :
  exists (m : matcher) (res : MatchResult),
    from (Object (map (fun prop => (fst prop, IString (snd prop)))
                      [("maroon", "#800"); ("pale blue", "#def")])) = Return m
    /\ call m (VString "#f00") = Return res
    /\ forget res = Earlier.NameValue "maroon" "#800".
Proof.
  apply (proj2 Earlier_answers_are_kept
           [("maroon", "#800"); ("pale blue", "#def")]
           {| Earlier.captured :=
                [ {| Earlier.name := Some "maroon"; Earlier.source := "#800";
                     Earlier.rgb := Some (Rgb 136 0 0) |};
                  {| Earlier.name := Some "pale blue"; Earlier.source := "#def";
                     Earlier.rgb := Some (Rgb 221 238 255) |} ] |}
           "#f00"); reflexivity.
Defined.

Lemma Earlier_parseColor_returns (s : string) :
  ~ inherited_name s -> exists o, Earlier.parseColor (VString s) = Return o.
Proof.
  intros Hown. destruct (STANDARD_COLORS_get s) as [v |] eqn:Hget.
  - assert (Hearlier : Earlier.parseColor (VString s) = Earlier.parseColor_depth 0 v)
      by (unfold Earlier.parseColor; cbn [Earlier.parseColor_depth];
          rewrite Hget; reflexivity).
    rewrite Hearlier. apply STANDARD_COLORS_get_cases in Hget.
    destruct Hget as [(_ & r & g & b & He & _) | (Hin & _)]; [| contradiction].
    rewrite He. eexists. reflexivity.
  - unfold Earlier.parseColor. cbn [Earlier.parseColor_depth]. rewrite Hget.
    destruct (Earlier.hexMatch s) as [body |].
    + destruct (length body =? 3)%nat; eexists; reflexivity.
    + destruct (rgbMatch s) as [[[c1 c2] c3] |]; eexists; reflexivity.
Qed.

Lemma Earlier_mapColors_strings (l : list string) :
  (forall s, In s l -> ~ inherited_name s) ->
  exists pe, Earlier.mapColors (Earlier.Array (map Earlier.EString l)) = Return pe
             /\ Forall2 (fun s e => Earlier.source e = s
                                    /\ Earlier.parseColor (VString s) = Return (Earlier.rgb e))
                        l pe.
Proof.
  cbn [Earlier.mapColors]. unfold Earlier.mapColors_array.
  induction l as [| s l IH]; intros Hown.
  - exists []. split; [reflexivity | constructor].
  - destruct (Earlier_parseColor_returns s (Hown s (or_introl eq_refl))) as (o & Ho).
    destruct (IH (fun x Hx => Hown x (or_intror Hx))) as (pe & Hpe & Hall).
    exists ({| Earlier.name := None; Earlier.source := s; Earlier.rgb := o |} :: pe).
    cbn [map mapM]. rewrite Ho. cbn [bind]. rewrite Hpe. cbn [bind].
    split; [reflexivity |]. constructor; [| exact Hall].
    split; [reflexivity | exact Ho].
Qed.

(** X20. In the earlier version [from] rejects no array of strings (but
    for the inherited property names): a string that does not parse gives
    an entry with a null rgb.  A matcher with such an entry answers no
    query, and no matcher with an entry answers a query that does not
    parse: the loop throws on reading [r] of null.  The latest version
    throws in [from], and on the query, instead. *)
Theorem Earlier_from_accepts_unparsed_strings :
  forall l : list string,
    (forall s, In s l -> ~ inherited_name s) ->
    exists me : Earlier.matcher,
      Earlier.from (Earlier.Array (map Earlier.EString l)) = Return me
      /\ map Earlier.source (Earlier.captured me) = l
      /\ (forall (query : jsval) (o : option RGB),
          Earlier.parseColor query = Return o ->
          (l <> [] /\ o = None)
          \/ (exists s, In s l /\ Earlier.parseColor (VString s) = Return None) ->
          Earlier.call me query = Throw (TypeError (ReadOfUndefined "r"))).
Proof.
  intros l Hown. destruct (Earlier_mapColors_strings l Hown) as (pe & Hpe & Hall).
  exists {| Earlier.captured := pe |}. unfold Earlier.from. rewrite Hpe.
  split; [reflexivity |]. split.
  - cbn [Earlier.captured]. clear Hpe Hown.
    induction Hall as [| s e l pe [Hs _] _ IH]; cbn [map]; [reflexivity |].
    rewrite Hs, IH. reflexivity.
  - intros query o Hquery Hbad. unfold Earlier.call, Earlier.nearestColor.
    cbn [Earlier.captured]. rewrite Hquery. cbn [bind].
    destruct (fold_left (Earlier.loop_step o) pe (Return None)) as [st | e] eqn:Hloop.
    + exfalso. apply Earlier_loop_Return_inv in Hloop.
      destruct Hloop as [-> | [Hneedle Hrgb]].
      * inversion Hall. subst l.
        destruct Hbad as [[Hne _] | (s & [] & _)]. contradiction Hne. reflexivity.
      * destruct Hbad as [[_ ->] | (s & Hin & Hs)]; [contradiction Hneedle; reflexivity |].
        clear Hpe Hown. induction Hall as [| s0 e l pe [_ Hs0] _ IH].
        -- destruct Hin.
        -- inversion Hrgb as [| ? ? He Hrest]. subst. destruct Hin as [-> | Hin].
           ++ rewrite Hs in Hs0. inversion Hs0 as [Hnull]. apply He.
              rewrite <- Hnull. reflexivity.
           ++ exact (IH Hin Hrest).
    + apply Earlier_loop_Throw_inv in Hloop. rewrite Hloop. reflexivity.
Qed.

Lemma Earlier_from_accepts_unparsed_strings_witness :
  exists me : Earlier.matcher,
    Earlier.from (Earlier.Array (map Earlier.EString ["#f00"; "f00"; "foo"])) = Return me
    /\ map Earlier.source (Earlier.captured me) = ["#f00"; "f00"; "foo"]
    /\ (forall (query : jsval) (o : option RGB),
        Earlier.parseColor query = Return o ->
        (["#f00"; "f00"; "foo"] <> [] /\ o = None)
        \/ (exists s, In s ["#f00"; "f00"; "foo"]
                      /\ Earlier.parseColor (VString s) = Return None) ->
        Earlier.call me query = Throw (TypeError (ReadOfUndefined "r"))).
Proof.
  apply (Earlier_from_accepts_unparsed_strings ["#f00"; "f00"; "foo"]).
  intros s Hin (v & Hv).
  destruct Hin as [<- | [<- | [<- | []]]]; vm_compute in Hv; discriminate Hv.
Defined.
